(** * xiaozhi-esp32-server-golang: response pipeline, TTS fan-out and playback state

  A shallow embedding of four pieces of the server:

  - [Playback]    : [AudioState] and its control methods (package client);
  - [Accumulator] : the tool-call accumulator of
                    [EinoLLMProvider.EinoResponseWithTools] (package eino_llm);
  - [Controller]  : the goroutine of [HandleLLMWithContextAndTools]
                    (package llm);
  - [FanOut]      : the goroutine of [ContextTTSAdapter.Transform]
                    (package tts).

  and, around them, the sentence handler of package stream_sentence
  ([StreamSentence]), the wrapper [TextToSpeechStreamWithContext]
  ([Forwarder]), the options of package types ([TypesOptions]), the
  constructor of the provider ([EinoLLM]) and the conversion of the tool
  map ([McpTools]).  Package internal/util/sentence is not among the
  sources: the controller is embedded over any Segmenter, and [Sentence]
  holds what the specification says of it.

  Goroutines are embedded as state-passing programs in a small control
  monad ([Go.M]); what the environment decides (what [Recv] returns, when
  the context is observed cancelled, when a stream reader has gone away,
  what the synthesis backend answers) is an explicit argument. *)

From Stdlib Require Import String Ascii List Bool Arith Lia ZArith.
From Stdlib Require Import Permutation.
Import ListNotations.
Open Scope string_scope.

(* ===================================================================== *)
(** * Part I: definitions                                                 *)
(* ===================================================================== *)

(** ** Go: errors, contexts and a control monad for goroutine bodies *)

Module Go.

(** A non-nil Go [error] value.  [nil] is [None] of [option error]. *)
Inductive error : Type :=
| io_EOF
| errors_New (text : string).

Definition is_EOF (err : option error) : bool :=
  match err with
  | Some io_EOF => true
  | _ => false
  end.

(** [err.Error()] *)
Definition Error (e : error) : string :=
  match e with
  | io_EOF => "EOF"
  | errors_New text => text
  end.

(** [fmt.Errorf(prefix + "%v", err)] *)
Definition Errorf (prefix : string) (e : error) : error :=
  errors_New (prefix ++ Error e).

(** What a [context.Context] shows to one goroutine: the n-th time the
    goroutine looks at [ctx.Done()] in a [select], does the cancellation
    branch run?  For the [select]s that race [ctx.Done()] against a send
    this also resolves Go's random choice between two ready cases, so the
    runs described by all oracles include every real run. *)
Definition Ctx := nat -> bool.

(** [context.Background()]: never cancelled. *)
Definition Background : Ctx := fun _ => false.

(** How a statement ends other than by falling through. *)
Inductive Signal : Type :=
| SigReturn   (* a [return] statement *)
| SigBreak    (* a [break] out of the enclosing [for] *)
| SigPanic    (* a run-time panic (nil dereference) *)
| SigBlock.   (* the goroutine blocks for ever *)

Inductive Outcome (S A : Type) : Type :=
| Next (a : A) (s : S)
| Stop (sig : Signal) (s : S).
Arguments Next {S A} a s.
Arguments Stop {S A} sig s.

(** Statements over a goroutine-local state [S]. *)
Definition M (S A : Type) : Type := S -> Outcome S A.

Definition ret {S A} (a : A) : M S A := fun s => Next a s.

Definition bind {S A B} (m : M S A) (k : A -> M S B) : M S B :=
  fun s =>
    match m s with
    | Next a s' => k a s'
    | Stop sig s' => Stop sig s'
    end.

Definition gets {S A} (f : S -> A) : M S A := fun s => Next (f s) s.
Definition modify {S} (f : S -> S) : M S unit := fun s => Next tt (f s).
Definition stop {S A} (sig : Signal) : M S A := fun s => Stop sig s.

(** [if c { body }] with no else branch. *)
Definition when {S} (c : bool) (body : M S unit) : M S unit :=
  if c then body else ret tt.

(** How far a goroutine got on a finite history of its input. *)
Inductive Status : Type :=
| Closed     (* the goroutine ended; its deferred Close ran *)
| Waiting    (* blocked, as in a [Recv] once the history is used up *)
| Panicked.  (* the goroutine panicked (deferred calls ran first) *)

Definition status_of (sig : Signal) : Status :=
  match sig with
  | SigPanic => Panicked
  | SigBlock => Waiting
  | SigReturn | SigBreak => Closed
  end.

End Go.

Declare Scope go_scope.
Delimit Scope go_scope with go.
Notation "x <- m ;; k" := (Go.bind m (fun x => k))
(at level 61, m at next level, right associativity) : go_scope.
Notation "m ;; k" := (Go.bind m (fun _ => k))
(at level 61, right associativity) : go_scope.

(** Is [s] other than the empty string? *)
Definition nonempty (s : string) : bool := negb (String.eqb s "").

(** ** The fields of eino's [schema.Message] that the server touches *)

Module Schema.

Record FunctionCall : Type := {
  Name : string;
  Arguments : string
}.

Record ToolCall : Type := {
  ID : string;
  Type_ : string;
  Function : FunctionCall
}.

Inductive RoleType : Type := Assistant | User | System | Tool.

Record Message : Type := {
  Role : RoleType;
  Content : string;
  ToolCalls : list ToolCall
}.

(** What [StreamReader.Recv] hands back: a message pointer (possibly nil)
    and an error (possibly nil).  A writer may [Send] both at once, so
    the two are independent. *)
Definition RecvResult : Type := (option Message * option Go.error)%type.

End Schema.

(** ** Playback state machine (package client) *)

Module Playback.

Definition AudioChannelStateIdle : string := "idle".
Definition AudioChannelStatePlaying : string := "playing".
Definition AudioChannelStatePause : string := "pause".

(** A [*sync.Cond]: all that is observed of it is how many times it has
    been broadcast. *)
Record Cond_ : Type := { broadcasts : nat }.

(** A cancellable context as made by [context.WithCancel]: its identity
    and whether its cancel function has run. *)
Record SessionCtx : Type := { ctx_id : nat; ctx_cancelled : bool }.

(** [AudioState].  Pointer and func fields are options: [None] is nil.
    [Cancel] is the cancel function of the context held in [Ctx];
    running it marks that context cancelled.  [fresh] numbers the
    contexts made so far. *)
Record AudioState : Type := {
  State : string;
  Cond : option Cond_;
  Ctx : option SessionCtx;
  Cancel : option nat;
  fresh : nat
}.

Inductive Result (A : Type) : Type :=
| Ok (a : A)
| Panic.
Arguments Ok {A} a.
Arguments Panic {A}.

Definition NewAudioState : AudioState :=
  {| State := AudioChannelStateIdle;
     Cond := Some {| broadcasts := 0 |};
     Ctx := None;
     Cancel := None;
     fresh := 0 |}.

Definition set_State (s : string) (a : AudioState) : AudioState :=
  {| State := s; Cond := Cond a; Ctx := Ctx a; Cancel := Cancel a;
     fresh := fresh a |}.

(** [a.Cond.Broadcast()]: panics on a nil [Cond]. *)
Definition Broadcast (a : AudioState) : Result AudioState :=
  match Cond a with
  | None => Panic
  | Some c =>
      Ok {| State := State a;
            Cond := Some {| broadcasts := S (broadcasts c) |};
            Ctx := Ctx a; Cancel := Cancel a; fresh := fresh a |}
  end.

(** [a.Cancel()]: panics on a nil func; cancels the held context when
    it is the one the func was made for. *)
Definition call_Cancel (a : AudioState) : Result AudioState :=
  match Cancel a with
  | None => Panic
  | Some id =>
      Ok {| State := State a; Cond := Cond a;
            Ctx := match Ctx a with
                   | Some c =>
                       if Nat.eqb (ctx_id c) id
                       then Some {| ctx_id := id; ctx_cancelled := true |}
                       else Some c
                   | None => None
                   end;
            Cancel := Cancel a; fresh := fresh a |}
  end.

Definition SetPause (a : AudioState) : Result AudioState :=
  if String.eqb (State a) AudioChannelStatePlaying
  then Broadcast (set_State AudioChannelStatePause a)
  else Ok a.

Definition GetState (a : AudioState) : string := State a.

Definition SetStop (a : AudioState) : Result AudioState :=
  if String.eqb (State a) AudioChannelStatePlaying
     || String.eqb (State a) AudioChannelStatePause
  then Broadcast (set_State AudioChannelStateIdle a)
  else Ok a.

Definition SetPlay (a : AudioState) : Result AudioState :=
  Broadcast (set_State AudioChannelStatePlaying a).

Definition CancelCtx (a : AudioState) : Result AudioState :=
  match call_Cancel a with
  | Panic => Panic
  | Ok a1 => Ok (set_State AudioChannelStateIdle a1)
  end.

Definition RestartSessionCtx (a : AudioState) : Result AudioState :=
  match call_Cancel a with
  | Panic => Panic
  | Ok a1 =>
      let a2 := set_State AudioChannelStateIdle a1 in
      Ok {| State := State a2; Cond := Cond a2;
            Ctx := Some {| ctx_id := fresh a2; ctx_cancelled := false |};
            Cancel := Some (fresh a2);
            fresh := S (fresh a2) |}
  end.

(** The number of broadcasts seen so far on the condition variable. *)
Definition broadcast_count (a : AudioState) : nat :=
  match Cond a with
  | Some c => broadcasts c
  | None => 0
  end.

(** The control operations, as a caller can issue them. *)
Inductive Op : Type :=
| OpSetPlay | OpSetPause | OpSetStop | OpCancelCtx | OpRestartSessionCtx
| OpGetState.

Definition exec (op : Op) (a : AudioState) : Result AudioState :=
  match op with
  | OpSetPlay => SetPlay a
  | OpSetPause => SetPause a
  | OpSetStop => SetStop a
  | OpCancelCtx => CancelCtx a
  | OpRestartSessionCtx => RestartSessionCtx a
  | OpGetState => Ok a
  end.

(** States an [AudioState] made by [NewAudioState] can be in. *)
Inductive reachable : AudioState -> Prop :=
| reach_new : reachable NewAudioState
| reach_step op a a' :
    reachable a -> exec op a = Ok a' -> reachable a'.

End Playback.

(** ** encoding/json, as far as [isValidJSON] uses it *)

Module Json.

(** The one service [isValidJSON] asks of Go's encoding/json: does
    [json.Unmarshal(data, &js)] with [js : map[string]interface{}]
    return a nil error? *)
Class Decoder : Type := {
  unmarshal_map_ok : string -> bool
}.

(** A decoder to run the embedding with.  [json.Unmarshal] first checks
    that the input is one JSON text (RFC 8259: a value between optional
    white space) nested no deeper than 10000 objects and arrays, then
    stores it; into a map that succeeds for an object and for the literal
    null, and fails for every other kind of value.  A number inside is
    stored as a float64, which fails when [strconv.ParseFloat] reports it
    out of range. *)

Definition dquote : ascii := "034"%char.
Definition backslash : ascii := "092"%char.

Definition is_digit (c : ascii) : bool :=
  let n := nat_of_ascii c in Nat.leb 48 n && Nat.leb n 57.

Definition is_hex (c : ascii) : bool :=
  let n := nat_of_ascii c in
  is_digit c || (Nat.leb 65 n && Nat.leb n 70)
  || (Nat.leb 97 n && Nat.leb n 102).

Definition is_space (c : ascii) : bool :=
  let n := nat_of_ascii c in
  Nat.eqb n 32 || Nat.eqb n 9 || Nat.eqb n 10 || Nat.eqb n 13.

Fixpoint skip_ws (s : string) : string :=
  match s with
  | String c r => if is_space c then skip_ws r else s
  | EmptyString => s
  end.

Fixpoint skip_digits (s : string) : string :=
  match s with
  | String c r => if is_digit c then skip_digits r else s
  | EmptyString => s
  end.

(** One or more digits. *)
Definition digits1 (s : string) : option string :=
  match s with
  | String c r => if is_digit c then Some (skip_digits r) else None
  | EmptyString => None
  end.

(** The rest of a string literal, after its opening quote. *)
Fixpoint string_tail (s : string) : option string :=
  match s with
  | EmptyString => None
  | String c r =>
      if Ascii.eqb c dquote then Some r
      else if Ascii.eqb c backslash then
        match r with
        | String e r1 =>
            if Ascii.eqb e "u" then
              match r1 with
              | String h1 (String h2 (String h3 (String h4 r2))) =>
                  if is_hex h1 && is_hex h2 && is_hex h3 && is_hex h4
                  then string_tail r2 else None
              | _ => None
              end
            else if existsb (Ascii.eqb e)
                      [dquote; backslash; "/"; "b"; "f"; "n"; "r"; "t"]%char
            then string_tail r1
            else None
        | EmptyString => None
        end
      else if Nat.ltb (nat_of_ascii c) 32 then None
      else string_tail r
  end.

Definition exponent (s : string) : option string :=
  match s with
  | String c r =>
      if Ascii.eqb c "e" || Ascii.eqb c "E" then
        match r with
        | String sg r1 =>
            if Ascii.eqb sg "+" || Ascii.eqb sg "-" then digits1 r1
            else digits1 r
        | EmptyString => None
        end
      else Some s
  | EmptyString => Some s
  end.

Definition fraction (s : string) : option string :=
  match s with
  | String c r =>
      if Ascii.eqb c "." then
        match digits1 r with
        | Some r1 => exponent r1
        | None => None
        end
      else exponent s
  | EmptyString => Some s
  end.

(** The text of a number, after its optional minus sign: what follows
    the number. *)
Definition number_syntax (s : string) : option string :=
  match s with
  | String c r =>
      if Ascii.eqb c "0" then fraction r
      else if is_digit c then fraction (skip_digits r)
      else None
  | EmptyString => None
  end.

(** The digits at the head of [s], read as a decimal number after the
    digits read so far, and how many there are. *)
Fixpoint read_digits (s : string) (acc : Z) (count : Z) : Z * Z * string :=
  match s with
  | String c r =>
      if is_digit c then
        read_digits r (10 * acc + Z.of_nat (nat_of_ascii c - 48))%Z
          (count + 1)%Z
      else (acc, count, s)
  | EmptyString => (acc, count, s)
  end.

(** The exponent part at the head of [s], if there is one. *)
Definition read_exponent (s : string) : Z :=
  match s with
  | String c r =>
      if Ascii.eqb c "e" || Ascii.eqb c "E" then
        match r with
        | String sg r1 =>
            if Ascii.eqb sg "-" then
              let '(e, _, _) := read_digits r1 0%Z 0%Z in (- e)%Z
            else if Ascii.eqb sg "+" then
              let '(e, _, _) := read_digits r1 0%Z 0%Z in e
            else let '(e, _, _) := read_digits r 0%Z 0%Z in e
        | EmptyString => 0%Z
        end
      else 0%Z
  | EmptyString => 0%Z
  end.

(** The least magnitude that rounds to infinity as a float64: half-way
    between the largest float64 and two to the 1024. *)
Definition float64_overflow : Z := (2 ^ 1024 - 2 ^ 970)%Z.

(** Does the number at the head of [s] (after its optional minus sign,
    its syntax checked) round to a finite float64?  Its magnitude is
    [m * 10 ^ e] for the integer [m] that its digits spell. *)
Definition fits_float64 (s : string) : bool :=
  let '(i, ni, r) := read_digits s 0%Z 0%Z in
  let '(m, n, r1) :=
    match r with
    | String c r' =>
        if Ascii.eqb c "." then
          let '(m, n, r1) := read_digits r' i 0%Z in (m, n, r1)
        else (i, 0%Z, r)
    | EmptyString => (i, 0%Z, r)
    end in
  let e := (read_exponent r1 - n)%Z in
  if Z.eqb m 0 then true
  else if Z.leb 0 e then
    if Z.ltb 400 e then false
    else Z.ltb (m * 10 ^ e) float64_overflow
  else
    if Z.ltb (ni + n) (- e) then true
    else Z.ltb m (float64_overflow * 10 ^ (- e)).

(** A number, after its optional minus sign. *)
Definition number_tail (s : string) : option string :=
  match number_syntax s with
  | Some r => if fits_float64 s then Some r else None
  | None => None
  end.

(** [literal w s]: [s] with the prefix [w] removed. *)
Fixpoint literal (w s : string) : option string :=
  match w, s with
  | EmptyString, _ => Some s
  | String a w', String b s' => if Ascii.eqb a b then literal w' s' else None
  | String _ _, EmptyString => None
  end.

(** The deepest nesting of objects and arrays the scanner accepts. *)
Definition maxNestingDepth : N := 10000%N.

(** One JSON value at the head of [s] (after white space); the result is
    what follows it.  [n] bounds the number of values, members and
    elements visited; [depth] is the number of objects and arrays the
    value is inside. *)
Fixpoint value (n : nat) (depth : N) (s : string) : option string :=
  match n with
  | O => None
  | S n' =>
      match skip_ws s with
      | EmptyString => None
      | String c r =>
          if Ascii.eqb c "{" then
            if N.ltb maxNestingDepth (N.succ depth) then None
            else
              match skip_ws r with
              | String c1 r1 =>
                  if Ascii.eqb c1 "}" then Some r1
                  else members n' (N.succ depth) (skip_ws r)
              | EmptyString => None
              end
          else if Ascii.eqb c "[" then
            if N.ltb maxNestingDepth (N.succ depth) then None
            else
              match skip_ws r with
              | String c1 r1 =>
                  if Ascii.eqb c1 "]" then Some r1
                  else elements n' (N.succ depth) (skip_ws r)
              | EmptyString => None
              end
          else if Ascii.eqb c dquote then string_tail r
          else if Ascii.eqb c "-" then number_tail r
          else if is_digit c then number_tail (String c r)
          else if Ascii.eqb c "t" then literal "rue" r
          else if Ascii.eqb c "f" then literal "alse" r
          else if Ascii.eqb c "n" then literal "ull" r
          else None
      end
  end
with members (n : nat) (depth : N) (s : string) : option string :=
  match n with
  | O => None
  | S n' =>
      match skip_ws s with
      | String q r =>
          if Ascii.eqb q dquote then
            match string_tail r with
            | Some r1 =>
                match skip_ws r1 with
                | String colon r2 =>
                    if Ascii.eqb colon ":" then
                      match value n' depth r2 with
                      | Some r3 =>
                          match skip_ws r3 with
                          | String sep r4 =>
                              if Ascii.eqb sep "," then members n' depth r4
                              else if Ascii.eqb sep "}" then Some r4
                              else None
                          | EmptyString => None
                          end
                      | None => None
                      end
                    else None
                | EmptyString => None
                end
            | None => None
            end
          else None
      | EmptyString => None
      end
  end
with elements (n : nat) (depth : N) (s : string) : option string :=
  match n with
  | O => None
  | S n' =>
      match value n' depth s with
      | Some r =>
          match skip_ws r with
          | String sep r1 =>
              if Ascii.eqb sep "," then elements n' depth r1
              else if Ascii.eqb sep "]" then Some r1
              else None
          | EmptyString => None
          end
      | None => None
      end
  end.

(** Is [s] one JSON text that is an object or null? *)
Definition object_or_null (s : string) : bool :=
  match skip_ws s with
  | String c _ =>
      if Ascii.eqb c "{" || Ascii.eqb c "n" then
        match value (S (String.length s)) 0%N s with
        | Some r =>
            match skip_ws r with
            | EmptyString => true
            | String _ _ => false
            end
        | None => false
        end
      else false
  | EmptyString => false
  end.

Definition rfc8259 : Decoder := {| unmarshal_map_ok := object_or_null |}.

End Json.

(** ** Tool-call accumulator (package eino_llm) *)

Module Accumulator.
Import Schema.

Section WithDecoder.
Context {D : Json.Decoder}.

Definition isValidJSON (str : string) : bool := Json.unmarshal_map_ok str.

(** The locals of the goroutine in [EinoResponseWithTools], and what it
    has sent on [responseStreamWriter] (oldest first). *)
Record Worker : Type := {
  currentToolCall : option ToolCall;
  toolCallBuffer : string;
  isToolCallComplete : bool;
  responseStream : list Message
}.

Definition init : Worker :=
  {| currentToolCall := None; toolCallBuffer := "";
     isToolCallComplete := false; responseStream := [] |}.

Definition set_pending (c : option ToolCall) (b : string) (k : bool)
  (w : Worker) : Worker :=
  {| currentToolCall := c; toolCallBuffer := b; isToolCallComplete := k;
     responseStream := responseStream w |}.

(** [responseStreamWriter.Send(m, nil)]; the result is ignored. *)
Definition Send (m : Message) : Go.M Worker unit :=
  Go.modify (fun w =>
    {| currentToolCall := currentToolCall w;
       toolCallBuffer := toolCallBuffer w;
       isToolCallComplete := isToolCallComplete w;
       responseStream := responseStream w ++ [m] |}).

Definition with_Arguments (args : string) (c : ToolCall) : ToolCall :=
  {| ID := ID c; Type_ := Type_ c;
     Function := {| Name := Name (Function c); Arguments := args |} |}.

Definition completeMessage (c : ToolCall) : Message :=
  {| Role := Assistant; Content := ""; ToolCalls := [c] |}.

(** [*currentToolCall]: a nil dereference panics. *)
Definition deref_current : Go.M Worker ToolCall :=
  fun w =>
    match currentToolCall w with
    | Some c => Go.Next c w
    | None => Go.Stop Go.SigPanic w
    end.

(** The body of [if message != nil { ... }]. *)
Definition on_message (message : Message) : Go.M Worker unit :=
  (match ToolCalls message with
   | toolCall :: _ =>
       (if nonempty (Name (Function toolCall)) then
          Go.modify
            (set_pending (Some toolCall) (Arguments (Function toolCall)) false)
        else
          cur <- Go.gets currentToolCall ;;
          match cur with
          | Some c =>
              Go.modify (fun w =>
                let buf := toolCallBuffer w ++ Arguments (Function toolCall) in
                set_pending (Some (with_Arguments buf c)) buf
                  (isToolCallComplete w) w) ;;
              buf <- Go.gets toolCallBuffer ;;
              Go.when (isValidJSON buf)
                (Go.modify (fun w =>
                   set_pending (currentToolCall w) (toolCallBuffer w) true w))
          | None => Go.ret tt
          end) ;;
       complete <- Go.gets isToolCallComplete ;;
       Go.when complete
         (c <- deref_current ;;
          Send (completeMessage c) ;;
          Go.modify (set_pending None "" false))
   | [] =>
       Go.when (nonempty (Content message))
         (Send {| Role := Role message; Content := Content message;
                  ToolCalls := [] |})
   end)%go.

(** One turn of the [for] loop on what [streamReader.Recv()] returned. *)
Definition body (r : RecvResult) : Go.M Worker unit :=
  (let (message, err) := r in
   Go.when (Go.is_EOF err)
     (cur <- Go.gets currentToolCall ;;
      match cur with
      | Some c => Send (completeMessage c)
      | None => Go.ret tt
      end ;;
      Go.stop Go.SigBreak) ;;
   match err with
   | Some _ => Go.stop Go.SigBreak
   | None =>
       match message with
       | Some m => on_message m
       | None => Go.ret tt
       end
   end)%go.

Fixpoint loop (stream : list RecvResult) (w : Worker) : Worker * Go.Status :=
  match stream with
  | [] => (w, Go.Waiting)
  | r :: rest =>
      match body r w with
      | Go.Next _ w' => loop rest w'
      | Go.Stop sig w' => (w', Go.status_of sig)
      end
  end.

(** [EinoResponseWithTools], given what [p.chatModel.Stream] returned (a
    reader, possibly nil, and an error) and what that reader then yields:
    the messages sent on the response stream and how the goroutine ended. *)
Definition EinoResponseWithTools
  (streamReader : option (list RecvResult)) (err : option Go.error)
  : list Message * Go.Status :=
  match err, streamReader with
  | Some _, _ => ([], Go.Closed)
  | None, None => ([], Go.Closed)
  | None, Some stream =>
      let (w, st) := loop stream init in (responseStream w, st)
  end.

(** A delta cut down to the first of its tool-call fragments. *)
Definition first_fragment_only (r : RecvResult) : RecvResult :=
  match r with
  | (Some m, err) =>
      (Some {| Role := Role m; Content := Content m;
               ToolCalls := firstn 1 (ToolCalls m) |}, err)
  | (None, err) => (None, err)
  end.

End WithDecoder.

(** A delta, received without error, that carries one tool-call
    fragment. *)
Definition fragment (role : RoleType) (content id ty name args : string)
  : RecvResult :=
  (Some {| Role := role; Content := content;
           ToolCalls := [ {| ID := id; Type_ := ty;
                             Function := {| Name := name;
                                            Arguments := args |} |} ] |},
   None).

(** The argument text of the two fragments of the round-trip example: an
    opening brace, the key a between double quotes and a colon; then the
    digit one and a closing brace. *)
Definition args_head : string :=
  Eval cbv in ("{" ++ String Json.dquote ("a" ++ String Json.dquote ":")).
Definition args_tail : string := "1}".
Definition args_whole : string := Eval cbv in (args_head ++ args_tail).

End Accumulator.

(** ** Response pipeline controller (package llm) *)

Module Controller.
Import Schema.

Record LLMResponseStruct : Type := {
  Text : string;
  IsStart : bool;
  IsEnd : bool;
  ToolCalls : list ToolCall
}.

(** The two functions of package internal/util/sentence that the
    controller calls.  Their source is not part of this development; the
    controller is embedded over any implementation of them. *)
Class Segmenter : Type := {
  ContainsSentenceSeparator : string -> bool -> bool;
  ExtractSmartSentences : string -> Z -> Z -> bool -> list string * string
}.

(** The variables captured by the goroutine, the events sent on
    [sentenceChannel] so far (oldest first), and how many times the
    goroutine has looked at [ctx.Done()]. *)
Record Worker : Type := {
  fullText : string;
  buffer : string;
  isFirst : bool;
  firstFrame : bool;
  sentenceChannel : list LLMResponseStruct;
  selects : nat
}.

Definition init : Worker :=
  {| fullText := ""; buffer := ""; isFirst := true; firstFrame := false;
     sentenceChannel := []; selects := 0 |}.

Definition set_fullText (s : string) (w : Worker) : Worker :=
  {| fullText := s; buffer := buffer w; isFirst := isFirst w;
     firstFrame := firstFrame w; sentenceChannel := sentenceChannel w;
     selects := selects w |}.

Definition set_buffer (s : string) (w : Worker) : Worker :=
  {| fullText := fullText w; buffer := s; isFirst := isFirst w;
     firstFrame := firstFrame w; sentenceChannel := sentenceChannel w;
     selects := selects w |}.

Definition set_isFirst (b : bool) (w : Worker) : Worker :=
  {| fullText := fullText w; buffer := buffer w; isFirst := b;
     firstFrame := firstFrame w; sentenceChannel := sentenceChannel w;
     selects := selects w |}.

Definition set_firstFrame (b : bool) (w : Worker) : Worker :=
  {| fullText := fullText w; buffer := buffer w; isFirst := isFirst w;
     firstFrame := b; sentenceChannel := sentenceChannel w;
     selects := selects w |}.

Definition looked (w : Worker) : Worker :=
  {| fullText := fullText w; buffer := buffer w; isFirst := isFirst w;
     firstFrame := firstFrame w; sentenceChannel := sentenceChannel w;
     selects := S (selects w) |}.

Definition pushed (ev : LLMResponseStruct) (w : Worker) : Worker :=
  {| fullText := fullText w; buffer := buffer w; isFirst := isFirst w;
     firstFrame := firstFrame w;
     sentenceChannel := sentenceChannel w ++ [ev];
     selects := selects w |}.

Section WithEnvironment.
Context {Seg : Segmenter}.
Variable ctx : Go.Ctx.

(** [select { case <-ctx.Done(): return; default: }] *)
Definition select_default : Go.M Worker unit :=
  fun w =>
    if ctx (selects w) then Go.Stop Go.SigReturn (looked w)
    else Go.Next tt (looked w).

(** [select { case <-ctx.Done(): return; case sentenceChannel <- ev: }] *)
Definition select_send (ev : LLMResponseStruct) : Go.M Worker unit :=
  fun w =>
    if ctx (selects w) then Go.Stop Go.SigReturn (looked w)
    else Go.Next tt (pushed ev (looked w)).

(** The [if err == io.EOF { ... return }] branch. *)
Definition on_EOF : Go.M Worker unit :=
  (remaining <- Go.gets buffer ;;
   (if nonempty remaining then
      Go.modify (fun w => set_fullText (fullText w ++ remaining) w) ;;
      select_send {| Text := remaining; IsStart := false; IsEnd := true;
                     ToolCalls := [] |}
    else
      select_send {| Text := ""; IsStart := false; IsEnd := true;
                     ToolCalls := [] |}) ;;
   Go.stop Go.SigReturn)%go.

(** The body of [for _, sentence := range sentences { ... }]. *)
Definition send_sentence (sentence : string) : Go.M Worker unit :=
  (Go.when (nonempty sentence)
     (ff <- Go.gets firstFrame ;;
      Go.when (negb ff) (Go.modify (set_firstFrame true)) ;;
      first <- Go.gets isFirst ;;
      select_send {| Text := sentence; IsStart := first; IsEnd := false;
                     ToolCalls := [] |} ;;
      first' <- Go.gets isFirst ;;
      Go.when first' (Go.modify (set_isFirst false))))%go.

(** [for _, sentence := range sentences { ... }] *)
Fixpoint send_sentences (sentences : list string) : Go.M Worker unit :=
  match sentences with
  | [] => Go.ret tt
  | sentence :: rest => (send_sentence sentence ;; send_sentences rest)%go
  end.

(** The body of [if message.Content != "" { ... }]. *)
Definition on_content (content : string) : Go.M Worker unit :=
  (Go.modify (fun w => set_fullText (fullText w ++ content) w) ;;
   Go.modify (fun w => set_buffer (buffer w ++ content) w) ;;
   first <- Go.gets isFirst ;;
   Go.when (ContainsSentenceSeparator content first)
     (buf <- Go.gets buffer ;;
      first1 <- Go.gets isFirst ;;
      let (sentences, remaining) :=
        ExtractSmartSentences buf 2%Z 100%Z first1 in
      Go.when (Nat.ltb 0 (List.length sentences))
        (send_sentences sentences) ;;
      Go.modify (set_buffer "") ;;
      Go.modify (fun w => set_buffer (buffer w ++ remaining) w) ;;
      first2 <- Go.gets isFirst ;;
      Go.when first2 (Go.modify (set_isFirst false))))%go.

(** The body of [if message.ToolCalls != nil && len(...) > 0 { ... }]. *)
Definition on_tool_calls (calls : list ToolCall) : Go.M Worker unit :=
  (first <- Go.gets isFirst ;;
   select_send {| Text := ""; IsStart := first; IsEnd := false;
                  ToolCalls := calls |})%go.

(** One turn of the [for] loop, from what [llmStreamReader.Recv()]
    returned on. *)
Definition body (r : RecvResult) : Go.M Worker unit :=
  (let (message, err) := r in
   Go.when (Go.is_EOF err) on_EOF ;;
   match message with
   | None => Go.stop Go.SigBreak
   | Some m =>
       Go.when (nonempty (Content m)) (on_content (Content m)) ;;
       Go.when (Nat.ltb 0 (List.length (Schema.ToolCalls m)))
         (on_tool_calls (Schema.ToolCalls m))
   end)%go.

(** The goroutine on a finite history of [Recv] results. *)
Fixpoint loop (stream : list RecvResult) (w : Worker) : Worker * Go.Status :=
  match select_default w with
  | Go.Stop sig w' => (w', Go.status_of sig)
  | Go.Next _ w1 =>
      match stream with
      | [] => (w1, Go.Waiting)
      | r :: rest =>
          match body r w1 with
          | Go.Stop sig w2 => (w2, Go.status_of sig)
          | Go.Next _ w2 => loop rest w2
          end
      end
  end.

(** The events a consumer of [sentenceChannel] sees and whether the
    channel has been closed. *)
Definition worker (stream : list RecvResult)
  : list LLMResponseStruct * Go.Status :=
  let (w, st) := loop stream init in (sentenceChannel w, st).

(** [HandleLLMWithContextAndTools], given what [llmProvider.WithTools] and
    [llmProvider.Stream] return: an error and no channel, or the channel
    fed by the goroutine. *)
Definition HandleLLMWithContextAndTools
  (withToolsErr : option Go.error)
  (streamResult : list RecvResult * option Go.error)
  : option (list LLMResponseStruct * Go.Status) * option Go.error :=
  match withToolsErr with
  | Some e => (None, Some e)
  | None =>
      match streamResult with
      | (_, Some e) => (None, Some e)
      | (stream, None) => (Some (worker stream), None)
      end
  end.

End WithEnvironment.

(** A sentence event: text, and not the end marker. *)
Definition is_sentence (ev : LLMResponseStruct) : bool :=
  nonempty (Text ev) && negb (IsEnd ev).

(** The sentence events among [evs], in order. *)
Definition sentences (evs : list LLMResponseStruct) : list LLMResponseStruct :=
  filter is_sentence evs.

(** No event of [evs] carries the first-sentence flag. *)
Definition unflagged (evs : list LLMResponseStruct) : Prop :=
  Forall (fun ev => IsStart ev = false) evs.

(** Every event of [evs] after the first is without the flag. *)
Definition later_unflagged (evs : list LLMResponseStruct) : Prop :=
  match evs with
  | [] => True
  | _ :: later => unflagged later
  end.

(** The first event of [evs], if there is one, carries the flag. *)
Definition head_flagged (evs : list LLMResponseStruct) : Prop :=
  match evs with
  | [] => True
  | ev :: _ => IsStart ev = true
  end.

(** No event of [evs] is an end marker. *)
Definition not_end (evs : list LLMResponseStruct) : Prop :=
  Forall (fun ev => IsEnd ev = false) evs.

(** The end marker that closes a response whose buffered remainder is
    [remaining]. *)
Definition end_marker (remaining : string) : LLMResponseStruct :=
  {| Text := remaining; IsStart := false; IsEnd := true; ToolCalls := [] |}.

(** The state a statement leaves, however it ends. *)
Definition state_of {A : Type} (o : Go.Outcome Worker A) : Worker :=
  match o with
  | Go.Next _ w => w
  | Go.Stop _ w => w
  end.

Definition is_next {A : Type} (o : Go.Outcome Worker A) : bool :=
  match o with
  | Go.Next _ _ => true
  | Go.Stop _ _ => false
  end.

(** What a stretch of the goroutine that sends no end marker does to the
    channel and to [isFirst]: it sends [evs]. *)
Record sends_ (w w' : Worker) (evs : list LLMResponseStruct) : Prop := {
  sent_channel : sentenceChannel w' = (sentenceChannel w ++ evs)%list;
  sent_not_end : not_end evs;
  sent_flag_off : isFirst w = false -> isFirst w' = false /\ unflagged evs;
  sent_later : later_unflagged (sentences evs);
  sent_clears : sentences evs <> [] -> isFirst w' = false
}.

(** Does this [Recv] result make the controller call the Segmenter, when
    the first-call flag is [first]? *)
Definition invokes {Seg : Segmenter} (first : bool) (r : RecvResult) : bool :=
  match r with
  | (Some m, _) =>
      nonempty (Content m) && ContainsSentenceSeparator (Content m) first
  | (None, _) => false
  end.

(** The claim that exactly the first sentence event carries the flag, on
    the list of sentence events of a run. *)
Definition first_flagged_only (evs : list LLMResponseStruct) : Prop :=
  match evs with
  | [] => True
  | ev :: later => IsStart ev = true /\ unflagged later
  end.

(** A text delta received without error. *)
Definition delta (content : string) : RecvResult :=
  (Some {| Role := Assistant; Content := content; Schema.ToolCalls := [] |},
   None).

(** The end of the upstream stream. *)
Definition EOF : RecvResult := (None, Some Go.io_EOF).

(** A Segmenter that loses no text, to run the controller with; it is
    not the repository's, and what the specification says of that one is
    in [Sentence].  The full stop is its only boundary character;
    scanning left to right, it closes a candidate at a full stop when the
    candidate has at least [minLen] characters, and what follows the last
    closed candidate is the remainder.  It uses neither the first-call
    flag nor [maxLen]. *)
Fixpoint has_stop (s : string) : bool :=
  match s with
  | EmptyString => false
  | String c r => Ascii.eqb c "." || has_stop r
  end.

Fixpoint split_at_stops (minLen : nat) (candidate s : string)
  : list string * string :=
  match s with
  | EmptyString => ([], candidate)
  | String c r =>
      let candidate' := (candidate ++ String c "")%string in
      if Ascii.eqb c "." && Nat.leb minLen (String.length candidate') then
        let (sentences, remaining) := split_at_stops minLen "" r in
        (candidate' :: sentences, remaining)
      else split_at_stops minLen candidate' r
  end.

Definition strict_segmenter : Segmenter :=
  {| ContainsSentenceSeparator := fun s _ => has_stop s;
     ExtractSmartSentences := fun s minLen _ _ =>
       split_at_stops (Z.to_nat minLen) "" s |}.

(** A [Recv] result that is not the end of the stream and carries a
    message. *)
Definition is_item (r : RecvResult) : bool :=
  match r with
  | (Some _, err) => negb (Go.is_EOF err)
  | (None, _) => false
  end.

(** A delta that does not make the controller call the Segmenter while
    [isFirst] is set. *)
Definition quiet_item {Seg : Segmenter} (r : RecvResult) : Prop :=
  is_item r = true /\ invokes true r = false.

End Controller.

(** ** TTS options (package types) *)

Module Types.
Section WithWorld.

(** What the callbacks act on (metrics, telemetry): any type. *)
Variable World : Type.

Definition TtsChunkStartCallback : Type := World -> World.
Definition TtsChunkEndCallback : Type := World -> World.

Record Options : Type := {
  SampleRate : Z;
  Channel : Z;
  FrameDuration : Z;
  ChunkStartCallback : option TtsChunkStartCallback;
  ChunkEndCallback : option TtsChunkEndCallback
}.

(** An [Option]'s [apply] field; [None] is a nil func. *)
Record Option_ : Type := { apply : option (Options -> Options) }.

Definition WithTtsChunkStartCallback (callback : TtsChunkStartCallback)
  : Option_ :=
  {| apply := Some (fun opts =>
       {| SampleRate := SampleRate opts; Channel := Channel opts;
          FrameDuration := FrameDuration opts;
          ChunkStartCallback := Some callback;
          ChunkEndCallback := ChunkEndCallback opts |}) |}.

Definition WithTtsChunkEndCallback (callback : TtsChunkEndCallback)
  : Option_ :=
  {| apply := Some (fun opts =>
       {| SampleRate := SampleRate opts; Channel := Channel opts;
          FrameDuration := FrameDuration opts;
          ChunkStartCallback := ChunkStartCallback opts;
          ChunkEndCallback := Some callback |}) |}.

(** The zero value [var baseOptions types.Options]. *)
Definition baseOptions : Options :=
  {| SampleRate := 0; Channel := 0; FrameDuration := 0;
     ChunkStartCallback := None; ChunkEndCallback := None |}.

(** [GetImplSpecificOptions(&base, opts...)] at [T = Options]. *)
Definition GetImplSpecificOptions (base : Options) (opts : list Option_)
  : Options :=
  fold_left
    (fun b opt => match apply opt with Some f => f b | None => b end)
    opts base.

End WithWorld.
End Types.

Arguments Types.SampleRate {World} _.
Arguments Types.Channel {World} _.
Arguments Types.FrameDuration {World} _.
Arguments Types.ChunkStartCallback {World} _.
Arguments Types.ChunkEndCallback {World} _.
Arguments Types.WithTtsChunkStartCallback {World} _.
Arguments Types.WithTtsChunkEndCallback {World} _.
Arguments Types.GetImplSpecificOptions {World} _ _.
Arguments Types.baseOptions {World}.

(** ** TTS fan-out adapter (package tts) *)

Module FanOut.
Import Schema.

Definition Frame : Type := list Byte.byte.

Record TtsChunk : Type := {
  Text : string;
  Data : Frame   (* [[]] stands for a nil slice *)
}.

(** [BaseTTSProvider].  [TextToSpeech] returns the frames and an error;
    [TextToSpeechStream] returns the output channel, given by the frames
    it yields before it is closed ([None]: a nil channel), and an error.
    The arguments are the text, the sample rate, the channels and the
    frame duration. *)
Class BaseTTSProvider : Type := {
  TextToSpeech : string -> Z -> Z -> Z -> list Frame * option Go.error;
  TextToSpeechStream :
    string -> Z -> Z -> Z -> option (list Frame) * option Go.error
}.

(** What a callback field does to the world when the adapter comes to
    [if cb != nil { cb() }]: nothing when it is nil. *)
Definition fire {World : Type} (cb : option (World -> World)) (x : World)
  : World :=
  match cb with
  | Some f => f x
  | None => x
  end.

(** [ContextTTSAdapter.Invoke]: the frames and error returned, and what
    the callbacks have done. *)
Definition Invoke {World : Type} {Provider : BaseTTSProvider}
  (text : string) (opts : list (Types.Option_ World)) (w0 : World)
  : (list Frame * option Go.error) * World :=
  let options := Types.GetImplSpecificOptions Types.baseOptions opts in
  let w1 := fire (Types.ChunkStartCallback options) w0 in
  match TextToSpeech text (Types.SampleRate options) (Types.Channel options)
          (Types.FrameDuration options) with
  | (_, Some err) =>
      (([], Some (Go.Errorf "获取 Opus 帧失败: " err)),
       fire (Types.ChunkEndCallback options) w1)
  | (opusFrames, None) =>
      ((opusFrames, None), fire (Types.ChunkEndCallback options) w1)
  end.

(** One per-sentence stream made by [schema.Pipe]: what has been written
    to it and whether its writer was closed. *)
Record Pipe : Type := {
  chunks : list TtsChunk;
  closed : bool
}.

Section WithWorld.
Variable World : Type.

(** The goroutine's view: every audio pipe made so far (a pipe is named
    by its position), the pipes sent on the outer stream (oldest first),
    what the callbacks have done, and the counts of looks at [ctx.Done()]
    and of [Send] calls. *)
Record Worker : Type := {
  pipes : list Pipe;
  sentenceStream : list nat;
  world : World;
  selects : nat;
  sends : nat
}.

Definition init (w0 : World) : Worker :=
  {| pipes := []; sentenceStream := []; world := w0; selects := 0;
     sends := 0 |}.

Definition set_pipes (ps : list Pipe) (w : Worker) : Worker :=
  {| pipes := ps; sentenceStream := sentenceStream w; world := world w;
     selects := selects w; sends := sends w |}.

Fixpoint update_nth {A : Type} (n : nat) (f : A -> A) (l : list A) : list A :=
  match l, n with
  | [], _ => []
  | x :: l', O => f x :: l'
  | x :: l', S n' => x :: update_nth n' f l'
  end.

Section WithEnvironment.
Context {Provider : BaseTTSProvider}.
Variable options : Types.Options World.
Variable ctx : Go.Ctx.

(** Does the n-th [Send] of the goroutine find its stream closed by the
    receiving side? *)
Variable gone : nat -> bool.

(** [if cb != nil { cb() }] *)
Definition call (cb : option (World -> World)) : Go.M Worker unit :=
  match cb with
  | Some f =>
      Go.modify (fun w =>
        {| pipes := pipes w; sentenceStream := sentenceStream w;
           world := f (world w); selects := selects w; sends := sends w |})
  | None => Go.ret tt
  end.

(** [select { case <-ctx.Done(): ...; default: }]: was it cancelled? *)
Definition cancelled : Go.M Worker bool :=
  fun w =>
    Go.Next (ctx (selects w))
      {| pipes := pipes w; sentenceStream := sentenceStream w;
         world := world w; selects := S (selects w); sends := sends w |}.

(** [schema.Pipe[types.TtsChunk](100)] *)
Definition new_pipe : Go.M Worker nat :=
  fun w =>
    Go.Next (List.length (pipes w))
      (set_pipes (pipes w ++ [ {| chunks := []; closed := false |} ]) w).

(** A [Send] call: the oracle's answer, counted. *)
Definition send_closed : Go.M Worker bool :=
  fun w =>
    Go.Next (gone (sends w))
      {| pipes := pipes w; sentenceStream := sentenceStream w;
         world := world w; selects := selects w; sends := S (sends w) |}.

(** [sentenceStreamWriter.Send(audioStreamReader, nil)] *)
Definition send_outer (id : nat) : Go.M Worker bool :=
  (c <- send_closed ;;
   Go.when (negb c)
     (Go.modify (fun w =>
        {| pipes := pipes w; sentenceStream := sentenceStream w ++ [id];
           world := world w; selects := selects w; sends := sends w |})) ;;
   Go.ret c)%go.

(** [audioStreamWriter.Send(chunk, nil)] *)
Definition send_chunk (id : nat) (chunk : TtsChunk) : Go.M Worker bool :=
  (c <- send_closed ;;
   Go.when (negb c)
     (Go.modify (fun w =>
        set_pipes
          (update_nth id
             (fun p => {| chunks := chunks p ++ [chunk];
                          closed := closed p |})
             (pipes w)) w)) ;;
   Go.ret c)%go.

(** [audioStreamWriter.Close()] *)
Definition close (id : nat) : Go.M Worker unit :=
  Go.modify (fun w =>
    set_pipes
      (update_nth id (fun p => {| chunks := chunks p; closed := true |})
         (pipes w)) w).

(** [for frame := range outputChan { ... }] *)
Fixpoint relay (id : nat) (frames : list Frame) : Go.M Worker unit :=
  match frames with
  | [] => Go.ret tt
  | frame :: rest =>
      (done <- cancelled ;;
       Go.when done (close id ;; Go.stop Go.SigReturn) ;;
       c <- send_chunk id {| Text := ""; Data := frame |} ;;
       Go.when c (close id ;; Go.stop Go.SigReturn) ;;
       relay id rest)%go
  end.

(** One turn of the outer [for] loop, from what [input.Recv()] returned
    on. *)
Definition body (r : RecvResult) : Go.M Worker unit :=
  (let (message, err) := r in
   match err with
   | Some _ => Go.stop Go.SigReturn
   | None => Go.ret tt
   end ;;
   call (Types.ChunkStartCallback options) ;;
   id <- new_pipe ;;
   c <- send_outer id ;;
   Go.when c (close id ;; Go.stop Go.SigReturn) ;;
   match message with
   | None => Go.stop Go.SigPanic   (* [message.Content] on a nil pointer *)
   | Some m =>
       let msgContent := Content m in
       c1 <- send_chunk id {| Text := msgContent; Data := [] |} ;;
       Go.when c1 (close id ;; Go.stop Go.SigReturn) ;;
       match TextToSpeechStream msgContent (Types.SampleRate options)
               (Types.Channel options) (Types.FrameDuration options) with
       | (_, Some _) => close id ;; Go.stop Go.SigReturn
       | (None, None) => Go.stop Go.SigBlock   (* range over a nil channel *)
       | (Some frames, None) =>
           relay id frames ;;
           close id ;;
           call (Types.ChunkEndCallback options)
       end
   end)%go.

(** The goroutine on a finite history of [Recv] results. *)
Fixpoint loop (input : list RecvResult) (w : Worker) : Worker * Go.Status :=
  match cancelled w with
  | Go.Stop sig w' => (w', Go.status_of sig)
  | Go.Next true w1 => (w1, Go.Closed)
  | Go.Next false w1 =>
      match input with
      | [] => (w1, Go.Waiting)
      | r :: rest =>
          match body r w1 with
          | Go.Stop sig w2 => (w2, Go.status_of sig)
          | Go.Next _ w2 => loop rest w2
          end
      end
  end.

End WithEnvironment.

(** [ContextTTSAdapter.Transform]: the goroutine's final view and how it
    ended.  The outer stream is closed when the goroutine has ended. *)
Definition Transform {Provider : BaseTTSProvider} (ctx : Go.Ctx)
  (gone : nat -> bool) (input : list RecvResult)
  (opts : list (Types.Option_ World)) (w0 : World) : Worker * Go.Status :=
  let options := Types.GetImplSpecificOptions Types.baseOptions opts in
  loop options ctx gone input (init w0).

(** The sub-streams a consumer of the outer stream receives, in order. *)
Definition sub_streams (w : Worker) : list Pipe :=
  map (fun id => nth id (pipes w) {| chunks := []; closed := false |})
    (sentenceStream w).

End WithWorld.

Arguments pipes {World} _.
Arguments sentenceStream {World} _.
Arguments world {World} _.
Arguments sub_streams {World} _.
Arguments Transform {World Provider} ctx gone input opts w0.

(** Metrics kept by instrumented callbacks. *)
Record Meter : Type := { started : nat; ended : nat }.

Definition onStart (m : Meter) : Meter :=
  {| started := S (started m); ended := ended m |}.

Definition onEnd (m : Meter) : Meter :=
  {| started := started m; ended := S (ended m) |}.

(** The reader keeps every stream open. *)
Definition attentive : nat -> bool := fun _ => false.

(** The frames the backend yields for a message, if it yields any. *)
Definition frames_of {World : Type} {Provider : BaseTTSProvider}
  (options : Types.Options World) (m : Message) : list Frame :=
  match fst (TextToSpeechStream (Content m) (Types.SampleRate options)
               (Types.Channel options) (Types.FrameDuration options)) with
  | Some frames => frames
  | None => []
  end.

(** Synthesis of this message's text succeeds. *)
Definition synthesised {World : Type} {Provider : BaseTTSProvider}
  (options : Types.Options World) (m : Message) : Prop :=
  exists frames,
    TextToSpeechStream (Content m) (Types.SampleRate options)
      (Types.Channel options) (Types.FrameDuration options)
    = (Some frames, None).

(** Synthesis of this message's text returns an error. *)
Definition synthesis_fails {World : Type} {Provider : BaseTTSProvider}
  (options : Types.Options World) (m : Message) : Prop :=
  exists chan e,
    TextToSpeechStream (Content m) (Types.SampleRate options)
      (Types.Channel options) (Types.FrameDuration options)
    = (chan, Some e).

(** A message received without error. *)
Definition received (m : Message) : RecvResult := (Some m, None).

(** What the callbacks have done to the world after [n] sentences that
    each had the start callback and then the end callback. *)
Fixpoint after_sentences {World : Type} (options : Types.Options World)
  (n : nat) (x : World) : World :=
  match n with
  | O => x
  | S n' =>
      after_sentences options n'
        (fire (Types.ChunkEndCallback options)
           (fire (Types.ChunkStartCallback options) x))
  end.

(** The options of a caller that meters sentences. *)
Definition metered : list (Types.Option_ Meter) :=
  [Types.WithTtsChunkStartCallback onStart;
   Types.WithTtsChunkEndCallback onEnd].

(** A backend to run the adapter with: it fails on the text two and
    yields two one-byte frames for any other text. *)
Definition fails_on_two : BaseTTSProvider :=
  {| TextToSpeech := fun text _ _ _ =>
       if String.eqb text "two"
       then ([], Some (Go.errors_New "synthesis failed"))
       else ([[Byte.x01]; [Byte.x02]], None);
     TextToSpeechStream := fun text _ _ _ =>
       if String.eqb text "two"
       then (None, Some (Go.errors_New "synthesis failed"))
       else (Some [[Byte.x01]; [Byte.x02]], None) |}.

(** A sentence event received without error. *)
Definition sentence (text : string) : RecvResult :=
  (Some {| Role := Assistant; Content := text; ToolCalls := [] |}, None).

(** The chunk that relays one frame. *)
Definition frame_chunk (f : Frame) : TtsChunk := {| Text := ""; Data := f |}.

(** The sub-stream of a sentence synthesised to the end: the label chunk,
    then one chunk per frame, then closed. *)
Definition whole (text : string) (frames : list Frame) : Pipe :=
  {| chunks := {| Text := text; Data := [] |} :: map frame_chunk frames;
     closed := true |}.

(** The sub-stream of a sentence whose synthesis failed at once. *)
Definition label_only (text : string) : Pipe :=
  {| chunks := [ {| Text := text; Data := [] |} ]; closed := true |}.

End FanOut.

(** ** Further definitions: playback *)

Module PlaybackSpec.
Import Playback.

(** The [State] field holds one of the three constants. *)
Definition known_state (a : AudioState) : Prop :=
  State a = AudioChannelStateIdle
  \/ State a = AudioChannelStatePlaying
  \/ State a = AudioChannelStatePause.

(** Both pointers a method may dereference are set. *)
Definition ready (a : AudioState) : Prop :=
  Cond a <> None /\ Cancel a <> None.

(** The held context has been cancelled. *)
Definition session_cancelled (a : AudioState) : Prop :=
  exists id, Ctx a = Some {| ctx_id := id; ctx_cancelled := true |}.

(** A sequence of control operations, stopping at the first panic. *)
Fixpoint exec_all (ops : list Op) (a : AudioState) : Result AudioState :=
  match ops with
  | [] => Ok a
  | op :: rest =>
      match exec op a with
      | Ok a' => exec_all rest a'
      | Panic => Panic
      end
  end.

End PlaybackSpec.

(** ** Further definitions: tool-call accumulator *)

Module AccumulatorSpec.
Import Schema Accumulator.

(** A message the accumulator may send: a text message (content, no tool
    calls) or a completed call (one tool call with a name, no content). *)
Definition emitted_ok (m : Message) : Prop :=
  (ToolCalls m = [] /\ nonempty (Content m) = true)
  \/ (exists c, m = completeMessage c
                /\ nonempty (Name (Function c)) = true).

(** The goroutine's state between two turns of its loop: the completion
    flag is down and a pending call has a name. *)
Definition between_turns (w : Worker) : Prop :=
  isToolCallComplete w = false
  /\ forall c, currentToolCall w = Some c ->
               nonempty (Name (Function c)) = true.

(** Joined to [buf] one after the other, the argument texts never make
    text the decoder accepts. *)
Fixpoint never_valid {D : Json.Decoder} (buf : string) (args : list string)
  : Prop :=
  match args with
  | [] => True
  | a :: rest =>
      isValidJSON (buf ++ a) = false /\ never_valid (buf ++ a) rest
  end.

(** An unnamed fragment that continues the pending call. *)
Definition continuation (args : string) : RecvResult :=
  fragment Assistant "" "" "" "" args.

(** A decoder that accepts nothing. *)
Definition rejects_all : Json.Decoder :=
  {| Json.unmarshal_map_ok := fun _ => false |}.

End AccumulatorSpec.

(** ** Further definitions: invariants of goroutine statements *)

Module GoLogic.

(** Statement [m] keeps the invariant [I] when it falls through and
    establishes [J] when it stops. *)
Definition keeps {S A : Type} (I J : S -> Prop) (m : Go.M S A) : Prop :=
  forall s, I s ->
    match m s with
    | Go.Next _ s' => I s'
    | Go.Stop _ s' => J s'
    end.

(** From a state in [P], statement [m] falls through with a result and a
    state in [Q], or stops with a signal and a state in [J]. *)
Definition triple {S A : Type} (P : S -> Prop) (m : Go.M S A)
  (Q : A -> S -> Prop) (J : Go.Signal -> S -> Prop) : Prop :=
  forall s, P s ->
    match m s with
    | Go.Next a s' => Q a s'
    | Go.Stop sig s' => J sig s'
    end.

End GoLogic.

(** ** Further definitions: the sentence handler of package stream_sentence *)

Module StreamSentence.
Import Schema.

(** What has been written to the output stream: each [Send(msg, err)]. *)
Definition Sent : Type := (Message * option Go.error)%type.

(** The variables captured by the goroutine, what it has sent on
    [outputStreamWriter] (oldest first), and how many times it has looked
    at [ctx.Done()]. *)
Record Worker : Type := {
  fullText : string;
  buffer : string;
  isFirst : bool;
  firstFrame : bool;
  output : list Sent;
  selects : nat
}.

Definition init : Worker :=
  {| fullText := ""; buffer := ""; isFirst := true; firstFrame := false;
     output := []; selects := 0 |}.

Definition set_fullText (s : string) (w : Worker) : Worker :=
  {| fullText := s; buffer := buffer w; isFirst := isFirst w;
     firstFrame := firstFrame w; output := output w; selects := selects w |}.

Definition set_buffer (s : string) (w : Worker) : Worker :=
  {| fullText := fullText w; buffer := s; isFirst := isFirst w;
     firstFrame := firstFrame w; output := output w; selects := selects w |}.

Definition set_isFirst (b : bool) (w : Worker) : Worker :=
  {| fullText := fullText w; buffer := buffer w; isFirst := b;
     firstFrame := firstFrame w; output := output w; selects := selects w |}.

Definition set_firstFrame (b : bool) (w : Worker) : Worker :=
  {| fullText := fullText w; buffer := buffer w; isFirst := isFirst w;
     firstFrame := b; output := output w; selects := selects w |}.

Section WithEnvironment.
Context {Seg : Controller.Segmenter}.
Variable ctx : Go.Ctx.

(** [select { case <-ctx.Done(): return; default: }] *)
Definition select_default : Go.M Worker unit :=
  fun w =>
    let w' := {| fullText := fullText w; buffer := buffer w;
                 isFirst := isFirst w; firstFrame := firstFrame w;
                 output := output w; selects := S (selects w) |} in
    if ctx (selects w) then Go.Stop Go.SigReturn w' else Go.Next tt w'.

(** [outputStreamWriter.Send(msg, err)]; the result is ignored. *)
Definition Send (msg : Message) (err : option Go.error) : Go.M Worker unit :=
  Go.modify (fun w =>
    {| fullText := fullText w; buffer := buffer w; isFirst := isFirst w;
       firstFrame := firstFrame w; output := output w ++ [(msg, err)];
       selects := selects w |}).

(** The [if err != nil { ... return }] branch. *)
Definition on_error (err : Go.error) : Go.M Worker unit :=
  ((if Go.is_EOF (Some err) then
     remaining <- Go.gets buffer ;;
     (if nonempty remaining then
        Go.modify (fun w => set_fullText (fullText w ++ remaining) w) ;;
        Send {| Role := Assistant; Content := remaining; ToolCalls := [] |}
          None
      else
        Send {| Role := Assistant; Content := ""; ToolCalls := [] |} None)
   else
     Send {| Role := Assistant; Content := ""; ToolCalls := [] |} (Some err)) ;;
  Go.stop Go.SigReturn)%go.

(** The body of [for _, sentence := range sentences { ... }]. *)
Definition send_sentence (sentence : string) : Go.M Worker unit :=
  (Go.when (nonempty sentence)
     (ff <- Go.gets firstFrame ;;
      Go.when (negb ff) (Go.modify (set_firstFrame true)) ;;
      Send {| Role := Assistant; Content := sentence; ToolCalls := [] |}
        None ;;
      first <- Go.gets isFirst ;;
      Go.when first (Go.modify (set_isFirst false))))%go.

Fixpoint send_sentences (sentences : list string) : Go.M Worker unit :=
  match sentences with
  | [] => Go.ret tt
  | sentence :: rest => (send_sentence sentence ;; send_sentences rest)%go
  end.

(** The body of [if message.Content != "" { ... }]. *)
Definition on_content (content : string) : Go.M Worker unit :=
  (Go.modify (fun w => set_fullText (fullText w ++ content) w) ;;
   Go.modify (fun w => set_buffer (buffer w ++ content) w) ;;
   first <- Go.gets isFirst ;;
   Go.when (Controller.ContainsSentenceSeparator content first)
     (buf <- Go.gets buffer ;;
      first1 <- Go.gets isFirst ;;
      let (sentences, remaining) :=
        Controller.ExtractSmartSentences buf 2%Z 100%Z first1 in
      Go.when (Nat.ltb 0 (List.length sentences))
        (send_sentences sentences) ;;
      Go.modify (set_buffer "") ;;
      Go.modify (fun w => set_buffer (buffer w ++ remaining) w) ;;
      first2 <- Go.gets isFirst ;;
      Go.when first2 (Go.modify (set_isFirst false))))%go.

(** One turn of the [for] loop, from what [input.Recv()] returned on. *)
Definition body (r : RecvResult) : Go.M Worker unit :=
  (let (message, err) := r in
   match err with
   | Some e => on_error e
   | None => Go.ret tt
   end ;;
   match message with
   | None => Go.stop Go.SigBreak
   | Some m =>
       Go.when (nonempty (Content m)) (on_content (Content m)) ;;
       Go.when (Nat.ltb 0 (List.length (ToolCalls m)))
         (Send {| Role := Assistant; Content := "";
                  ToolCalls := ToolCalls m |} None)
   end)%go.

(** The goroutine on a finite history of [Recv] results. *)
Fixpoint loop (stream : list RecvResult) (w : Worker) : Worker * Go.Status :=
  match select_default w with
  | Go.Stop sig w' => (w', Go.status_of sig)
  | Go.Next _ w1 =>
      match stream with
      | [] => (w1, Go.Waiting)
      | r :: rest =>
          match body r w1 with
          | Go.Stop sig w2 => (w2, Go.status_of sig)
          | Go.Next _ w2 => loop rest w2
          end
      end
  end.

(** [HandleLLMWithContextAndTools] of package stream_sentence: what a
    reader of the returned stream receives before the stream is closed,
    and whether it has been closed. *)
Definition HandleLLMWithContextAndTools (input : list RecvResult)
  : list Sent * Go.Status :=
  let (w, st) := loop input init in (output w, st).

End WithEnvironment.

End StreamSentence.

(** ** Further definitions: the controller without cancellation *)

Module ControllerSpec.
Import Schema Controller.

(** The events sent for the sentences the Segmenter extracted, and the
    first-sentence flag afterwards: empty sentences are skipped, and the
    first one sent takes the flag and clears it. *)
Fixpoint sentence_events (ss : list string) (first : bool)
  : list LLMResponseStruct * bool :=
  match ss with
  | [] => ([], first)
  | s :: rest =>
      if nonempty s then
        let (evs, first') := sentence_events rest false in
        ({| Text := s; IsStart := first; IsEnd := false; ToolCalls := [] |}
           :: evs, first')
      else sentence_events rest first
  end.

(** The events of one turn on message [m], from buffer [buf] and flag
    [first], with the buffer and flag the turn leaves. *)
Definition turn_events {Seg : Segmenter} (m : Message) (buf : string)
  (first : bool) : list LLMResponseStruct * (string * bool) :=
  let '(evs, (buf1, first1)) :=
    if nonempty (Content m) then
      if ContainsSentenceSeparator (Content m) first then
        let (ss, remaining) :=
          ExtractSmartSentences (buf ++ Content m) 2%Z 100%Z first in
        (fst (sentence_events ss first), (remaining, false))
      else ([], ((buf ++ Content m)%string, first))
    else ([], (buf, first)) in
  ((evs
    ++ if Nat.ltb 0 (List.length (Schema.ToolCalls m))
       then [ {| Text := ""; IsStart := first1; IsEnd := false;
                 ToolCalls := Schema.ToolCalls m |} ]
       else [])%list,
   (buf1, first1)).

(** The events of a run whose sends are never given up, and how it
    ends. *)
Fixpoint run_events {Seg : Segmenter} (stream : list RecvResult)
  (buf : string) (first : bool) : list LLMResponseStruct * Go.Status :=
  match stream with
  | [] => ([], Go.Waiting)
  | (message, err) :: rest =>
      if Go.is_EOF err then ([end_marker buf], Go.Closed)
      else
        match message with
        | None => ([], Go.Closed)
        | Some m =>
            let '(evs, (buf1, first1)) := turn_events m buf first in
            let (evs', st) := run_events rest buf1 first1 in
            ((evs ++ evs')%list, st)
        end
  end.

(** A Segmenter that loses no text: the sentences it extracts, joined,
    and the remainder make up the buffer it was given. *)
Definition conserving (Seg : Segmenter) : Prop :=
  forall buf minLen maxLen first,
    (String.concat "" (fst (ExtractSmartSentences buf minLen maxLen first))
     ++ snd (ExtractSmartSentences buf minLen maxLen first))%string
    = buf.

(** The text carried by a list of events, joined in order. *)
Definition texts (evs : list LLMResponseStruct) : string :=
  String.concat "" (map Text evs).

(** The text delivered by a list of [Recv] results, joined in order. *)
Definition contents (stream : list RecvResult) : string :=
  String.concat ""
    (map (fun r => match fst r with Some m => Content m | None => "" end)
       stream).

(** The tool-call lists carried by the events that carry any. *)
Definition tool_call_lists (evs : list LLMResponseStruct)
  : list (list ToolCall) :=
  filter (fun calls => Nat.ltb 0 (List.length calls)) (map ToolCalls evs).

(** The tool-call lists delivered by the messages that carry any. *)
Definition delivered_tool_calls (stream : list RecvResult)
  : list (list ToolCall) :=
  filter (fun calls => Nat.ltb 0 (List.length calls))
    (map (fun r => match fst r with
                   | Some m => Schema.ToolCalls m
                   | None => []
                   end) stream).

(** The message the handler of package stream_sentence sends where the
    controller sends event [ev]. *)
Definition as_sent (ev : LLMResponseStruct) : StreamSentence.Sent :=
  ({| Role := Assistant; Content := Text ev; Schema.ToolCalls := ToolCalls ev |},
   None).

(** No [Recv] result carries an error other than the end of the stream. *)
Definition no_failure (stream : list RecvResult) : Prop :=
  Forall (fun r => snd r = None \/ snd r = Some Go.io_EOF) stream.

(** The goroutine has sent no more events than it has looked at
    [ctx.Done()], and no more than [k]. *)
Definition within_budget (k : nat) (w : Worker) : Prop :=
  List.length (sentenceChannel w) <= selects w
  /\ List.length (sentenceChannel w) <= k.

End ControllerSpec.

(** ** Further definitions: the accumulator feeding the controller *)

Module Pipeline.
Import Schema.

(** What [Recv] yields on the reader of the [schema.Pipe] written by
    [EinoResponseWithTools]: each message sent, with a nil error, and
    [io.EOF] once the goroutine has ended and its deferred [Close] has
    run. *)
Definition recv_history (out : list Message * Go.Status) : list RecvResult :=
  (map (fun m => (Some m, None)) (fst out)
   ++ match snd out with
      | Go.Closed => [(None, Some Go.io_EOF)]
      | Go.Waiting | Go.Panicked => []
      end)%list.

(** The model's part of a response is over: the call to
    [p.chatModel.Stream] returned an error or no reader, or the reader
    yields an error ([io.EOF] or any other) at some point. *)
Definition model_ended (streamReader : option (list RecvResult))
  (err : option Go.error) : Prop :=
  match err, streamReader with
  | Some _, _ => True
  | None, None => True
  | None, Some stream => Exists (fun r => snd r <> None) stream
  end.

End Pipeline.

(** ** Further definitions: the streams of the fan-out adapter *)

Module FanOutSpec.
Import FanOut.

(** Between two turns of the goroutine: the writer of every audio pipe
    made so far has been closed, and every pipe sent on the outer stream
    is one of them. *)
Definition settled {World : Type} (w : Worker World) : Prop :=
  Forall (fun p => closed p = true) (pipes w)
  /\ Forall (fun id => id < List.length (pipes w)) (sentenceStream w).

(** Within a turn: as [settled], but for the newest pipe, number [id],
    which may still be open. *)
Definition serving {World : Type} (id : nat) (w : Worker World) : Prop :=
  exists ps p,
    pipes w = (ps ++ [p])%list
    /\ List.length ps = id
    /\ Forall (fun p => closed p = true) ps
    /\ Forall (fun i => i < List.length (pipes w)) (sentenceStream w).

(** What holds when a statement stops: if it stops by returning, the
    goroutine's pipes are settled. *)
Definition returned {World : Type} (sig : Go.Signal) (w : Worker World)
  : Prop :=
  Go.status_of sig = Go.Closed -> settled w.

End FanOutSpec.

(** ** Further definitions: [TextToSpeechStreamWithContext] *)

Module Forwarder.
Import FanOut.

(** The forwarding goroutine's view: the frames it has put on
    [outputChan] (oldest first) and how many times it has looked at
    [ctx.Done()]. *)
Record Worker : Type := {
  outputChan : list Frame;
  selects : nat
}.

Definition init : Worker := {| outputChan := []; selects := 0 |}.

(** A [func()] value, [None] for nil.  What a non-nil one does is outside
    the goroutine's view. *)
Definition Func : Type := option (unit -> unit).

(** A [select] with [case <-ctx.Done()]: was that case taken? *)
Definition cancelled (ctx : Go.Ctx) : Go.M Worker bool :=
  fun w =>
    Go.Next (ctx (selects w))
      {| outputChan := outputChan w; selects := S (selects w) |}.

(** [f()]: calling a nil func panics. *)
Definition call (f : Func) : Go.M Worker unit :=
  match f with
  | Some _ => Go.ret tt
  | None => Go.stop Go.SigPanic
  end.

(** [outputChan <- frame] *)
Definition push (frame : Frame) : Go.M Worker unit :=
  Go.modify (fun w =>
    {| outputChan := outputChan w ++ [frame]; selects := selects w |}).

Section WithEnvironment.
Variable ctx : Go.Ctx.
Variable cancelFunc : Func.

(** The [for] loop on a [streamChan] that yields [frames] and is then
    closed. *)
Fixpoint forward (frames : list Frame) : Go.M Worker unit :=
  match frames with
  | [] =>
      (done <- cancelled ctx ;;
       Go.when done (call cancelFunc ;; Go.stop Go.SigReturn) ;;
       Go.stop Go.SigReturn)%go   (* [if !ok { return }] *)
  | frame :: rest =>
      (done <- cancelled ctx ;;
       Go.when done (call cancelFunc ;; Go.stop Go.SigReturn) ;;
       done' <- cancelled ctx ;;
       Go.when done' (call cancelFunc ;; Go.stop Go.SigReturn) ;;
       push frame ;;
       forward rest)%go
  end.

(** The goroutine; a nil [streamChan] is never ready. *)
Definition goroutine (streamChan : option (list Frame)) : Go.M Worker unit :=
  match streamChan with
  | Some frames => forward frames
  | None =>
      (done <- cancelled ctx ;;
       Go.when done (call cancelFunc ;; Go.stop Go.SigReturn) ;;
       Go.stop Go.SigBlock)%go
  end.

End WithEnvironment.

(** What the caller gets: the channel, given by the frames put on it and
    whether it was closed ([None]: a nil channel), the cancel function and
    the error. *)
Record Result : Type := {
  outputChan_ : option (list Frame * Go.Status);
  cancelFunc_ : Func;
  err_ : option Go.error
}.

(** [TextToSpeechStreamWithContext].  [direct] is the provider's own
    method of that name when the type assertion succeeds.  Otherwise the
    named result [cancelFunc] is never assigned: nil in the goroutine and
    for the caller. *)
Definition TextToSpeechStreamWithContext {Provider : BaseTTSProvider}
  (direct : option (string -> Z -> Z -> Z -> Result))
  (ctx : Go.Ctx) (text : string) (sampleRate channels frameDuration : Z)
  : Result :=
  match direct with
  | Some provider => provider text sampleRate channels frameDuration
  | None =>
      let cancelFunc : Func := None in
      match TextToSpeechStream text sampleRate channels frameDuration with
      | (_, Some err) =>
          {| outputChan_ := None; cancelFunc_ := None; err_ := Some err |}
      | (streamChan, None) =>
          {| outputChan_ :=
               Some match goroutine ctx cancelFunc streamChan init with
                    | Go.Next _ w => (outputChan w, Go.Waiting)
                    | Go.Stop sig w => (outputChan w, Go.status_of sig)
                    end;
             cancelFunc_ := cancelFunc;
             err_ := None |}
      end
  end.

End Forwarder.

(** ** Further definitions: the options of package types *)

Module TypesOptions.
Import Types.
Section WithWorld.
Variable World : Type.

Definition WithSampleRate (sampleRate : Z) : Option_ World :=
  {| apply := Some (fun opts =>
       {| SampleRate := sampleRate; Channel := Channel opts;
          FrameDuration := FrameDuration opts;
          ChunkStartCallback := ChunkStartCallback opts;
          ChunkEndCallback := ChunkEndCallback opts |}) |}.

Definition WithChannel (channel : Z) : Option_ World :=
  {| apply := Some (fun opts =>
       {| SampleRate := SampleRate opts; Channel := channel;
          FrameDuration := FrameDuration opts;
          ChunkStartCallback := ChunkStartCallback opts;
          ChunkEndCallback := ChunkEndCallback opts |}) |}.

Definition WithFrameDuration (frameDuration : Z) : Option_ World :=
  {| apply := Some (fun opts =>
       {| SampleRate := SampleRate opts; Channel := Channel opts;
          FrameDuration := frameDuration;
          ChunkStartCallback := ChunkStartCallback opts;
          ChunkEndCallback := ChunkEndCallback opts |}) |}.

(** A call of one of the five option functions. *)
Inductive Setting : Type :=
| SampleRateIs (sampleRate : Z)
| ChannelIs (channel : Z)
| FrameDurationIs (frameDuration : Z)
| StartCallbackIs (callback : World -> World)
| EndCallbackIs (callback : World -> World).

Definition option_of (s : Setting) : Option_ World :=
  match s with
  | SampleRateIs n => WithSampleRate n
  | ChannelIs n => WithChannel n
  | FrameDurationIs n => WithFrameDuration n
  | StartCallbackIs f => WithTtsChunkStartCallback f
  | EndCallbackIs f => WithTtsChunkEndCallback f
  end.

(** Do the two settings write the same field of [Options]? *)
Definition same_field (s t : Setting) : bool :=
  match s, t with
  | SampleRateIs _, SampleRateIs _
  | ChannelIs _, ChannelIs _
  | FrameDurationIs _, FrameDurationIs _
  | StartCallbackIs _, StartCallbackIs _
  | EndCallbackIs _, EndCallbackIs _ => true
  | _, _ => false
  end.

End WithWorld.

Arguments WithSampleRate {World} _.
Arguments WithChannel {World} _.
Arguments WithFrameDuration {World} _.
Arguments option_of {World} _.
Arguments same_field {World} _ _.
End TypesOptions.

(** ** Further definitions: creating the provider *)

Module EinoLLM.

(** The dynamic type of a value of a [map[string]interface{}], as far as
    the type assertions of the code tell values apart. *)
Inductive Value : Type :=
| VString (s : string)
| VInt (n : Z)
| VBool (b : bool)
| VOther.

(** [map[string]interface{}]; the code only reads it. *)
Definition Config : Type := string -> option Value.

(** [s, _ := config[key].(string)] *)
Definition string_at (config : Config) (key : string) : string :=
  match config key with
  | Some (VString s) => s
  | _ => ""
  end.

(** The fields the code sets of [openai.ChatModelConfig] and of
    [ollama.ChatModelConfig]. *)
Record OpenAIConfig : Type := {
  openai_Model : string;
  openai_APIKey : string;
  openai_BaseURL : string
}.

Record OllamaConfig : Type := {
  ollama_BaseURL : string;
  ollama_Model : string
}.

(** What the code calls outside the repository: the two constructors of
    eino-ext and [os.Getenv]. *)
Class Environment : Type := {
  ChatModel : Type;
  openai_NewChatModel : OpenAIConfig -> option ChatModel * option Go.error;
  ollama_NewChatModel : OllamaConfig -> option ChatModel * option Go.error;
  Getenv : string -> string
}.

Section WithEnvironment.
Context {Env : Environment}.

Record EinoLLMProvider : Type := {
  chatModel : option ChatModel;
  modelName : string;
  maxTokens : Z;
  streamable : bool;
  config : Config;
  providerType : string
}.

Definition createOpenAIChatModel (config : Config)
  : option ChatModel * option Go.error :=
  let modelName := string_at config "model_name" in
  let modelName := if nonempty modelName then modelName else "gpt-3.5-turbo" in
  let apiKey := string_at config "api_key" in
  let apiKey := if nonempty apiKey then apiKey else Getenv "OPENAI_API_KEY" in
  let baseURL := string_at config "base_url" in
  let openaiConfig :=
    {| openai_Model := modelName; openai_APIKey := apiKey;
       openai_BaseURL := if nonempty baseURL then baseURL else "" |} in
  match openai_NewChatModel openaiConfig with
  | (_, Some err) => (None, Some (Go.Errorf "创建OpenAI ChatModel失败: " err))
  | (chatModel, None) => (chatModel, None)
  end.

Definition createOllamaChatModel (config : Config)
  : option ChatModel * option Go.error :=
  let modelName := string_at config "model_name" in
  let baseURL := string_at config "base_url" in
  if negb (nonempty modelName) || negb (nonempty baseURL) then
    (None, Some (Go.errors_New "model_name和base_url不能为空"))
  else
    match ollama_NewChatModel
            {| ollama_BaseURL := baseURL; ollama_Model := modelName |} with
    | (_, Some err) => (None, Some (Go.Errorf "创建Ollama ChatModel失败: " err))
    | (chatModel, None) => (chatModel, None)
    end.

Definition NewEinoLLMProvider (config : Config)
  : option EinoLLMProvider * option Go.error :=
  let providerType := string_at config "type" in
  if negb (nonempty providerType) then
    (None, Some (Go.errors_New "type不能为空，必须是 'openai' 或 'ollama'"))
  else
    let modelName := string_at config "model_name" in
    if negb (nonempty modelName) then
      (None, Some (Go.errors_New "model_name不能为空"))
    else
      let maxTokens :=
        match config "max_tokens" with Some (VInt mt) => mt | _ => 500%Z end in
      let streamable :=
        match config "streamable" with Some (VBool s) => s | _ => true end in
      let created :=
        if String.eqb providerType "openai" then
          match createOpenAIChatModel config with
          | (_, Some err) =>
              (None, Some (Go.Errorf "创建OpenAI ChatModel失败: " err))
          | (chatModel, None) => (chatModel, None)
          end
        else if String.eqb providerType "ollama" then
          match createOllamaChatModel config with
          | (_, Some err) =>
              (None, Some (Go.Errorf "创建Ollama ChatModel失败: " err))
          | (chatModel, None) => (chatModel, None)
          end
        else
          (None,
           Some (Go.errors_New ("不支持的模型类型: " ++ providerType))) in
      match created with
      | (_, Some err) => (None, Some err)
      | (chatModel, None) =>
          (Some {| chatModel := chatModel; modelName := modelName;
                   maxTokens := maxTokens; streamable := streamable;
                   config := config; providerType := providerType |},
           None)
      end.

End WithEnvironment.

(** An environment to run the constructor in: a chat model is the name
    of its model, [ollama.NewChatModel] fails, no variable is set. *)
Definition only_openai : Environment :=
  {| ChatModel := string;
     openai_NewChatModel := fun c => (Some (openai_Model c), None);
     ollama_NewChatModel := fun _ =>
       (None, Some (Go.errors_New "connection refused"));
     Getenv := fun _ => "" |}.

(** A configuration file with a type and a model name. *)
Definition openai_config : Config :=
  fun key =>
    if String.eqb key "type" then Some (VString "openai")
    else if String.eqb key "model_name" then Some (VString "gpt-4o")
    else if String.eqb key "max_tokens" then Some VOther
    else None.

End EinoLLM.

(** ** Further definitions: [ConvertMCPToolsToEinoTools] *)

Module McpTools.
Section WithToolInfo.
Variable ToolInfo : Type.

(** A value of the map: what its [Info] method returns, a tool info
    (possibly nil) and an error, or [None] when it has no such method. *)
Definition Tool : Type := option (option ToolInfo * option Go.error).

(** The [for ... range mcpTools] loop, on the entries in the order the
    iteration visits them, which Go does not fix. *)
Fixpoint convert (entries : list (string * Tool))
  (einoTools : list (option ToolInfo)) : list (option ToolInfo) :=
  match entries with
  | [] => einoTools
  | (_, mcpTool) :: rest =>
      match mcpTool with
      | Some (_, Some _) => convert rest einoTools              (* continue *)
      | Some (toolInfo, None) => convert rest (einoTools ++ [toolInfo])
      | None => convert rest einoTools
      end
  end.

Definition ConvertMCPToolsToEinoTools (entries : list (string * Tool))
  : list (option ToolInfo) * option Go.error :=
  (convert entries [], None).

(** The tools of the map whose [Info] succeeds. *)
Definition informative (entry : string * Tool) : bool :=
  match snd entry with
  | Some (_, None) => true
  | _ => false
  end.

End WithToolInfo.
End McpTools.

(** ** Further definitions: the Segmenter, from the specification *)

Module Sentence.
Import Controller.

(** Modelled from the spec: package internal/util/sentence, whose
    functions [ContainsSentenceSeparator] and [ExtractSmartSentences] the
    controller calls, is not among the sources.  Section 4.1: the
    Segmenter is called only when the latest delta contains a boundary
    character, and the first call relaxes the minimum-length requirement
    for the very first sentence of a response, so that a very short
    opening sentence is still emitted.  Hence: on a first call, for a
    delta with a boundary character, the sentences extracted from the
    buffer that ends with that delta include one that is not empty. *)
Definition first_call_extracts (Seg : Segmenter) : Prop :=
  forall buf content,
    ContainsSentenceSeparator content true = true ->
    Exists (fun sentence => nonempty sentence = true)
      (fst (ExtractSmartSentences (buf ++ content) 2%Z 100%Z true)).

(** Modelled from the spec: the same package, by the extraction policy
    of section 4.1, on ASCII text whose boundary characters are the full
    stop, the exclamation mark and the question mark.  The scan goes left
    to right; a boundary character closes the sentence candidate when the
    candidate has at least [minLen] characters, or whatever its length
    for the very first sentence of a first call; the text after the last
    closed candidate is the remainder, unless the buffer is longer than
    [maxLen], when it is accepted as a last sentence.  White space before
    a candidate is dropped, as the first example of section 8 has it. *)
Definition is_boundary (c : ascii) : bool :=
  Ascii.eqb c "." || Ascii.eqb c "!" || Ascii.eqb c "?".

Fixpoint ContainsBoundary (delta : string) : bool :=
  match delta with
  | EmptyString => false
  | String c r => is_boundary c || ContainsBoundary r
  end.

Fixpoint scan (minLen : nat) (relaxed : bool) (candidate s : string)
  : list string * string :=
  match s with
  | EmptyString => ([], candidate)
  | String c r =>
      let candidate' := (candidate ++ String c "")%string in
      if is_boundary c then
        if relaxed || Nat.leb minLen (String.length candidate') then
          let (sentences, remainder) := scan minLen false "" r in
          (candidate' :: sentences, remainder)
        else scan minLen relaxed candidate' r
      else if Json.is_space c && negb (nonempty candidate) then
        scan minLen relaxed candidate r
      else scan minLen relaxed candidate' r
  end.

Definition ExtractSentences (buffer : string) (minLen maxLen : Z)
  (isFirstCall : bool) : list string * string :=
  let (sentences, remainder) :=
    scan (Z.to_nat minLen) isFirstCall "" buffer in
  if Nat.ltb (Z.to_nat maxLen) (String.length buffer) && nonempty remainder
  then ((sentences ++ [remainder])%list, "")
  else (sentences, remainder).

Definition segmenter : Segmenter :=
  {| ContainsSentenceSeparator := fun delta _ => ContainsBoundary delta;
     ExtractSmartSentences := ExtractSentences |}.

End Sentence.

(* ===================================================================== *)
(** * Part II: properties                                                 *)
(* ===================================================================== *)

(** ** Playback state machine *)

Section PlaybackFacts.
Import Playback.

Lemma Broadcast_ok a c :
  Cond a = Some c ->
  Broadcast a =
    Ok {| State := State a; Cond := Some {| broadcasts := S (broadcasts c) |};
          Ctx := Ctx a; Cancel := Cancel a; fresh := fresh a |}.
Proof. intros H. unfold Broadcast. rewrite H. reflexivity. Qed.

(** The three string constants are pairwise different. *)
Lemma state_names_distinct :
  AudioChannelStateIdle <> AudioChannelStatePlaying
  /\ AudioChannelStateIdle <> AudioChannelStatePause
  /\ AudioChannelStatePlaying <> AudioChannelStatePause.
Proof. repeat split; discriminate. Qed.

(** No operation that returns touches the [Cond] pointer itself, so a
    state made by [NewAudioState] always has one. *)
Lemma reachable_has_Cond a : reachable a -> exists c, Cond a = Some c.
Proof.
  induction 1 as [|op a a' _ [c Hc] Hexec].
  - eexists; reflexivity.
  - destruct op; cbn [exec] in Hexec.
    + unfold SetPlay in Hexec.
      rewrite (Broadcast_ok (set_State _ a) c Hc) in Hexec.
      injection Hexec as <-. eexists; reflexivity.
    + unfold SetPause in Hexec.
      destruct (String.eqb _ _).
      * rewrite (Broadcast_ok (set_State _ a) c Hc) in Hexec.
        injection Hexec as <-. eexists; reflexivity.
      * injection Hexec as <-. eauto.
    + unfold SetStop in Hexec.
      destruct (_ || _).
      * rewrite (Broadcast_ok (set_State _ a) c Hc) in Hexec.
        injection Hexec as <-. eexists; reflexivity.
      * injection Hexec as <-. eauto.
    + unfold CancelCtx, call_Cancel in Hexec.
      destruct (Cancel a); [|discriminate].
      injection Hexec as <-. cbn. eauto.
    + unfold RestartSessionCtx, call_Cancel in Hexec.
      destruct (Cancel a); [|discriminate].
      injection Hexec as <-. cbn. eauto.
    + injection Hexec as <-. eauto.
Qed.

(** [Cancel] is set by [RestartSessionCtx] alone, which calls it first:
    starting from [NewAudioState] it stays nil. *)
Lemma reachable_Cancel_nil a : reachable a -> Cancel a = None.
Proof.
  induction 1 as [|op a a' _ IH Hexec]; [reflexivity|].
  destruct op; cbn [exec] in Hexec.
  - unfold SetPlay, Broadcast in Hexec. cbn in Hexec.
    destruct (Cond a); [|discriminate]. injection Hexec as <-. exact IH.
  - unfold SetPause, Broadcast in Hexec.
    destruct (String.eqb _ _); cbn in Hexec.
    + destruct (Cond a); [|discriminate]. injection Hexec as <-. exact IH.
    + injection Hexec as <-. exact IH.
  - unfold SetStop, Broadcast in Hexec.
    destruct (_ || _); cbn in Hexec.
    + destruct (Cond a); [|discriminate]. injection Hexec as <-. exact IH.
    + injection Hexec as <-. exact IH.
  - unfold CancelCtx, call_Cancel in Hexec. rewrite IH in Hexec.
    discriminate.
  - unfold RestartSessionCtx, call_Cancel in Hexec. rewrite IH in Hexec.
    discriminate.
  - injection Hexec as <-. exact IH.
Qed.

(** The operations that do not call [a.Cancel] return in every state
    made by [NewAudioState]. *)
Lemma state_ops_return a :
  reachable a ->
  (exists a1, SetPlay a = Ok a1)
  /\ (exists a2, SetPause a = Ok a2)
  /\ (exists a3, SetStop a = Ok a3).
Proof.
  intros [c Hc]%reachable_has_Cond.
  unfold SetPlay, SetPause, SetStop.
  rewrite !(Broadcast_ok (set_State _ a) c Hc).
  repeat split.
  - eauto.
  - destruct (String.eqb _ _); eauto.
  - destruct (_ || _); eauto.
Qed.

(** C7. In every state of an [AudioState] whose condition variable is
    set up (as [NewAudioState] does): [SetPause] moves to Pause, with one
    broadcast, when the state is Playing, and otherwise returns the
    [AudioState] as it was; [SetStop] moves to Idle, with one broadcast,
    when the state is Playing or Pause, and otherwise returns the
    [AudioState] as it was.  A transition changes the [State] field and
    nothing else but the broadcast count. *)
Theorem SetPause_SetStop_transitions a c :
  Cond a = Some c ->
  let moved s :=
    {| State := s; Cond := Some {| broadcasts := S (broadcasts c) |};
       Ctx := Ctx a; Cancel := Cancel a; fresh := fresh a |} in
  (State a = AudioChannelStatePlaying ->
     SetPause a = Ok (moved AudioChannelStatePause)
     /\ State (moved AudioChannelStatePause) <> State a
     /\ broadcast_count (moved AudioChannelStatePause)
        = S (broadcast_count a))
  /\ (State a <> AudioChannelStatePlaying -> SetPause a = Ok a)
  /\ (State a = AudioChannelStateIdle -> SetPause a = Ok a)
  /\ (State a = AudioChannelStatePlaying \/ State a = AudioChannelStatePause ->
        SetStop a = Ok (moved AudioChannelStateIdle)
        /\ State (moved AudioChannelStateIdle) <> State a
        /\ broadcast_count (moved AudioChannelStateIdle)
           = S (broadcast_count a))
  /\ (State a <> AudioChannelStatePlaying ->
      State a <> AudioChannelStatePause -> SetStop a = Ok a).
Proof.
  intros Hc moved. unfold SetPause, SetStop.
  assert (Hb : forall s, Broadcast (set_State s a) = Ok (moved s)).
  { intros s. rewrite (Broadcast_ok (set_State s a) c Hc). reflexivity. }
  assert (Hn : broadcast_count a = broadcasts c).
  { unfold broadcast_count. rewrite Hc. reflexivity. }
  repeat split.
  - rewrite H, String.eqb_refl. apply Hb.
  - rewrite H. discriminate.
  - cbn. rewrite Hn. reflexivity.
  - intros H. apply String.eqb_neq in H. rewrite H. reflexivity.
  - intros H. rewrite H. reflexivity.
  - destruct H as [H|H]; rewrite H; cbn [orb]; try rewrite String.eqb_refl;
      cbn; apply Hb.
  - destruct H as [H|H]; rewrite H; discriminate.
  - cbn. rewrite Hn. reflexivity.
  - intros H1 H2. apply String.eqb_neq in H1, H2. rewrite H1, H2.
    reflexivity.
Qed.

(** The statement applied to the state [NewAudioState] returns and to
    the same state after [SetPlay]. *)
Lemma SetPause_SetStop_transitions_witness :
  SetPause NewAudioState = Ok NewAudioState
  /\ SetStop NewAudioState = Ok NewAudioState
  /\ SetPause
       {| State := AudioChannelStatePlaying;
          Cond := Some {| broadcasts := 1 |};
          Ctx := None; Cancel := None; fresh := 0 |}
     = Ok {| State := AudioChannelStatePause;
             Cond := Some {| broadcasts := 2 |};
             Ctx := None; Cancel := None; fresh := 0 |}.
Proof.
  destruct (SetPause_SetStop_transitions NewAudioState {| broadcasts := 0 |}
              eq_refl) as (_ & _ & Hidle & _ & Hstop).
  destruct (SetPause_SetStop_transitions
              {| State := AudioChannelStatePlaying;
                 Cond := Some {| broadcasts := 1 |};
                 Ctx := None; Cancel := None; fresh := 0 |}
              {| broadcasts := 1 |} eq_refl) as (Hplaying & _).
  split; [|split].
  - apply Hidle. reflexivity.
  - apply Hstop; discriminate.
  - apply Hplaying. reflexivity.
Defined.

(** C8 (what the code does).  [NewAudioState] leaves [Cancel] nil, and
    both [CancelCtx] and [RestartSessionCtx] call it without a check: on a
    fresh [AudioState] each of them panics.  As [RestartSessionCtx] is the
    only method that sets [Cancel], the same holds in every state the
    methods can reach from [NewAudioState]; the other operations return
    there. *)
Theorem CancelCtx_panics_on_new_state :
  CancelCtx NewAudioState = Panic
  /\ RestartSessionCtx NewAudioState = Panic
  /\ (forall a, reachable a ->
        CancelCtx a = Panic /\ RestartSessionCtx a = Panic)
  /\ (forall a, reachable a ->
        exists a1 a2 a3,
          SetPlay a = Ok a1 /\ SetPause a = Ok a2 /\ SetStop a = Ok a3).
Proof.
  split; [reflexivity|]. split; [reflexivity|]. split.
  - intros a Ha. apply reachable_Cancel_nil in Ha.
    unfold CancelCtx, RestartSessionCtx, call_Cancel. rewrite Ha. auto.
  - intros a Ha. destruct (state_ops_return a Ha) as [[a1 H1] [[a2 H2] [a3 H3]]].
    eauto 7.
Qed.

End PlaybackFacts.

(** ** Tool-call accumulator *)

Section AccumulatorFacts.
Import Schema Accumulator.
Context {D : Json.Decoder}.

(** A turn of the loop looks at [message.ToolCalls[0]] and at whether the
    list is empty, at nothing else of it. *)
Lemma body_first_fragment_only r w :
  body (first_fragment_only r) w = body r w.
Proof.
  destruct r as [[m|] err]; [|reflexivity].
  unfold first_fragment_only, body, Go.bind.
  destruct (Go.when (Go.is_EOF err) _ w) as [[] w1|]; [|reflexivity].
  destruct err; [reflexivity|].
  unfold on_message. cbn [ToolCalls Content Role].
  destruct (ToolCalls m) as [|toolCall rest]; reflexivity.
Qed.

(** C10. A delta with two or more tool-call fragments acts on the
    accumulator exactly as the same delta with only its first fragment:
    the state after the turn and the messages sent are the same, whatever
    the later fragments are; so a whole run is unchanged when every delta
    is cut down to its first fragment. *)
Theorem later_fragments_discarded :
  (forall role content toolCall second rest err w,
      body (Some {| Role := role; Content := content;
                    ToolCalls := toolCall :: second :: rest |}, err) w
      = body (Some {| Role := role; Content := content;
                      ToolCalls := [toolCall] |}, err) w)
  /\ (forall stream w,
        loop (map first_fragment_only stream) w = loop stream w)
  /\ (forall stream,
        EinoResponseWithTools (Some (map first_fragment_only stream)) None
        = EinoResponseWithTools (Some stream) None).
Proof.
  assert (Hloop : forall stream w,
             loop (map first_fragment_only stream) w = loop stream w).
  { induction stream as [|r stream IH]; intros w; [reflexivity|].
    cbn [map loop]. rewrite body_first_fragment_only.
    destruct (body r w); [apply IH | reflexivity]. }
  split; [|split].
  - intros role content toolCall second rest err w.
    symmetry.
    exact (body_first_fragment_only
             (Some {| Role := role; Content := content;
                      ToolCalls := toolCall :: second :: rest |}, err) w).
  - exact Hloop.
  - intros stream. unfold EinoResponseWithTools. rewrite Hloop. reflexivity.
Qed.

(** C6. A fragment named X whose arguments are the opening half of a
    JSON object, followed by an unnamed fragment with the closing half:
    one completed-tool-call message is sent, when the second fragment
    arrives; its single tool call is the first fragment's with the two
    argument texts joined.  Nothing is sent before the second fragment and
    nothing more at the end of the stream.  The decoder is any that accepts
    the joined text. *)
Theorem two_fragments_one_call role content id ty role' content' id' ty' :
  Json.unmarshal_map_ok args_whole = true ->
  let first := fragment role content id ty "X" args_head in
  let second := fragment role' content' id' ty' "" args_tail in
  let call := {| ID := id; Type_ := ty;
                 Function := {| Name := "X"; Arguments := args_whole |} |} in
  EinoResponseWithTools (Some [first]) None = ([], Go.Waiting)
  /\ EinoResponseWithTools (Some [first; second]) None
     = ([completeMessage call], Go.Waiting)
  /\ EinoResponseWithTools (Some [first; second; (None, Some Go.io_EOF)]) None
     = ([completeMessage call], Go.Closed)
  /\ args_whole = (args_head ++ args_tail)%string.
Proof.
  intros Hjson first second call.
  assert (Hstep1 : body first init
                   = Go.Next tt {| currentToolCall :=
                                     Some {| ID := id; Type_ := ty;
                                             Function := {| Name := "X";
                                                            Arguments := args_head |} |};
                                   toolCallBuffer := args_head;
                                   isToolCallComplete := false;
                                   responseStream := [] |}) by reflexivity.
  assert (Hstep2 : forall w, body first init = Go.Next tt w ->
                     body second w
                     = Go.Next tt {| currentToolCall := None;
                                     toolCallBuffer := "";
                                     isToolCallComplete := false;
                                     responseStream := [completeMessage call] |}).
  { intros w Hw. rewrite Hstep1 in Hw. injection Hw as <-.
    unfold body, second, fragment. cbn [Go.is_EOF Go.when Go.bind Go.ret].
    unfold on_message. cbn [ToolCalls Function Name nonempty String.eqb negb].
    unfold Go.bind, Go.gets, Go.modify, Go.when, isValidJSON.
    cbn [currentToolCall toolCallBuffer set_pending Arguments Function].
    change (args_head ++ args_tail)%string with args_whole.
    rewrite Hjson. reflexivity. }
  unfold EinoResponseWithTools. cbn [loop]. rewrite Hstep1.
  repeat split.
  - cbn [loop]. rewrite (Hstep2 _ Hstep1). reflexivity.
  - cbn [loop]. rewrite (Hstep2 _ Hstep1). reflexivity.
Qed.

End AccumulatorFacts.

(** The round trip with the RFC 8259 decoder in place of encoding/json. *)
Lemma two_fragments_one_call_witness :
  @Accumulator.EinoResponseWithTools Json.rfc8259
    (Some [Accumulator.fragment Schema.Assistant "" "call_1" "function" "X"
             Accumulator.args_head;
           Accumulator.fragment Schema.Assistant "" "" "" ""
             Accumulator.args_tail])
    None
  = ([Accumulator.completeMessage
        {| Schema.ID := "call_1"; Schema.Type_ := "function";
           Schema.Function :=
             {| Schema.Name := "X";
                Schema.Arguments := Accumulator.args_whole |} |}],
     Go.Waiting).
Proof.
  apply (@two_fragments_one_call Json.rfc8259 Schema.Assistant "" "call_1"
           "function" Schema.Assistant "" "" "").
  vm_compute. reflexivity.
Defined.

(** ** Response pipeline controller *)

Section ControllerFacts.
Import Schema Controller.
Context {Seg : Segmenter}.
Variable ctx : Go.Ctx.

Lemma sentences_app evs1 evs2 :
  sentences (evs1 ++ evs2) = (sentences evs1 ++ sentences evs2)%list.
Proof. apply filter_app. Qed.

Lemma unflagged_sentences evs : unflagged evs -> unflagged (sentences evs).
Proof.
  unfold unflagged, sentences. rewrite !Forall_forall.
  intros H ev [Hin _]%filter_In. auto.
Qed.

Lemma sends_refl w : sends_ w w [].
Proof.
  constructor; cbn; auto.
  - now rewrite app_nil_r.
  - constructor.
  - intros H; split; [assumption | constructor].
  - congruence.
Qed.

Lemma sends_trans w1 w2 w3 evs1 evs2 :
  sends_ w1 w2 evs1 -> sends_ w2 w3 evs2 -> sends_ w1 w3 (evs1 ++ evs2).
Proof.
  intros [Hc1 He1 Hf1 Hl1 Hs1] [Hc2 He2 Hf2 Hl2 Hs2].
  constructor.
  - rewrite Hc2, Hc1. now rewrite app_assoc.
  - apply Forall_app; split; assumption.
  - intros H. destruct (Hf1 H) as [H2 Hu1]. destruct (Hf2 H2) as [H3 Hu2].
    split; [assumption|]. apply Forall_app; split; assumption.
  - rewrite sentences_app.
    destruct (sentences evs1) as [|ev later] eqn:E; [exact Hl2|].
    cbn. apply Forall_app; split; [exact Hl1|].
    apply unflagged_sentences, Hf2, Hs1. discriminate.
  - rewrite sentences_app. intros H.
    destruct (sentences evs1) as [|ev later] eqn:E.
    + apply Hs2. exact H.
    + apply Hf2, Hs1. discriminate.
Qed.

(** A change of state that leaves the channel alone, and [isFirst] too
    unless it clears it. *)
Lemma sends_nothing w w' :
  sentenceChannel w' = sentenceChannel w ->
  isFirst w' = isFirst w \/ isFirst w' = false ->
  sends_ w w' [].
Proof.
  intros Hc Hf. constructor; cbn.
  - now rewrite app_nil_r.
  - constructor.
  - intros H. split; [destruct Hf; congruence | constructor].
  - exact I.
  - congruence.
Qed.

Lemma sends_then_nothing w1 w2 w3 evs :
  sends_ w1 w2 evs ->
  sentenceChannel w3 = sentenceChannel w2 ->
  isFirst w3 = isFirst w2 \/ isFirst w3 = false ->
  sends_ w1 w3 evs.
Proof.
  intros H12 Hc Hf. rewrite <- (app_nil_r evs).
  eapply sends_trans; [exact H12|]. apply sends_nothing; assumption.
Qed.

Lemma nothing_then_sends w1 w2 w3 evs :
  sentenceChannel w2 = sentenceChannel w1 ->
  isFirst w2 = isFirst w1 ->
  sends_ w2 w3 evs ->
  sends_ w1 w3 evs.
Proof.
  intros Hc Hf H23. change evs with ([] ++ evs)%list.
  eapply sends_trans; [|exact H23]. apply sends_nothing; auto.
Qed.

(** One turn of the loop over the extracted sentences: the send is given
    up, or the sentence is empty and skipped, or the sentence is sent with
    the current flag and the flag is cleared. *)
Lemma send_sentence_cases sentence w :
  (exists w', send_sentence ctx sentence w = Go.Stop Go.SigReturn w'
              /\ sentenceChannel w' = sentenceChannel w
              /\ isFirst w' = isFirst w)
  \/ (nonempty sentence = false
      /\ send_sentence ctx sentence w = Go.Next tt w)
  \/ (exists w',
        nonempty sentence = true
        /\ send_sentence ctx sentence w = Go.Next tt w'
        /\ isFirst w' = false
        /\ sentenceChannel w'
           = (sentenceChannel w
              ++ [ {| Text := sentence; IsStart := isFirst w; IsEnd := false;
                      ToolCalls := [] |} ])%list).
Proof.
  unfold send_sentence.
  destruct (nonempty sentence) eqn:Hs; [|right; left; auto].
  destruct w as [ft buf first ff ch n].
  unfold Go.when, Go.bind, Go.gets, Go.modify, Go.ret, select_send.
  cbn [firstFrame isFirst selects negb].
  destruct (ctx n) eqn:Hctx.
  - left. destruct ff; cbn; rewrite Hctx; eexists; repeat split; reflexivity.
  - right; right.
    destruct ff, first; cbn; rewrite Hctx; cbn; eexists;
      repeat split; reflexivity.
Qed.

Lemma sends_sentence w w' sentence :
  nonempty sentence = true ->
  isFirst w' = false ->
  sentenceChannel w'
  = (sentenceChannel w
     ++ [ {| Text := sentence; IsStart := isFirst w; IsEnd := false;
             ToolCalls := [] |} ])%list ->
  sends_ w w' [ {| Text := sentence; IsStart := isFirst w; IsEnd := false;
                   ToolCalls := [] |} ].
Proof.
  intros Hs Hf Hc. constructor; auto.
  - repeat constructor.
  - intros H. split; [assumption|]. repeat constructor. exact H.
  - unfold sentences. cbn. unfold is_sentence. cbn. rewrite Hs. cbn.
    constructor.
Qed.

(** The loop over the extracted sentences: what it sends starts with a
    flagged sentence when [isFirst] was set, and when it sends nothing
    [isFirst] is as before. *)
Lemma send_sentences_sends ss :
  forall w,
    exists evs,
      sends_ w (state_of (send_sentences ctx ss w)) evs
      /\ (isFirst w = true -> head_flagged (sentences evs))
      /\ (sentences evs = [] ->
          isFirst (state_of (send_sentences ctx ss w)) = isFirst w).
Proof.
  induction ss as [|sentence rest IH]; intros w.
  - exists []. split; [apply sends_refl|].
    split; [intros _; exact I|reflexivity].
  - cbn [send_sentences]. unfold Go.bind.
    destruct (send_sentence_cases sentence w)
      as [(w' & -> & Hc & Hf) | [(Hs & ->) | (w' & Hs & -> & Hf & Hc)]].
    + exists []. cbn. split; [apply sends_nothing; auto|].
      split; [intros _; exact I|]. intros _. exact Hf.
    + apply IH.
    + destruct (IH w') as (evs & Hevs & _).
      eexists. split; [|split].
      * eapply sends_trans;
          [apply (sends_sentence w w' sentence Hs Hf Hc)|exact Hevs].
      * intros H. cbn. unfold is_sentence at 1. cbn. rewrite Hs. cbn.
        exact H.
      * cbn. unfold is_sentence at 1. cbn. rewrite Hs. cbn. discriminate.
Qed.

Lemma when_some_sentences ss w :
  Go.when (Nat.ltb 0 (List.length ss)) (send_sentences ctx ss) w
  = send_sentences ctx ss w.
Proof. destruct ss; reflexivity. Qed.

(** [on_content] with its monadic plumbing carried out. *)
Lemma on_content_unfold content w :
  on_content ctx content w
  = let w1 := set_buffer (buffer w ++ content)
                (set_fullText (fullText w ++ content) w) in
    if ContainsSentenceSeparator content (isFirst w) then
      let (ss, remaining) :=
        ExtractSmartSentences (buffer w1) 2 100 (isFirst w) in
      match send_sentences ctx ss w1 with
      | Go.Next _ w2 =>
          let w3 := set_buffer ("" ++ remaining) (set_buffer "" w2) in
          Go.Next tt (if isFirst w2 then set_isFirst false w3 else w3)
      | Go.Stop sig w2 => Go.Stop sig w2
      end
    else Go.Next tt w1.
Proof.
  unfold on_content, Go.bind, Go.modify, Go.gets.
  cbn [isFirst set_buffer set_fullText buffer].
  destruct (ContainsSentenceSeparator content (isFirst w)); [|reflexivity].
  cbn [Go.when].
  destruct (ExtractSmartSentences _ _ _ _) as [ss remaining].
  rewrite when_some_sentences.
  destruct (send_sentences ctx ss _) as [[] w2|sig w2]; [|reflexivity].
  cbn [isFirst set_buffer buffer].
  destruct (isFirst w2); reflexivity.
Qed.

(** A text delta: when the Segmenter is not called nothing is sent and
    [isFirst] stays; when it is called, what is sent starts with a flagged
    sentence if [isFirst] was set, and [isFirst] is clear afterwards. *)
Lemma on_content_sends content w :
  exists evs,
    sends_ w (state_of (on_content ctx content w)) evs
    /\ (isFirst w = true -> head_flagged (sentences evs))
    /\ (ContainsSentenceSeparator content (isFirst w) = false ->
        evs = []
        /\ isFirst (state_of (on_content ctx content w)) = isFirst w
        /\ is_next (on_content ctx content w) = true)
    /\ (ContainsSentenceSeparator content (isFirst w) = true ->
        is_next (on_content ctx content w) = true ->
        isFirst (state_of (on_content ctx content w)) = false).
Proof.
  rewrite on_content_unfold.
  set (w1 := set_buffer (buffer w ++ content)
               (set_fullText (fullText w ++ content) w)).
  cbv zeta.
  assert (Hc1 : sentenceChannel w1 = sentenceChannel w) by reflexivity.
  assert (Hf1 : isFirst w1 = isFirst w) by reflexivity.
  destruct (ContainsSentenceSeparator content (isFirst w)) eqn:Hsep.
  2:{ exists []. split; [apply sends_nothing; auto|].
      split; [intros _; exact I|]. split; [|discriminate].
      intros _. repeat split; reflexivity. }
  destruct (ExtractSmartSentences (buffer w1) 2 100 (isFirst w))
    as [ss remaining].
  destruct (send_sentences_sends ss w1) as (evs & Hevs & Hhead & _).
  rewrite Hf1 in Hhead.
  destruct (send_sentences ctx ss w1) as [[] w2|sig w2]; cbn [state_of] in *.
  - exists evs. split; [|split; [exact Hhead|split; [discriminate|]]].
    + eapply nothing_then_sends; [exact Hc1|exact Hf1|].
      eapply sends_then_nothing; [exact Hevs| |].
      * destruct (isFirst w2); reflexivity.
      * destruct (isFirst w2) eqn:Hf2; [right; reflexivity|left; exact Hf2].
    + intros _ _. destruct (isFirst w2) eqn:Hf2; [reflexivity|exact Hf2].
  - exists evs. split; [|split; [exact Hhead|split; discriminate]].
    eapply nothing_then_sends; [exact Hc1|exact Hf1|exact Hevs].
Qed.

(** A tool-call event is no sentence event and leaves [isFirst] alone. *)
Lemma on_tool_calls_sends calls w :
  exists evs,
    sends_ w (state_of (on_tool_calls ctx calls w)) evs
    /\ sentences evs = []
    /\ isFirst (state_of (on_tool_calls ctx calls w)) = isFirst w.
Proof.
  unfold on_tool_calls, Go.bind, Go.gets, select_send.
  destruct (ctx (selects w)); cbn [state_of].
  - exists []. split; [apply sends_nothing; auto|]. split; reflexivity.
  - exists [ {| Text := ""; IsStart := isFirst w; IsEnd := false;
                ToolCalls := calls |} ].
    split; [|split; reflexivity].
    constructor; cbn; auto.
    + repeat constructor.
    + intros H. split; [exact H|]. repeat constructor. exact H.
    + intros H. now contradiction H.
Qed.

(** The end of the stream: the goroutine returns, having sent the end
    marker with the buffered remainder unless the send was given up. *)
Lemma on_EOF_cases w :
  exists w',
    on_EOF ctx w = Go.Stop Go.SigReturn w'
    /\ isFirst w' = isFirst w
    /\ ((ctx (selects w) = true /\ sentenceChannel w' = sentenceChannel w)
        \/ (ctx (selects w) = false
            /\ sentenceChannel w'
               = (sentenceChannel w ++ [end_marker (buffer w)])%list)).
Proof.
  unfold on_EOF, Go.bind, Go.gets, Go.modify, Go.stop, select_send.
  destruct (nonempty (buffer w)) eqn:Hb;
    cbn [selects set_fullText]; destruct (ctx (selects w));
    eexists; (split; [reflexivity|]); (split; [reflexivity|]); auto.
  right. split; [reflexivity|]. cbn.
  apply negb_false_iff, String.eqb_eq in Hb. rewrite Hb. reflexivity.
Qed.

(** [body] with its monadic plumbing carried out. *)
Lemma body_unfold message err w :
  body ctx (message, err) w
  = if Go.is_EOF err then on_EOF ctx w
    else match message with
         | None => Go.Stop Go.SigBreak w
         | Some m =>
             match Go.when (nonempty (Content m))
                     (on_content ctx (Content m)) w with
             | Go.Next _ w1 =>
                 Go.when (Nat.ltb 0 (List.length (Schema.ToolCalls m)))
                   (on_tool_calls ctx (Schema.ToolCalls m)) w1
             | Go.Stop sig w1 => Go.Stop sig w1
             end
         end.
Proof.
  unfold body, Go.bind.
  destruct (Go.is_EOF err); cbn [Go.when].
  - destruct (on_EOF_cases w) as (w' & -> & _). reflexivity.
  - unfold Go.ret. destruct message; reflexivity.
Qed.

(** A turn on a message that is not the end of the stream. *)
Lemma body_item_sends m err w :
  Go.is_EOF err = false ->
  exists evs,
    sends_ w (state_of (body ctx (Some m, err) w)) evs
    /\ (isFirst w = true -> head_flagged (sentences evs))
    /\ (invokes (isFirst w) (Some m, err) = false ->
        sentences evs = []
        /\ isFirst (state_of (body ctx (Some m, err) w)) = isFirst w)
    /\ (invokes (isFirst w) (Some m, err) = true ->
        is_next (body ctx (Some m, err) w) = true ->
        isFirst (state_of (body ctx (Some m, err) w)) = false).
Proof.
  intros Herr. rewrite body_unfold, Herr. unfold invokes.
  assert (Hcontent :
    exists evs,
      sends_ w (state_of (Go.when (nonempty (Content m))
                            (on_content ctx (Content m)) w)) evs
      /\ (isFirst w = true -> head_flagged (sentences evs))
      /\ (invokes (isFirst w) (Some m, err) = false ->
          evs = []
          /\ isFirst (state_of (Go.when (nonempty (Content m))
                                  (on_content ctx (Content m)) w))
             = isFirst w
          /\ is_next (Go.when (nonempty (Content m))
                        (on_content ctx (Content m)) w) = true)
      /\ (invokes (isFirst w) (Some m, err) = true ->
          is_next (Go.when (nonempty (Content m))
                     (on_content ctx (Content m)) w) = true ->
          isFirst (state_of (Go.when (nonempty (Content m))
                               (on_content ctx (Content m)) w)) = false)).
  { unfold invokes. destruct (nonempty (Content m)); cbn [Go.when andb].
    - apply on_content_sends.
    - exists []. split; [apply sends_refl|]. split; [intros _; exact I|].
      split; [auto|discriminate]. }
  unfold invokes in Hcontent.
  destruct Hcontent as (evs1 & H1 & Hhead & Hquiet & Hinv).
  destruct (Go.when (nonempty (Content m)) (on_content ctx (Content m)) w)
    as [[] w1|sig w1]; cbn [state_of is_next] in *.
  - assert (Htools :
      exists evs,
        sends_ w1 (state_of (Go.when
                               (Nat.ltb 0 (List.length (Schema.ToolCalls m)))
                               (on_tool_calls ctx (Schema.ToolCalls m)) w1))
          evs
        /\ sentences evs = []
        /\ isFirst (state_of (Go.when
                                (Nat.ltb 0 (List.length (Schema.ToolCalls m)))
                                (on_tool_calls ctx (Schema.ToolCalls m)) w1))
           = isFirst w1).
    { destruct (Nat.ltb 0 _); cbn [Go.when].
      - apply on_tool_calls_sends.
      - exists []. split; [apply sends_refl|]. split; reflexivity. }
    destruct Htools as (evs2 & H2 & Hs2 & Hf2).
    exists (evs1 ++ evs2)%list. rewrite sentences_app, Hs2, app_nil_r.
    split; [eapply sends_trans; eassumption|].
    split; [exact Hhead|]. rewrite Hf2. split.
    + intros H. destruct (Hquiet H) as (-> & Hf & _). split; [reflexivity|exact Hf].
    + intros H _. apply Hinv; [exact H|reflexivity].
  - exists evs1. split; [exact H1|]. split; [exact Hhead|]. split.
    + intros H. destruct (Hquiet H) as (_ & _ & Hn). discriminate.
    + discriminate.
Qed.

Lemma end_marker_no_sentence b : sentences [end_marker b] = [].
Proof.
  unfold sentences, is_sentence. cbn. now rewrite andb_false_r.
Qed.

(** A whole run: a stretch that sends no end marker, then at most the end
    marker, after which the channel is closed. *)
Lemma loop_sends stream :
  forall w,
    exists w1 evs tail,
      sends_ w w1 evs
      /\ sentenceChannel (fst (loop ctx stream w))
         = (sentenceChannel w1 ++ tail)%list
      /\ (tail = []
          \/ exists b, tail = [end_marker b]
                       /\ snd (loop ctx stream w) = Go.Closed).
Proof.
  induction stream as [|[message err] rest IH]; intros w;
    cbn [loop]; unfold select_default;
    (destruct (ctx (selects w));
     [exists (looked w), [], []; cbn;
      split; [apply sends_nothing; auto|]; split; [now rewrite app_nil_r|auto]
     |]).
  - exists (looked w), [], []. cbn.
    split; [apply sends_nothing; auto|]. split; [now rewrite app_nil_r|auto].
  - destruct (Go.is_EOF err) eqn:Herr.
    + rewrite body_unfold, Herr.
      destruct (on_EOF_cases (looked w)) as (w' & -> & _ & [[_ Hc]|[_ Hc]]);
        cbn [fst snd].
      * exists (looked w), [], []. rewrite Hc, app_nil_r.
        split; [apply sends_nothing; auto|]. auto.
      * exists (looked w), [], [end_marker (buffer (looked w))].
        split; [apply sends_nothing; auto|]. split; [exact Hc|].
        right. eexists. split; reflexivity.
    + destruct message as [m|].
      2:{ rewrite body_unfold, Herr.
          exists (looked w), [], []. cbn.
          split; [apply sends_nothing; auto|].
          split; [now rewrite app_nil_r|auto]. }
      destruct (body_item_sends m err (looked w) Herr) as (evs & Hevs & _).
      destruct (body ctx (Some m, err) (looked w)) as [[] w2|sig w2];
        cbn [state_of] in Hevs.
      * destruct (IH w2) as (w3 & evs' & tail & H23 & Hc & Htail).
        exists w3, (evs ++ evs')%list, tail. split; [|split; assumption].
        eapply sends_trans; [|exact H23].
        eapply nothing_then_sends; [| |exact Hevs]; reflexivity.
      * exists w2, evs, []. cbn. split; [|split; [now rewrite app_nil_r|auto]].
        eapply nothing_then_sends; [| |exact Hevs]; reflexivity.
Qed.

Lemma worker_fst stream :
  fst (worker ctx stream) = sentenceChannel (fst (loop ctx stream init)).
Proof. unfold worker. destruct (loop ctx stream init). reflexivity. Qed.

Lemma worker_snd stream :
  snd (worker ctx stream) = snd (loop ctx stream init).
Proof. unfold worker. destruct (loop ctx stream init). reflexivity. Qed.

Lemma before_last {A : Type} (l pre post : list A) (x y : A) :
  (l ++ [x] = pre ++ y :: post)%list -> post = [] \/ In y l.
Proof.
  destruct post as [|z post'] using rev_ind; [auto|].
  intros H. right.
  change (pre ++ y :: post' ++ [z])%list
    with (pre ++ (y :: post') ++ [z])%list in H.
  rewrite app_assoc in H. apply app_inj_tail in H. destruct H as [-> _].
  apply in_elt.
Qed.

(** C2. In every run, whatever the stream yields and whenever the
    context is seen cancelled: an event with IsEnd = true on the channel
    has no event after it, and the channel is closed once it is sent. *)
Theorem no_event_after_end stream pre ev post :
  fst (worker ctx stream) = (pre ++ ev :: post)%list ->
  IsEnd ev = true ->
  post = [] /\ snd (worker ctx stream) = Go.Closed.
Proof.
  rewrite worker_fst, worker_snd. intros Hch Hend.
  destruct (loop_sends stream init) as (w1 & evs & tail & Hs & Hc & Htail).
  destruct Hs as [Hc1 Hne _ _ _]. cbn in Hc1. rewrite Hc1 in Hc.
  rewrite Hc in Hch. clear Hc Hc1.
  assert (Hnot : ~ In ev evs).
  { intros Hin. unfold not_end in Hne. rewrite Forall_forall in Hne.
    apply Hne in Hin. congruence. }
  destruct Htail as [->|(b & -> & Hst)].
  - rewrite app_nil_r in Hch. exfalso. apply Hnot. rewrite Hch. apply in_elt.
  - split; [|exact Hst].
    destruct (before_last _ _ _ _ _ Hch) as [H|H]; [exact H|contradiction].
Qed.

(** Once [isFirst] is clear, no later event carries the flag. *)
Lemma loop_unflagged stream w :
  isFirst w = false ->
  exists evs,
    sentences (sentenceChannel (fst (loop ctx stream w)))
    = (sentences (sentenceChannel w) ++ evs)%list
    /\ unflagged evs.
Proof.
  intros Hf.
  destruct (loop_sends stream w) as (w1 & evs & tail & Hs & Hc & Htail).
  destruct Hs as [Hc1 _ Hoff _ _]. destruct (Hoff Hf) as [_ Hu].
  exists (sentences evs). rewrite Hc, Hc1, !sentences_app.
  split; [|apply unflagged_sentences, Hu].
  destruct Htail as [->|(b & -> & _)].
  - now rewrite app_nil_r.
  - now rewrite end_marker_no_sentence, app_nil_r.
Qed.

(** The run up to and after the first call of the Segmenter: the sentence
    events are those of that call, which start with a flagged one if there
    are any, and then events without the flag. *)
Lemma loop_first_invocation quiet :
  forall d rest w,
    Forall quiet_item quiet ->
    is_item d = true -> invokes true d = true ->
    isFirst w = true ->
    exists first_call later_calls,
      sentences (sentenceChannel (fst (loop ctx (quiet ++ d :: rest) w)))
      = (sentences (sentenceChannel w) ++ first_call ++ later_calls)%list
      /\ sentences (sentenceChannel (fst (loop ctx (quiet ++ [d]) w)))
         = (sentences (sentenceChannel w) ++ first_call)%list
      /\ head_flagged first_call
      /\ unflagged later_calls.
Proof.
  assert (Hstopped : forall w : Worker,
    exists first_call later_calls : list LLMResponseStruct,
      sentences (sentenceChannel w)
      = (sentences (sentenceChannel w) ++ first_call ++ later_calls)%list
      /\ sentences (sentenceChannel w)
         = (sentences (sentenceChannel w) ++ first_call)%list
      /\ head_flagged first_call /\ unflagged later_calls).
  { intros w. exists [], []. cbn. rewrite app_nil_r.
    repeat split; constructor. }
  induction quiet as [|q quiet IH]; intros d rest w Hquiet Hitem Hinv Hf.
  - cbn [app loop]. unfold select_default.
    destruct (ctx (selects w)); [apply (Hstopped (looked w))|].
    destruct d as [[m|] err]; [|discriminate].
    cbn in Hitem. apply negb_true_iff in Hitem.
    destruct (body_item_sends m err (looked w) Hitem)
      as (evs & Hevs & Hhead & _ & Hclear).
    cbn [isFirst looked] in Hhead, Hclear. rewrite Hf in Hhead, Hclear.
    specialize (Hhead eq_refl). specialize (Hclear Hinv).
    destruct Hevs as [Hc _ _ _ _]. cbn [sentenceChannel looked] in Hc.
    destruct (body ctx (Some m, err) (looked w)) as [[] w2|sig w2];
      cbn [state_of is_next fst] in *.
    + destruct (loop_unflagged rest w2 (Hclear eq_refl)) as (later & Hl & Hu).
      exists (sentences evs), later. rewrite Hl, Hc, sentences_app.
      split; [now rewrite app_assoc|]. split; [|auto].
      unfold select_default. destruct (ctx (selects w2)); cbn;
        now rewrite Hc, sentences_app.
    + exists (sentences evs), []. rewrite Hc, sentences_app, app_nil_r.
      repeat split; auto. constructor.
  - inversion Hquiet as [|q' quiet' [Hq Hnoinv] Hquiet']; subst.
    cbn [app loop]. unfold select_default.
    destruct (ctx (selects w)); [apply (Hstopped (looked w))|].
    destruct q as [[m|] err]; [|discriminate].
    cbn in Hq. apply negb_true_iff in Hq.
    destruct (body_item_sends m err (looked w) Hq)
      as (evs & Hevs & _ & Hstay & _).
    cbn [isFirst looked] in Hstay. rewrite Hf in Hstay.
    destruct (Hstay Hnoinv) as [Hnone Hf2].
    destruct Hevs as [Hc _ _ _ _]. cbn [sentenceChannel looked] in Hc.
    assert (Hsame : forall w2, sentenceChannel w2 = (sentenceChannel w ++ evs)%list ->
              sentences (sentenceChannel w2) = sentences (sentenceChannel w)).
    { intros w2 ->. now rewrite sentences_app, Hnone, app_nil_r. }
    destruct (body ctx (Some m, err) (looked w)) as [[] w2|sig w2];
      cbn [state_of fst] in *.
    + rewrite <- (Hsame w2 Hc). apply IH; assumption.
    + rewrite <- (Hsame w2 Hc). apply Hstopped.
Qed.

(** X24.  For every Segmenter: among the sentence events of a run, every
    one after the first is without the first-sentence flag.  The first
    carries the flag exactly when it comes from the first call of the
    Segmenter, that is, when the first delta with a boundary character has
    a sentence sent for it: the flag is cleared at the end of that call
    whatever the call extracted. *)
Theorem first_sentence_flag stream :
  later_unflagged (sentences (fst (worker ctx stream)))
  /\ forall quiet d rest ev later,
       stream = (quiet ++ d :: rest)%list ->
       Forall quiet_item quiet ->
       is_item d = true -> invokes true d = true ->
       sentences (fst (worker ctx stream)) = ev :: later ->
       (IsStart ev = true
        <-> sentences (fst (worker ctx (quiet ++ [d]))) <> []).
Proof.
  split.
  - rewrite worker_fst.
    destruct (loop_sends stream init) as (w1 & evs & tail & Hs & Hc & Htail).
    destruct Hs as [Hc1 _ _ Hlater _]. cbn in Hc1.
    rewrite Hc, Hc1, sentences_app.
    destruct Htail as [->|(b & -> & _)].
    + now rewrite app_nil_r.
    + now rewrite end_marker_no_sentence, app_nil_r.
  - intros quiet d rest ev later -> Hquiet Hitem Hinv.
    rewrite !worker_fst.
    destruct (loop_first_invocation quiet d rest init Hquiet Hitem Hinv eq_refl)
      as (first_call & later_calls & -> & -> & Hhead & Hu).
    cbn [init sentenceChannel sentences filter app].
    destruct first_call as [|ev1 first_call]; cbn [app].
    + intros Hev. split; [|congruence].
      intros Hflag. unfold unflagged in Hu. rewrite Hev in Hu.
      apply Forall_inv in Hu. congruence.
    + intros [= <- _]. split; [discriminate|]. intros _. exact Hhead.
Qed.

(** *** Runs whose context is never seen cancelled *)

Section NeverCancelled.
Hypothesis Hnever : forall n, ctx n = false.

Lemma send_sentence_next sentence w :
  is_next (send_sentence ctx sentence w) = true.
Proof.
  unfold send_sentence.
  destruct (nonempty sentence); [|reflexivity].
  destruct w as [ft buf first ff ch n].
  unfold Go.when, Go.bind, Go.gets, Go.modify, Go.ret, select_send.
  destruct ff; cbn; rewrite Hnever; destruct first; reflexivity.
Qed.

Lemma send_sentences_next ss : forall w,
  is_next (send_sentences ctx ss w) = true.
Proof.
  induction ss as [|sentence rest IH]; intros w; [reflexivity|].
  cbn [send_sentences]. unfold Go.bind.
  pose proof (send_sentence_next sentence w) as H.
  destruct (send_sentence ctx sentence w); [apply IH|discriminate].
Qed.

Lemma body_item_next m err w :
  Go.is_EOF err = false -> is_next (body ctx (Some m, err) w) = true.
Proof.
  intros Herr. rewrite body_unfold, Herr.
  assert (H : is_next (Go.when (nonempty (Content m))
                         (on_content ctx (Content m)) w) = true).
  { destruct (nonempty (Content m)); [|reflexivity]. cbn [Go.when].
    rewrite on_content_unfold. cbv zeta.
    destruct (ContainsSentenceSeparator _ _); [|reflexivity].
    destruct (ExtractSmartSentences _ _ _ _) as [ss remaining].
    pose proof (send_sentences_next ss
                  (set_buffer (buffer w ++ Content m)
                     (set_fullText (fullText w ++ Content m) w))) as Hss.
    destruct (send_sentences ctx ss _); [reflexivity|discriminate]. }
  destruct (Go.when (nonempty (Content m)) _ w) as [[] w1|]; [|discriminate].
  destruct (Nat.ltb 0 _); [|reflexivity]. cbn [Go.when].
  unfold on_tool_calls, Go.bind, Go.gets, select_send.
  rewrite Hnever. reflexivity.
Qed.

Lemma loop_items_then_EOF items last_message :
  forall w0,
    Forall (fun r => is_item r = true) items ->
    exists w w',
      loop ctx items w0 = (w, Go.Waiting)
      /\ loop ctx (items ++ [(last_message, Some Go.io_EOF)]) w0
         = (w', Go.Closed)
      /\ sentenceChannel w'
         = (sentenceChannel w ++ [end_marker (buffer w)])%list.
Proof.
  induction items as [|r items IH]; intros w0 Hitems.
  - cbn [app loop]. unfold select_default. rewrite Hnever.
    rewrite body_unfold. cbn [Go.is_EOF].
    destruct (on_EOF_cases (looked w0)) as (w' & -> & _ & [[H _]|[_ Hc]]).
    + rewrite Hnever in H. discriminate.
    + exists (looked w0), w'. auto.
  - inversion Hitems as [|r' items' Hr Hitems']; subst.
    cbn [app loop]. unfold select_default. rewrite Hnever.
    destruct r as [[m|] err]; [|discriminate].
    cbn in Hr. apply negb_true_iff in Hr.
    pose proof (body_item_next m err (looked w0) Hr) as Hnext.
    destruct (body ctx (Some m, err) (looked w0)) as [[] w2|]; [|discriminate].
    apply IH. assumption.
Qed.

(** C1. When the context is never seen cancelled and the stream yields
    messages and then the end-of-stream error: the goroutine, in the state
    [w] it has reached when the end of the stream arrives, sends one more
    event, the end marker whose text is the content of the buffer (the
    empty text when the buffer is empty), and this is the last event
    before the channel is closed.  A stream that yields nothing before its
    end gives exactly one event, the end marker with empty text. *)
Theorem end_of_stream_marker items last_message :
  Forall (fun r => is_item r = true) items ->
  let stream := (items ++ [(last_message, Some Go.io_EOF)])%list in
  (exists w,
     loop ctx items init = (w, Go.Waiting)
     /\ snd (worker ctx stream) = Go.Closed
     /\ (nonempty (buffer w) = true ->
         fst (worker ctx stream)
         = (sentenceChannel w
            ++ [ {| Text := buffer w; IsStart := false; IsEnd := true;
                    ToolCalls := [] |} ])%list)
     /\ (buffer w = "" ->
         fst (worker ctx stream)
         = (sentenceChannel w
            ++ [ {| Text := ""; IsStart := false; IsEnd := true;
                    ToolCalls := [] |} ])%list))
  /\ worker ctx [(last_message, Some Go.io_EOF)]
     = ([ {| Text := ""; IsStart := false; IsEnd := true; ToolCalls := [] |} ],
        Go.Closed).
Proof.
  intros Hitems stream.
  assert (Hrun : forall items', Forall (fun r => is_item r = true) items' ->
    exists w,
      loop ctx items' init = (w, Go.Waiting)
      /\ worker ctx (items' ++ [(last_message, Some Go.io_EOF)])
         = ((sentenceChannel w ++ [end_marker (buffer w)])%list, Go.Closed)).
  { intros items' H'.
    destruct (loop_items_then_EOF items' last_message init H')
      as (w & w' & Hw & Hw' & Hc).
    exists w. split; [exact Hw|]. unfold worker. rewrite Hw', Hc. reflexivity. }
  split.
  - destruct (Hrun items Hitems) as (w & Hw & Hrunw).
    exists w. subst stream. rewrite Hrunw. cbn [fst snd].
    split; [exact Hw|]. split; [reflexivity|]. split.
    + intros _. reflexivity.
    + intros Hb. unfold end_marker. rewrite Hb. reflexivity.
  - destruct (Hrun [] (Forall_nil _)) as (w & Hw & Hrunw).
    cbn [app] in Hrunw. rewrite Hrunw.
    cbn [loop] in Hw. unfold select_default in Hw. rewrite Hnever in Hw.
    injection Hw as <-. reflexivity.
Qed.

End NeverCancelled.

End ControllerFacts.

(** The statement at a run of the strict Segmenter: two text deltas, the
    second with a boundary, then the end of the stream. *)
Lemma end_of_stream_marker_witness :
  @Controller.worker Controller.strict_segmenter Go.Background
    [Controller.delta "Good"; Controller.delta " morning. Bye";
     Controller.EOF]
  = ([ {| Controller.Text := "Good morning."; Controller.IsStart := true;
          Controller.IsEnd := false; Controller.ToolCalls := [] |};
       {| Controller.Text := " Bye"; Controller.IsStart := false;
          Controller.IsEnd := true; Controller.ToolCalls := [] |} ],
     Go.Closed).
Proof.
  destruct (@end_of_stream_marker Controller.strict_segmenter Go.Background
              (fun _ => eq_refl)
              [Controller.delta "Good"; Controller.delta " morning. Bye"]
              None)
    as [(w & Hw & Hclosed & Hrest & _) _].
  - repeat constructor.
  - vm_compute in Hw. injection Hw as <-.
    apply injective_projections; [exact (Hrest eq_refl)|exact Hclosed].
Defined.

Lemma no_event_after_end_witness :
  @nil Controller.LLMResponseStruct = []
  /\ snd (@Controller.worker Controller.strict_segmenter Go.Background
            [Controller.delta "Good morning. Bye"; Controller.EOF])
     = Go.Closed.
Proof.
  apply (@no_event_after_end Controller.strict_segmenter Go.Background
           [Controller.delta "Good morning. Bye"; Controller.EOF]
           [ {| Controller.Text := "Good morning."; Controller.IsStart := true;
                Controller.IsEnd := false; Controller.ToolCalls := [] |} ]
           (Controller.end_marker " Bye")
           []).
  - vm_compute. reflexivity.
  - reflexivity.
Defined.

(** The statement at a run of the strict Segmenter in which the first
    call of the Segmenter extracts a sentence. *)
Lemma first_sentence_flag_witness :
  true = true
  <-> Controller.sentences
        (fst (@Controller.worker Controller.strict_segmenter Go.Background
                ([Controller.delta "Good"]
                 ++ [Controller.delta " morning. Bye"])))
      <> [].
Proof.
  apply (proj2 (@first_sentence_flag Controller.strict_segmenter
                  Go.Background
                  [Controller.delta "Good"; Controller.delta " morning. Bye";
                   Controller.EOF])
           [Controller.delta "Good"] (Controller.delta " morning. Bye")
           [Controller.EOF]
           {| Controller.Text := "Good morning."; Controller.IsStart := true;
              Controller.IsEnd := false; Controller.ToolCalls := [] |}
           []);
    try reflexivity.
  repeat constructor.
Defined.

(** ** TTS fan-out adapter *)

Section FanOutFacts.
Import Schema FanOut.
Context {World : Type} {Provider : BaseTTSProvider}.
Variable options : Types.Options World.
Variable ctx : Go.Ctx.
Variable gone : nat -> bool.
Hypothesis Hnever : forall n, ctx n = false.
Hypothesis Hattentive : forall n, gone n = false.

Lemma update_nth_last {A : Type} (f : A -> A) (l : list A) (x : A) :
  update_nth (List.length l) f (l ++ [x]) = (l ++ [f x])%list.
Proof. induction l as [|y l IH]; cbn; [reflexivity|now rewrite IH]. Qed.

Lemma map_nth_seq {A : Type} (l : list A) (d : A) :
  map (fun i => nth i l d) (seq 0 (List.length l)) = l.
Proof.
  induction l as [|x l IH]; [reflexivity|].
  cbn [List.length seq map nth]. rewrite <- seq_shift, map_map.
  cbn [nth]. now rewrite IH.
Qed.

(** Relaying the frames of one sentence into the newest pipe. *)
Lemma relay_all frames :
  forall w ps cs,
    pipes w = (ps ++ [ {| chunks := cs; closed := false |} ])%list ->
    exists w',
      relay World ctx gone (List.length ps) frames w = Go.Next tt w'
      /\ pipes w'
         = (ps ++ [ {| chunks := cs ++ map frame_chunk frames;
                       closed := false |} ])%list
      /\ sentenceStream w' = sentenceStream w
      /\ world w' = world w.
Proof.
  induction frames as [|frame rest IH]; intros w ps cs Hp.
  - exists w. cbn. rewrite app_nil_r. auto.
  - cbn [relay]. unfold Go.bind, cancelled, send_chunk, send_closed, Go.bind,
      Go.when, Go.modify, Go.ret.
    rewrite Hnever. cbn. rewrite Hattentive. cbn. rewrite Hp, update_nth_last.
    cbn [chunks closed].
    edestruct IH as (w' & -> & Hp' & Hs' & Hw'); [cbn; reflexivity|].
    exists w'. split; [reflexivity|]. rewrite Hp', Hs', Hw'. cbn.
    rewrite <- app_assoc. auto.
Qed.

Lemma call_eq cb (w : Worker World) :
  call World cb w
  = Go.Next tt {| pipes := pipes w; sentenceStream := sentenceStream w;
                  world := fire cb (world w); selects := selects World w;
                  sends := sends World w |}.
Proof. destruct cb, w; reflexivity. Qed.

(** The turn for a sentence whose synthesis succeeds. *)
Lemma body_synthesised m w :
  synthesised options m ->
  exists w',
    body World options ctx gone (received m) w = Go.Next tt w'
    /\ pipes w' = (pipes w ++ [whole (Content m) (frames_of options m)])%list
    /\ sentenceStream w' = (sentenceStream w ++ [List.length (pipes w)])%list
    /\ world w'
       = fire (Types.ChunkEndCallback options)
           (fire (Types.ChunkStartCallback options) (world w)).
Proof.
  intros [frames Hok]. unfold frames_of. rewrite Hok. cbn [fst].
  destruct w as [ps ss x n k].
  unfold body, received, Go.bind, Go.ret. rewrite call_eq.
  unfold new_pipe, send_outer, send_chunk, send_closed, Go.bind, Go.when,
    Go.modify, Go.ret.
  cbn. repeat (rewrite Hattentive; cbn).
  rewrite Hok, update_nth_last. cbn.
  match goal with
  | |- context [relay World ctx gone (List.length ps) frames ?w2] =>
      destruct (relay_all frames w2 ps [ {| Text := Content m; Data := [] |} ]
                  eq_refl)
        as (w3 & Hr & Hp3 & Hs3 & Hw3)
  end.
  rewrite Hr. unfold close, Go.modify. rewrite call_eq.
  eexists. split; [reflexivity|]. cbn.
  rewrite Hp3, Hs3, Hw3, update_nth_last. cbn. auto.
Qed.

(** The turn for a sentence whose synthesis fails: the goroutine
    returns between the two callbacks. *)
Lemma body_synthesis_fails m w :
  synthesis_fails options m ->
  exists w',
    body World options ctx gone (received m) w = Go.Stop Go.SigReturn w'
    /\ pipes w' = (pipes w ++ [label_only (Content m)])%list
    /\ sentenceStream w' = (sentenceStream w ++ [List.length (pipes w)])%list
    /\ world w' = fire (Types.ChunkStartCallback options) (world w).
Proof.
  intros (chan & e & Hfail).
  destruct w as [ps ss x n k].
  unfold body, received, Go.bind, Go.ret. rewrite call_eq.
  unfold new_pipe, send_outer, send_chunk, send_closed, Go.bind, Go.when,
    Go.modify, Go.ret.
  cbn. repeat (rewrite Hattentive; cbn). rewrite Hfail, update_nth_last.
  unfold close, Go.bind, Go.modify, Go.stop.
  destruct chan; cbn; rewrite update_nth_last;
    (eexists; split; [reflexivity|]; cbn; auto).
Qed.

(** A run of sentences that are all synthesised to the end. *)
Lemma loop_synthesised before :
  forall rest w,
    Forall (synthesised options) before ->
    exists w',
      loop World options ctx gone (map received before ++ rest) w
      = loop World options ctx gone rest w'
      /\ pipes w'
         = (pipes w
            ++ map (fun m => whole (Content m) (frames_of options m)) before)%list
      /\ sentenceStream w'
         = (sentenceStream w
            ++ seq (List.length (pipes w)) (List.length before))%list
      /\ world w' = after_sentences options (List.length before) (world w).
Proof.
  induction before as [|m before IH]; intros rest w Hok.
  - exists w. cbn. rewrite !app_nil_r. auto.
  - inversion Hok as [|m' before' Hm Hbefore]; subst.
    cbn [map app loop]. unfold cancelled at 1. rewrite Hnever.
    match goal with
    | |- context [body World options ctx gone (received m) ?w1] =>
        destruct (body_synthesised m w1 Hm) as (w2 & -> & Hp2 & Hs2 & Hw2)
    end.
    destruct (IH rest w2 Hbefore) as (w' & -> & Hp' & Hs' & Hw').
    exists w'. split; [reflexivity|].
    rewrite Hp', Hs', Hw', Hp2, Hs2, Hw2. cbn [pipes sentenceStream world].
    rewrite length_app, Nat.add_1_r, <- !app_assoc. cbn. auto.
Qed.

(** A run in which the sentences of [before] are synthesised to the end
    and synthesis of the next one fails: the goroutine ends there. *)
Lemma loop_until_failure before failing after w :
  Forall (synthesised options) before ->
  synthesis_fails options failing ->
  exists w',
    loop World options ctx gone
      (map received before ++ received failing :: after) w
    = (w', Go.Closed)
    /\ pipes w'
       = (pipes w
          ++ map (fun m => whole (Content m) (frames_of options m)) before
          ++ [label_only (Content failing)])%list
    /\ sentenceStream w'
       = (sentenceStream w
          ++ seq (List.length (pipes w)) (S (List.length before)))%list
    /\ world w'
       = fire (Types.ChunkStartCallback options)
           (after_sentences options (List.length before) (world w)).
Proof.
  intros Hok Hfail.
  destruct (loop_synthesised before (received failing :: after) w Hok)
    as (w1 & -> & Hp1 & Hs1 & Hw1).
  cbn [loop]. unfold cancelled at 1. rewrite Hnever.
  match goal with
  | |- context [body World options ctx gone (received failing) ?w2] =>
      destruct (body_synthesis_fails failing w2 Hfail)
        as (w3 & -> & Hp3 & Hs3 & Hw3)
  end.
  exists w3. split; [reflexivity|].
  rewrite Hp3, Hs3, Hw3. cbn [pipes sentenceStream world].
  rewrite Hp1, Hs1, Hw1, length_app, length_map, <- !app_assoc.
  split; [reflexivity|]. split; [|reflexivity].
  rewrite seq_S. reflexivity.
Qed.

End FanOutFacts.

(** C4 (as the code has it).  When the context is never seen cancelled
    and the reader keeps its streams open: if the sentences of [before]
    are synthesised and synthesis of the next sentence returns an error,
    that sentence's sub-stream is closed holding only its label chunk and
    the goroutine returns.  The outer stream is closed with the sub-streams
    of [before] and of the failing sentence; no sentence event after it
    gets a sub-stream.  With three sentence events and a failure on the
    second that makes two sub-streams. *)
Theorem synthesis_failure_ends_outer_stream
  {World : Type} {Provider : FanOut.BaseTTSProvider}
  (ctx : Go.Ctx) (gone : nat -> bool) before failing after
  (opts : list (Types.Option_ World)) (w0 : World) :
  (forall n, ctx n = false) ->
  (forall n, gone n = false) ->
  let options := Types.GetImplSpecificOptions Types.baseOptions opts in
  Forall (FanOut.synthesised options) before ->
  FanOut.synthesis_fails options failing ->
  let run :=
    FanOut.Transform ctx gone
      (map FanOut.received before ++ FanOut.received failing :: after)
      opts w0 in
  snd run = Go.Closed
  /\ FanOut.sub_streams (fst run)
     = (map (fun m => FanOut.whole (Schema.Content m)
                        (FanOut.frames_of options m)) before
        ++ [FanOut.label_only (Schema.Content failing)])%list
  /\ List.length (FanOut.sub_streams (fst run)) = S (List.length before).
Proof.
  intros Hnever Hattentive options Hok Hfail run.
  destruct (loop_until_failure options ctx gone Hnever Hattentive
              before failing after (FanOut.init World w0) Hok Hfail)
    as (w' & Hrun & Hp & Hs & _).
  assert (Hsub : FanOut.sub_streams (fst run)
                 = (map (fun m => FanOut.whole (Schema.Content m)
                                    (FanOut.frames_of options m)) before
                    ++ [FanOut.label_only (Schema.Content failing)])%list).
  { subst run. unfold FanOut.Transform. fold options. rewrite Hrun.
    cbn [fst]. unfold FanOut.sub_streams. rewrite Hs, Hp. cbn [app FanOut.init
      FanOut.pipes FanOut.sentenceStream List.length].
    match goal with
    | |- map _ (seq 0 ?n) = ?L =>
        replace n with (List.length L)
          by (rewrite length_app, length_map, Nat.add_1_r; reflexivity);
        apply map_nth_seq
    end. }
  split; [|split].
  - subst run. unfold FanOut.Transform. fold options. rewrite Hrun.
    reflexivity.
  - exact Hsub.
  - rewrite Hsub, length_app, length_map, Nat.add_1_r. reflexivity.
Qed.

(** Three sentence events, the backend failing on the second. *)
Lemma synthesis_failure_ends_outer_stream_witness :
  let run :=
    @FanOut.Transform FanOut.Meter FanOut.fails_on_two Go.Background
      FanOut.attentive
      [FanOut.sentence "one"; FanOut.sentence "two"; FanOut.sentence "three"]
      FanOut.metered {| FanOut.started := 0; FanOut.ended := 0 |} in
  snd run = Go.Closed
  /\ FanOut.sub_streams (fst run)
     = [FanOut.whole "one" [[Byte.x01]; [Byte.x02]]; FanOut.label_only "two"]
  /\ List.length (FanOut.sub_streams (fst run)) = 2.
Proof.
  apply (@synthesis_failure_ends_outer_stream FanOut.Meter FanOut.fails_on_two
           Go.Background FanOut.attentive
           [ {| Schema.Role := Schema.Assistant; Schema.Content := "one";
                Schema.ToolCalls := [] |} ]
           {| Schema.Role := Schema.Assistant; Schema.Content := "two";
              Schema.ToolCalls := [] |}
           [FanOut.sentence "three"]
           FanOut.metered {| FanOut.started := 0; FanOut.ended := 0 |}).
  - reflexivity.
  - reflexivity.
  - repeat constructor. eexists. reflexivity.
  - eexists. eexists. reflexivity.
Defined.

(** C4, the claim as stated fails: three sentence events with a failure
    on the second give two sub-streams on the outer stream, not three;
    the third sentence gets none. *)
Lemma third_sentence_gets_no_sub_stream :
  let run :=
    @FanOut.Transform FanOut.Meter FanOut.fails_on_two Go.Background
      FanOut.attentive
      [FanOut.sentence "one"; FanOut.sentence "two"; FanOut.sentence "three"]
      FanOut.metered {| FanOut.started := 0; FanOut.ended := 0 |} in
  List.length (FanOut.sub_streams (fst run)) = 2
  /\ List.length (FanOut.sub_streams (fst run)) <> 3
  /\ snd run = Go.Closed.
Proof.
  vm_compute. repeat split. discriminate.
Qed.

(** C5 (what the code does).  With both callbacks set and metering: for
    a sentence whose synthesis fails the start callback has run and the
    end callback has not, and the run ends there.  With three sentence
    events and a failure on the second the meter stands at two starts and
    one end; with the failing sentence alone, at one start and no end.
    When no synthesis fails the two counts agree.  [Invoke], on the same
    failing text, runs both callbacks. *)
Theorem end_callback_skipped_on_failure :
  let m0 := {| FanOut.started := 0; FanOut.ended := 0 |} in
  let run input :=
    @FanOut.Transform FanOut.Meter FanOut.fails_on_two Go.Background
      FanOut.attentive input FanOut.metered m0 in
  FanOut.world (fst (run [FanOut.sentence "two"]))
  = {| FanOut.started := 1; FanOut.ended := 0 |}
  /\ FanOut.world
       (fst (run [FanOut.sentence "one"; FanOut.sentence "two";
                  FanOut.sentence "three"]))
     = {| FanOut.started := 2; FanOut.ended := 1 |}
  /\ FanOut.world
       (fst (run [FanOut.sentence "one"; FanOut.sentence "three"]))
     = {| FanOut.started := 2; FanOut.ended := 2 |}
  /\ snd (@FanOut.Invoke FanOut.Meter FanOut.fails_on_two "two"
             FanOut.metered m0)
     = {| FanOut.started := 1; FanOut.ended := 1 |}.
Proof.
  repeat split.
Qed.

(** ** Playback state machine: further properties *)

Section PlaybackMore.
Import Playback PlaybackSpec.

Lemma exec_cases op a a' :
  exec op a = Ok a' ->
  (State a' = State a \/ State a' = AudioChannelStateIdle
   \/ State a' = AudioChannelStatePlaying \/ State a' = AudioChannelStatePause)
  /\ (Cond a <> None -> Cond a' <> None)
  /\ (Cancel a <> None -> Cancel a' <> None).
Proof.
  destruct op; cbn [exec]; unfold SetPlay, SetPause, SetStop, CancelCtx,
    RestartSessionCtx, Broadcast, call_Cancel, set_State; cbn.
  - destruct (Cond a); [|discriminate]. intros [= <-]. cbn.
    repeat split; auto. discriminate.
  - destruct (String.eqb _ _); cbn.
    + destruct (Cond a); [|discriminate]. intros [= <-]. cbn.
      repeat split; auto. discriminate.
    + intros [= <-]. auto.
  - destruct (_ || _); cbn.
    + destruct (Cond a); [|discriminate]. intros [= <-]. cbn.
      repeat split; auto. discriminate.
    + intros [= <-]. auto.
  - destruct (Cancel a); [|discriminate]. intros [= <-]. cbn.
    repeat split; auto.
  - destruct (Cancel a); [|discriminate]. intros [= <-]. cbn.
    repeat split; auto. discriminate.
  - intros [= <-]. auto.
Qed.

(** X1. Whatever control operations run and in whatever order, the
    [State] field never leaves the three constants idle, playing and
    pause: if it holds one of them before a sequence of operations that
    returns, it holds one of them after. *)
Theorem state_stays_known ops a a' :
  known_state a -> exec_all ops a = Ok a' -> known_state a'.
Proof.
  revert a. induction ops as [|op ops IH]; intros a Hk; cbn [exec_all].
  - intros [= <-]. exact Hk.
  - destruct (exec op a) as [a1|] eqn:E; [|discriminate].
    apply IH. destruct (exec_cases op a a1 E) as [Hs _].
    unfold known_state in *. destruct Hs as [->|[->|[->| ->]]]; auto.
Qed.

Lemma state_stays_known_witness :
  known_state
    {| State := AudioChannelStateIdle; Cond := Some {| broadcasts := 3 |};
       Ctx := None; Cancel := None; fresh := 0 |}.
Proof.
  apply (state_stays_known [OpSetPlay; OpSetPause; OpSetStop; OpGetState]
           NewAudioState).
  - left. reflexivity.
  - reflexivity.
Defined.

(** X2. Once both the condition variable and the cancel function are
    set, no sequence of control operations panics, and both stay set. *)
Theorem ready_never_panics ops a :
  ready a -> exists a', exec_all ops a = Ok a' /\ ready a'.
Proof.
  revert a. induction ops as [|op ops IH]; intros a Hr; cbn [exec_all].
  - eauto.
  - assert (Hop : exists a1, exec op a = Ok a1).
    { destruct Hr as [Hc Hk].
      destruct (Cond a) as [c|] eqn:Ec; [|contradiction].
      destruct (Cancel a) as [id|] eqn:Ek; [|contradiction].
      destruct op; cbn [exec]; unfold SetPlay, SetPause, SetStop, CancelCtx,
        RestartSessionCtx, Broadcast, call_Cancel, set_State; cbn;
        rewrite ?Ec, ?Ek; try (eexists; reflexivity).
      - destruct (String.eqb _ _); cbn; rewrite ?Ec; eexists; reflexivity.
      - destruct (_ || _); cbn; rewrite ?Ec; eexists; reflexivity. }
    destruct Hop as [a1 E]. rewrite E. apply IH.
    destruct (exec_cases op a a1 E) as (_ & Hc & Hk).
    destruct Hr. split; auto.
Qed.

Lemma ready_never_panics_witness :
  exists a',
    exec_all [OpCancelCtx; OpSetPlay; OpRestartSessionCtx; OpSetPause]
      {| State := AudioChannelStatePlaying;
         Cond := Some {| broadcasts := 0 |};
         Ctx := Some {| ctx_id := 0; ctx_cancelled := false |};
         Cancel := Some 0; fresh := 1 |}
    = Ok a' /\ ready a'.
Proof.
  apply (ready_never_panics
           [OpCancelCtx; OpSetPlay; OpRestartSessionCtx; OpSetPause]).
  split; discriminate.
Defined.

(** X3. [CancelCtx] and [RestartSessionCtx], when the cancel function is
    set, force the state to idle from any state without a broadcast on the
    condition variable; [CancelCtx] leaves the held context cancelled,
    [RestartSessionCtx] installs a context that is not cancelled, with its
    own cancel function. *)
Theorem cancel_and_restart_are_silent a id :
  Cancel a = Some id ->
  (exists a1,
     CancelCtx a = Ok a1
     /\ State a1 = AudioChannelStateIdle
     /\ broadcast_count a1 = broadcast_count a
     /\ (forall c, Ctx a = Some c -> ctx_id c = id -> session_cancelled a1))
  /\ (exists a2 fresh_id,
        RestartSessionCtx a = Ok a2
        /\ State a2 = AudioChannelStateIdle
        /\ broadcast_count a2 = broadcast_count a
        /\ Ctx a2 = Some {| ctx_id := fresh_id; ctx_cancelled := false |}
        /\ Cancel a2 = Some fresh_id).
Proof.
  intros Hk. unfold CancelCtx, RestartSessionCtx, call_Cancel. rewrite Hk.
  split.
  - eexists. split; [reflexivity|]. cbn. repeat split.
    intros c Hc Hid. unfold session_cancelled. cbn. rewrite Hc, Hid.
    rewrite Nat.eqb_refl. eauto.
  - eexists. eexists. split; [reflexivity|]. cbn. auto.
Qed.

Lemma cancel_and_restart_are_silent_witness :
  exists a1,
    CancelCtx {| State := AudioChannelStatePlaying;
                 Cond := Some {| broadcasts := 4 |};
                 Ctx := Some {| ctx_id := 0; ctx_cancelled := false |};
                 Cancel := Some 0; fresh := 1 |} = Ok a1
    /\ State a1 = AudioChannelStateIdle
    /\ broadcast_count a1 = 4.
Proof.
  destruct (cancel_and_restart_are_silent
              {| State := AudioChannelStatePlaying;
                 Cond := Some {| broadcasts := 4 |};
                 Ctx := Some {| ctx_id := 0; ctx_cancelled := false |};
                 Cancel := Some 0; fresh := 1 |} 0 eq_refl)
    as [(a1 & H1 & Hs & Hb & _) _].
  exists a1. auto.
Defined.

(** X4. [SetPause] and [SetStop] are idempotent: run a second time
    straight after the first, each returns the state the first left, with
    no further broadcast.  [SetPlay] is not: it broadcasts every time. *)
Theorem pause_and_stop_idempotent a c :
  Cond a = Some c ->
  (forall a1, SetPause a = Ok a1 -> SetPause a1 = Ok a1)
  /\ (forall a1, SetStop a = Ok a1 -> SetStop a1 = Ok a1)
  /\ (forall a1 a2, SetPlay a = Ok a1 -> SetPlay a1 = Ok a2 ->
        State a2 = AudioChannelStatePlaying
        /\ broadcast_count a2 = 2 + broadcast_count a).
Proof.
  intros Hc. unfold SetPause, SetStop, SetPlay, Broadcast, set_State,
    broadcast_count. cbn. rewrite Hc.
  split; [|split].
  - intros a1. destruct (String.eqb (State a) _) eqn:E.
    + intros [= <-]. reflexivity.
    + intros [= <-]. rewrite E. reflexivity.
  - intros a1. destruct (_ || _) eqn:E.
    + intros [= <-]. reflexivity.
    + intros [= <-]. rewrite E. reflexivity.
  - intros a1 a2 [= <-]. cbn. intros [= <-]. cbn. auto.
Qed.

Lemma pause_and_stop_idempotent_witness :
  SetStop NewAudioState = Ok NewAudioState.
Proof.
  destruct (pause_and_stop_idempotent NewAudioState {| broadcasts := 0 |}
              eq_refl) as (_ & Hstop & _).
  apply Hstop. reflexivity.
Defined.

End PlaybackMore.

(** ** Tool-call accumulator: further properties *)

Section AccumulatorMore.
Import Schema Accumulator AccumulatorSpec.
Context {D : Json.Decoder}.

(** A turn started between turns ends between turns or breaks out of the
    loop; it never panics, and what it sends is well formed. *)
Lemma body_between_turns r w :
  between_turns w ->
  exists sent w',
    (body r w = Go.Next tt w' /\ between_turns w'
     \/ body r w = Go.Stop Go.SigBreak w')
    /\ responseStream w' = (responseStream w ++ sent)%list
    /\ Forall emitted_ok sent.
Proof.
  intros [Hk Hn]. destruct w as [cur buf k out]. cbn in Hk, Hn. subst k.
  assert (Hcur : forall c, cur = Some c -> emitted_ok (completeMessage c)).
  { intros c Hc. right. eauto. }
  destruct r as [[m|] [[|t]|]]; unfold body; cbn [Go.is_EOF Go.when];
    unfold Go.bind, Go.gets, Go.stop, Go.ret, Send, Go.modify; cbn.
  1, 4: destruct cur as [c|]; cbn;
    [exists (cons (completeMessage c) nil) | exists nil]; eexists;
    (split; [right; reflexivity|]); cbn; rewrite ?app_nil_r;
    (split; [reflexivity|]);
    first [ constructor; [apply Hcur; reflexivity|constructor]
          | constructor ].
  1, 3: exists (@nil Message); eexists; (split; [right; reflexivity|]); cbn;
    rewrite ?app_nil_r; (split; [reflexivity|constructor]).
  2: { exists (@nil Message); eexists. split; [left; split; [reflexivity|split; auto]|].
       cbn. rewrite app_nil_r. split; [reflexivity|constructor]. }
  unfold on_message. destruct (ToolCalls m) as [|tc rest] eqn:Etc.
  - destruct (nonempty (Content m)) eqn:Ec; cbn.
    + eexists; eexists.
      split; [left; split; [reflexivity|split; auto]|].
      cbn. split; [reflexivity|]. constructor; [|constructor].
      left. cbn. auto.
    + exists (@nil Message); eexists.
      split; [left; split; [reflexivity|split; auto]|].
      cbn. rewrite app_nil_r. split; [reflexivity|constructor].
  - unfold Go.bind, Go.gets, Go.modify, Go.when, Go.ret, deref_current,
      Send, set_pending. cbn.
    destruct (nonempty (Name (Function tc))) eqn:En; cbn.
    + exists (@nil Message); eexists. split.
      * left. split; [reflexivity|]. split; [reflexivity|].
        cbn. intros c [= <-]. exact En.
      * cbn. rewrite app_nil_r. split; [reflexivity|constructor].
    + destruct cur as [c|]; cbn.
      * destruct (isValidJSON (buf ++ Arguments (Function tc))); cbn.
        -- eexists; eexists. split.
           ++ left. split; [reflexivity|]. split; [reflexivity|].
              cbn. discriminate.
           ++ cbn. split; [reflexivity|]. constructor; [|constructor].
              right. eexists. split; [reflexivity|]. cbn. apply Hn.
              reflexivity.
        -- exists (@nil Message); eexists. split.
           ++ left. split; [reflexivity|]. split; [reflexivity|].
              cbn. intros c' [= <-]. cbn. apply Hn. reflexivity.
           ++ cbn. rewrite app_nil_r. split; [reflexivity|constructor].
      * exists (@nil Message); eexists. split.
        -- left. split; [reflexivity|]. split; [reflexivity|].
           cbn. discriminate.
        -- cbn. rewrite app_nil_r. split; [reflexivity|constructor].
Qed.

Lemma loop_between_turns stream :
  forall w,
    between_turns w ->
    exists sent,
      responseStream (fst (loop stream w)) = (responseStream w ++ sent)%list
      /\ Forall emitted_ok sent
      /\ snd (loop stream w) <> Go.Panicked.
Proof.
  induction stream as [|r stream IH]; intros w Hw; cbn [loop].
  - exists []. cbn. rewrite app_nil_r. repeat split; [constructor|discriminate].
  - destruct (body_between_turns r w Hw)
      as (sent & w' & [[-> Hw']| ->] & Hs & Hok).
    + destruct (IH w' Hw') as (sent' & Hs' & Hok' & Hp).
      exists (sent ++ sent')%list. rewrite Hs', Hs, app_assoc.
      repeat split; [apply Forall_app; auto|exact Hp].
    + exists sent. cbn. repeat split; auto. discriminate.
Qed.

Lemma init_between_turns : between_turns init.
Proof. split; [reflexivity|discriminate]. Qed.

(** X5. [EinoResponseWithTools] never panics: whatever the model's
    stream yields and whatever the decoder accepts, the dereference of
    [currentToolCall] at the send is reached only with a pending call, and
    the goroutine ends by closing the response stream or waits for the
    next [Recv]. *)
Theorem accumulator_never_panics streamReader err :
  snd (EinoResponseWithTools streamReader err) <> Go.Panicked.
Proof.
  unfold EinoResponseWithTools.
  destruct err; [discriminate|]. destruct streamReader as [stream|];
    [|discriminate].
  destruct (loop_between_turns stream init init_between_turns)
    as (_ & _ & _ & Hp).
  destruct (loop stream init). exact Hp.
Qed.

(** X6. Every message [EinoResponseWithTools] sends is either a text
    message, with content and no tool call, or a completed call: an
    assistant message without content that carries exactly one tool call,
    whose name is not empty.  No message carries both text and a tool
    call. *)
Theorem emitted_messages_well_formed streamReader err :
  Forall emitted_ok (fst (EinoResponseWithTools streamReader err)).
Proof.
  unfold EinoResponseWithTools.
  destruct err; [constructor|]. destruct streamReader as [stream|];
    [|constructor].
  destruct (loop_between_turns stream init init_between_turns)
    as (sent & Hs & Hok & _).
  destruct (loop stream init). cbn in *. rewrite Hs. exact Hok.
Qed.

End AccumulatorMore.

Lemma string_app_assoc (a b c : string) :
  ((a ++ b) ++ c = a ++ (b ++ c))%string.
Proof. induction a as [|x a IH]; cbn; [reflexivity|now rewrite IH]. Qed.

Lemma string_app_empty_r (a : string) : (a ++ "" = a)%string.
Proof. induction a as [|x a IH]; cbn; [reflexivity|now rewrite IH]. Qed.

Section AccumulatorRuns.
Import Schema Accumulator AccumulatorSpec.
Context {D : Json.Decoder}.

(** X7. Text deltas pass through: a run of messages without tool calls,
    each received without error, sends those with content, unchanged and
    in order, and drops those without; a tool call pending before the run
    is still pending after it, with the same buffer. *)
Theorem text_deltas_pass_through msgs w :
  Forall (fun m => ToolCalls m = []) msgs ->
  loop (map FanOut.received msgs) w
  = ({| currentToolCall := currentToolCall w;
        toolCallBuffer := toolCallBuffer w;
        isToolCallComplete := isToolCallComplete w;
        responseStream :=
          (responseStream w
           ++ filter (fun m => nonempty (Content m)) msgs)%list |},
     Go.Waiting).
Proof.
  revert w. induction msgs as [|m msgs IH]; intros w Hm.
  - destruct w. cbn. now rewrite app_nil_r.
  - inversion Hm as [|m' msgs' Hnil Hrest]; subst.
    cbn [map loop]. unfold FanOut.received, body.
    cbn [Go.is_EOF Go.when]. unfold Go.bind, Go.ret, on_message.
    rewrite Hnil. cbn [filter].
    destruct (nonempty (Content m)) eqn:Ec; cbn [Go.when].
    + unfold Send, Go.modify. rewrite (IH _ Hrest). cbn.
      destruct m as [role content calls]. cbn in Hnil. subst calls. cbn.
      now rewrite <- app_assoc.
    + unfold Go.ret. rewrite (IH _ Hrest). reflexivity.
Qed.

(** The pending call after a named fragment and some continuations. *)
Lemma continuations_accumulate conts :
  forall id ty name buf out rest,
    never_valid buf conts ->
    loop (map continuation conts ++ rest)
      {| currentToolCall :=
           Some {| ID := id; Type_ := ty;
                   Function := {| Name := name; Arguments := buf |} |};
         toolCallBuffer := buf; isToolCallComplete := false;
         responseStream := out |}
    = loop rest
        {| currentToolCall :=
             Some {| ID := id; Type_ := ty;
                     Function := {| Name := name;
                                    Arguments := String.concat "" (buf :: conts) |} |};
           toolCallBuffer := String.concat "" (buf :: conts);
           isToolCallComplete := false;
           responseStream := out |}.
Proof.
  induction conts as [|a conts IH]; intros id ty name buf out rest Hnv.
  - cbn. reflexivity.
  - destruct Hnv as [Ha Hnv]. cbn [map app loop].
    unfold continuation, fragment, body. cbn [Go.is_EOF Go.when].
    unfold Go.bind, Go.ret, on_message. cbn [ToolCalls Function Name nonempty
      String.eqb negb].
    unfold Go.bind, Go.gets, Go.modify, Go.when, Go.ret, set_pending.
    cbn [currentToolCall toolCallBuffer isToolCallComplete Arguments Function
      with_Arguments ID Type_ Name responseStream].
    rewrite Ha. cbn [Go.ret]. unfold Go.ret.
    cbn [currentToolCall toolCallBuffer isToolCallComplete responseStream].
    assert (Hc : String.concat "" ((buf ++ a)%string :: conts)
                 = String.concat "" (buf :: a :: conts)).
    { clear. destruct conts as [|b conts]; cbn.
      - reflexivity.
      - now rewrite string_app_assoc. }
    refine (eq_trans (IH id ty name (buf ++ a)%string out rest Hnv) _).
    rewrite Hc. reflexivity.
Qed.

(** X8. A call that never completes: a named fragment followed by
    unnamed fragments whose joined argument text the decoder never accepts.
    If the stream then ends, the call is sent once, as it stands, with the
    argument texts joined in order; if the stream fails with another error
    instead, the call is dropped and nothing is sent.  Either way the
    response stream is closed, and whatever call was pending before the
    named fragment arrived is never sent. *)
Theorem unfinished_call_flushed_at_EOF
  role content id ty name args conts last_message w :
  isToolCallComplete w = false ->
  nonempty name = true ->
  never_valid args conts ->
  let stream_to closing :=
    (fragment role content id ty name args
     :: map continuation conts ++ [closing])%list in
  let call :=
    {| ID := id; Type_ := ty;
       Function := {| Name := name;
                      Arguments := String.concat "" (args :: conts) |} |} in
  (responseStream (fst (loop (stream_to (last_message, Some Go.io_EOF)) w))
   = (responseStream w ++ [completeMessage call])%list
   /\ snd (loop (stream_to (last_message, Some Go.io_EOF)) w) = Go.Closed)
  /\ forall t,
       responseStream
         (fst (loop (stream_to (last_message, Some (Go.errors_New t))) w))
       = responseStream w
       /\ snd (loop (stream_to (last_message, Some (Go.errors_New t))) w)
          = Go.Closed.
Proof.
  intros Hk Hname Hnv stream_to call.
  assert (Hfirst : forall closing,
    loop (stream_to closing) w
    = loop [closing]
        {| currentToolCall := Some call;
           toolCallBuffer := String.concat "" (args :: conts);
           isToolCallComplete := false;
           responseStream := responseStream w |}).
  { intros closing. subst stream_to. cbn [loop].
    unfold fragment, body at 1. cbn [Go.is_EOF Go.when].
    unfold Go.bind, Go.ret, on_message.
    cbn [ToolCalls Function Name Arguments]. rewrite Hname.
    unfold Go.bind, Go.gets, Go.modify, Go.when, set_pending.
    cbn [isToolCallComplete responseStream Go.ret]. unfold Go.ret.
    apply (continuations_accumulate conts id ty name args (responseStream w)
             [closing] Hnv). }
  split; [|intros t]; rewrite Hfirst; split; reflexivity.
Qed.

End AccumulatorRuns.

Lemma text_deltas_pass_through_witness :
  fst (@Accumulator.EinoResponseWithTools Json.rfc8259
         (Some [Controller.delta "Hello"; Controller.delta "";
                Controller.delta " world"]) None)
  = [ {| Schema.Role := Schema.Assistant; Schema.Content := "Hello";
         Schema.ToolCalls := [] |};
      {| Schema.Role := Schema.Assistant; Schema.Content := " world";
         Schema.ToolCalls := [] |} ].
Proof.
  pose proof (@text_deltas_pass_through Json.rfc8259
                [ {| Schema.Role := Schema.Assistant;
                     Schema.Content := "Hello"; Schema.ToolCalls := [] |};
                  {| Schema.Role := Schema.Assistant; Schema.Content := "";
                     Schema.ToolCalls := [] |};
                  {| Schema.Role := Schema.Assistant;
                     Schema.Content := " world"; Schema.ToolCalls := [] |} ]
                Accumulator.init) as H.
  exact (f_equal (fun r => Accumulator.responseStream (fst r))
           (H ltac:(repeat constructor))).
Defined.

Lemma unfinished_call_flushed_at_EOF_witness :
  Accumulator.responseStream
    (fst (@Accumulator.loop AccumulatorSpec.rejects_all
            [Accumulator.fragment Schema.Assistant "" "call_1" "function" "get_weather" "{";
             AccumulatorSpec.continuation "oops"; (None, Some Go.io_EOF)]
            Accumulator.init))
  = [ Accumulator.completeMessage
        {| Schema.ID := "call_1"; Schema.Type_ := "function";
           Schema.Function := {| Schema.Name := "get_weather";
                                 Schema.Arguments := "{oops" |} |} ].
Proof.
  destruct (@unfinished_call_flushed_at_EOF AccumulatorSpec.rejects_all
              Schema.Assistant ""
              "call_1" "function" "get_weather" "{" ["oops"] None
              Accumulator.init)
    as [[H _] _]; try reflexivity; first [exact H | split; reflexivity].
Defined.


(** ** Response pipeline controller: further properties *)

Lemma concat_empty_cons (x : string) (xs : list string) :
  String.concat "" (x :: xs) = (x ++ String.concat "" xs)%string.
Proof.
  destruct xs as [|y xs]; cbn; [now rewrite string_app_empty_r|reflexivity].
Qed.

Lemma concat_empty_app (l1 l2 : list string) :
  String.concat "" (l1 ++ l2)
  = (String.concat "" l1 ++ String.concat "" l2)%string.
Proof.
  induction l1 as [|x l1 IH]; [reflexivity|].
  change ((x :: l1) ++ l2)%list with (x :: (l1 ++ l2))%list.
  now rewrite !concat_empty_cons, IH, string_app_assoc.
Qed.

Lemma nonempty_false (s : string) : nonempty s = false -> s = "".
Proof. unfold nonempty. intros H. now apply negb_false_iff, String.eqb_eq in H. Qed.

Section ControllerNeverCancelled.
Import Schema Controller ControllerSpec.
Context {Seg : Segmenter}.
Variable ctx : Go.Ctx.
Hypothesis Hnever : forall n, ctx n = false.

Lemma never_send_sentence s w :
  exists w',
    send_sentence ctx s w = Go.Next tt w'
    /\ sentenceChannel w'
       = (sentenceChannel w ++ fst (sentence_events [s] (isFirst w)))%list
    /\ isFirst w' = snd (sentence_events [s] (isFirst w))
    /\ buffer w' = buffer w.
Proof.
  unfold send_sentence. cbn [sentence_events].
  destruct (nonempty s); cbn [Go.when fst snd].
  - destruct w as [ft buf first ff ch n].
    unfold Go.when, Go.bind, Go.gets, Go.modify, Go.ret, select_send.
    destruct ff; cbn; rewrite Hnever; destruct first; cbn;
      eexists; repeat split; reflexivity.
  - exists w. cbn. now rewrite app_nil_r.
Qed.

Lemma sentence_events_cons s rest first :
  sentence_events (s :: rest) first
  = ((fst (sentence_events [s] first)
      ++ fst (sentence_events rest (snd (sentence_events [s] first))))%list,
     snd (sentence_events rest (snd (sentence_events [s] first)))).
Proof.
  cbn [sentence_events]. destruct (nonempty s); cbn.
  - destruct (sentence_events rest false); reflexivity.
  - destruct (sentence_events rest first); reflexivity.
Qed.

Lemma never_send_sentences ss :
  forall w,
    exists w',
      send_sentences ctx ss w = Go.Next tt w'
      /\ sentenceChannel w'
         = (sentenceChannel w ++ fst (sentence_events ss (isFirst w)))%list
      /\ isFirst w' = snd (sentence_events ss (isFirst w))
      /\ buffer w' = buffer w.
Proof.
  induction ss as [|s rest IH]; intros w.
  - exists w. cbn. now rewrite app_nil_r.
  - cbn [send_sentences]. unfold Go.bind.
    destruct (never_send_sentence s w) as (w1 & -> & Hc1 & Hf1 & Hb1).
    destruct (IH w1) as (w2 & -> & Hc2 & Hf2 & Hb2).
    exists w2. split; [reflexivity|].
    rewrite sentence_events_cons. cbn [fst snd].
    rewrite Hc2, Hf2, Hc1, Hf1, Hb2, Hb1, app_assoc. auto.
Qed.

(** A turn on a message, when no send is given up, is the turn of the
    controller without cancellation. *)
Lemma never_body m err w :
  Go.is_EOF err = false ->
  exists w',
    body ctx (Some m, err) w = Go.Next tt w'
    /\ sentenceChannel w'
       = (sentenceChannel w
          ++ fst (turn_events m (buffer w) (isFirst w)))%list
    /\ (buffer w', isFirst w') = snd (turn_events m (buffer w) (isFirst w)).
Proof.
  intros Herr. rewrite body_unfold, Herr. unfold turn_events.
  assert (Hcontent :
    exists w1,
      Go.when (nonempty (Content m)) (on_content ctx (Content m)) w
      = Go.Next tt w1
      /\ (sentenceChannel w1, (buffer w1, isFirst w1))
         = (let '(evs, st) :=
              if nonempty (Content m) then
                if ContainsSentenceSeparator (Content m) (isFirst w) then
                  let (ss, remaining) :=
                    ExtractSmartSentences (buffer w ++ Content m) 2 100
                      (isFirst w) in
                  (fst (sentence_events ss (isFirst w)), (remaining, false))
                else ([], ((buffer w ++ Content m)%string, isFirst w))
              else ([], (buffer w, isFirst w)) in
            ((sentenceChannel w ++ evs)%list, st))).
  { destruct (nonempty (Content m)); cbn [Go.when].
    2:{ exists w. cbn. now rewrite app_nil_r. }
    rewrite on_content_unfold. cbv zeta. cbn [buffer set_buffer set_fullText].
    destruct (ContainsSentenceSeparator (Content m) (isFirst w)).
    2:{ eexists. split; [reflexivity|]. cbn. now rewrite app_nil_r. }
    destruct (ExtractSmartSentences _ _ _ _) as [ss remaining].
    destruct (never_send_sentences ss
                (set_buffer (buffer w ++ Content m)
                   (set_fullText (fullText w ++ Content m) w)))
      as (w2 & -> & Hc2 & _ & _).
    eexists. split; [reflexivity|].
    cbn in Hc2. destruct (isFirst w2) eqn:E; cbn; rewrite Hc2, ?E;
      reflexivity. }
  destruct Hcontent as (w1 & -> & H1).
  destruct (if nonempty (Content m) then _ else _) as [evs [buf1 first1]].
  injection H1 as Hc1 Hb1 Hf1.
  destruct (Nat.ltb 0 (List.length (Schema.ToolCalls m))); cbn [Go.when].
  - unfold on_tool_calls, Go.bind, Go.gets, select_send. rewrite Hnever.
    eexists. split; [reflexivity|]. cbn.
    rewrite Hc1, Hb1, Hf1, app_assoc. auto.
  - exists w1. split; [reflexivity|]. cbn.
    rewrite Hc1, Hb1, Hf1, app_nil_r. auto.
Qed.

(** A run in which no send is given up. *)
Lemma never_loop stream :
  forall w,
    sentenceChannel (fst (loop ctx stream w))
    = (sentenceChannel w
       ++ fst (run_events stream (buffer w) (isFirst w)))%list
    /\ snd (loop ctx stream w)
       = snd (run_events stream (buffer w) (isFirst w)).
Proof.
  induction stream as [|[message err] rest IH]; intros w;
    cbn [loop run_events]; unfold select_default; rewrite Hnever.
  - cbn. now rewrite app_nil_r.
  - destruct (Go.is_EOF err) eqn:Herr.
    + rewrite body_unfold, Herr.
      destruct (on_EOF_cases ctx (looked w))
        as (w' & -> & _ & [[H _]|[_ Hc]]).
      * rewrite Hnever in H. discriminate.
      * cbn. rewrite Hc. auto.
    + destruct message as [m|].
      2:{ rewrite body_unfold, Herr. cbn. now rewrite app_nil_r. }
      destruct (never_body m err (looked w) Herr) as (w' & -> & Hc & Hst).
      cbn [buffer isFirst sentenceChannel looked] in Hc, Hst.
      destruct (turn_events m (buffer w) (isFirst w)) as [evs [buf1 first1]].
      cbn [fst snd] in Hc, Hst. injection Hst as Hb Hf.
      destruct (IH w') as [IHc IHs]. rewrite Hb, Hf in IHc, IHs.
      destruct (run_events rest buf1 first1) as [evs' st].
      cbn [fst snd] in *. rewrite IHc, Hc, app_assoc. auto.
Qed.

Lemma never_worker stream :
  worker ctx stream = run_events stream "" true.
Proof.
  unfold worker. destruct (never_loop stream init) as [Hc Hs].
  cbn [init buffer isFirst sentenceChannel app] in Hc, Hs.
  destruct (loop ctx stream init) as [w st].
  destruct (run_events stream "" true) as [evs st'].
  cbn in *. now rewrite Hc, Hs.
Qed.

End ControllerNeverCancelled.

Section ControllerEvents.
Import Schema Controller ControllerSpec.
Context {Seg : Segmenter}.

Lemma texts_app evs1 evs2 :
  texts (evs1 ++ evs2) = (texts evs1 ++ texts evs2)%string.
Proof. unfold texts. now rewrite map_app, concat_empty_app. Qed.

Lemma sentence_events_texts ss :
  forall first, texts (fst (sentence_events ss first)) = String.concat "" ss.
Proof.
  induction ss as [|s rest IH]; intros first; [reflexivity|].
  rewrite concat_empty_cons. cbn [sentence_events].
  destruct (nonempty s) eqn:Hs.
  - specialize (IH false). destruct (sentence_events rest false) as [evs f].
    cbn [fst] in *. unfold texts in *. cbn [map Text].
    now rewrite concat_empty_cons, IH.
  - rewrite IH. now rewrite (nonempty_false s Hs).
Qed.

Lemma sentence_events_no_calls ss :
  forall first, tool_call_lists (fst (sentence_events ss first)) = [].
Proof.
  induction ss as [|s rest IH]; intros first; [reflexivity|].
  cbn [sentence_events]. destruct (nonempty s); [|apply IH].
  specialize (IH false). destruct (sentence_events rest false) as [evs f].
  exact IH.
Qed.

Lemma tool_call_lists_app evs1 evs2 :
  tool_call_lists (evs1 ++ evs2)
  = (tool_call_lists evs1 ++ tool_call_lists evs2)%list.
Proof. unfold tool_call_lists. now rewrite map_app, filter_app. Qed.

(** The text a turn sends and the text it leaves in the buffer are the
    buffer it found and the content it received. *)
Lemma turn_events_texts m buf first :
  conserving Seg ->
  (texts (fst (turn_events m buf first))
   ++ fst (snd (turn_events m buf first)))%string
  = (buf ++ Content m)%string.
Proof.
  intros Hcons. unfold turn_events.
  assert (Htool : forall f,
    texts (if Nat.ltb 0 (List.length (Schema.ToolCalls m))
           then [ {| Text := ""; IsStart := f; IsEnd := false;
                     ToolCalls := Schema.ToolCalls m |} ]
           else []) = "").
  { intros f. destruct (Nat.ltb 0 _); reflexivity. }
  destruct (nonempty (Content m)) eqn:Hc.
  - destruct (ContainsSentenceSeparator (Content m) first).
    + specialize (Hcons (buf ++ Content m)%string 2%Z 100%Z first).
      destruct (ExtractSmartSentences _ _ _ _) as [ss remaining].
      cbn [fst snd] in *.
      now rewrite texts_app, Htool, string_app_empty_r,
        sentence_events_texts.
    + cbn [fst snd]. now rewrite texts_app, Htool.
  - cbn [fst snd]. rewrite texts_app, Htool. cbn.
    now rewrite (nonempty_false _ Hc), string_app_empty_r.
Qed.

Lemma turn_events_calls m buf first :
  tool_call_lists (fst (turn_events m buf first))
  = if Nat.ltb 0 (List.length (Schema.ToolCalls m))
    then [Schema.ToolCalls m] else [].
Proof.
  unfold turn_events.
  assert (Hfront : forall (evs : list LLMResponseStruct) (st : string * bool),
    (let '(evs0, (buf1, first1)) := (evs, st) in
     ((evs0 ++ if Nat.ltb 0 (List.length (Schema.ToolCalls m))
               then [ {| Text := ""; IsStart := first1; IsEnd := false;
                         ToolCalls := Schema.ToolCalls m |} ]
               else [])%list, (buf1, first1)))
    = ((evs ++ if Nat.ltb 0 (List.length (Schema.ToolCalls m))
               then [ {| Text := ""; IsStart := snd st; IsEnd := false;
                         ToolCalls := Schema.ToolCalls m |} ]
               else [])%list, st)).
  { intros evs [b f]. reflexivity. }
  assert (Hevs : forall (evs : list LLMResponseStruct) (st : string * bool),
    tool_call_lists evs = [] ->
    tool_call_lists
      (fst (let '(evs0, (buf1, first1)) := (evs, st) in
            ((evs0 ++ if Nat.ltb 0 (List.length (Schema.ToolCalls m))
                      then [ {| Text := ""; IsStart := first1;
                                IsEnd := false;
                                ToolCalls := Schema.ToolCalls m |} ]
                      else [])%list, (buf1, first1))))
    = if Nat.ltb 0 (List.length (Schema.ToolCalls m))
      then [Schema.ToolCalls m] else []).
  { intros evs st H. rewrite Hfront. cbn [fst].
    rewrite tool_call_lists_app, H. cbn [app].
    destruct (Nat.ltb 0 (List.length (Schema.ToolCalls m))) eqn:E;
      [|reflexivity].
    unfold tool_call_lists. cbn [map ToolCalls filter]. now rewrite E. }
  destruct (nonempty (Content m)).
  - destruct (ContainsSentenceSeparator (Content m) first).
    + destruct (ExtractSmartSentences _ _ _ _) as [ss remaining].
      exact (Hevs (fst (sentence_events ss first)) (remaining, false)
               (sentence_events_no_calls ss first)).
    + exact (Hevs [] ((buf ++ Content m)%string, first) eq_refl).
  - exact (Hevs [] (buf, first) eq_refl).
Qed.

Lemma run_events_items items closing_message :
  forall buf first,
    Forall (fun r => is_item r = true) items ->
    conserving Seg ->
    texts (fst (run_events (items ++ [(closing_message, Some Go.io_EOF)])
                  buf first))
    = (buf ++ contents items)%string.
Proof.
  induction items as [|[message err] items IH]; intros buf first Hitems Hc.
  - cbn. unfold texts, contents. cbn. now rewrite string_app_empty_r.
  - inversion Hitems as [|r rest Hr Hrest]; subst.
    destruct message as [m|]; [|discriminate].
    cbn in Hr. apply negb_true_iff in Hr.
    cbn [app run_events]. rewrite Hr.
    pose proof (turn_events_texts m buf first Hc) as Ht.
    destruct (turn_events m buf first) as [evs [buf1 first1]].
    cbn [fst snd] in Ht.
    specialize (IH buf1 first1 Hrest Hc).
    destruct (run_events _ buf1 first1) as [evs' st].
    cbn [fst] in *. rewrite texts_app, IH.
    unfold contents. cbn [map fst]. rewrite concat_empty_cons.
    now rewrite <- !string_app_assoc, Ht.
Qed.

Lemma run_events_calls items closing_message :
  forall buf first,
    Forall (fun r => is_item r = true) items ->
    tool_call_lists
      (fst (run_events (items ++ [(closing_message, Some Go.io_EOF)])
              buf first))
    = delivered_tool_calls items.
Proof.
  induction items as [|[message err] items IH]; intros buf first Hitems.
  - cbn. reflexivity.
  - inversion Hitems as [|r rest Hr Hrest]; subst.
    destruct message as [m|]; [|discriminate].
    cbn in Hr. apply negb_true_iff in Hr.
    cbn [app run_events]. rewrite Hr.
    pose proof (turn_events_calls m buf first) as Ht.
    destruct (turn_events m buf first) as [evs [buf1 first1]].
    cbn [fst] in Ht.
    specialize (IH buf1 first1 Hrest).
    destruct (run_events _ buf1 first1) as [evs' st].
    cbn [fst] in *. rewrite tool_call_lists_app, IH, Ht.
    unfold delivered_tool_calls. cbn [map fst filter].
    destruct (Nat.ltb 0 (List.length (Schema.ToolCalls m))); reflexivity.
Qed.

End ControllerEvents.

(** X9. Nothing is lost and nothing is said twice: when no send is given
    up and the Segmenter returns its input cut into sentences and a
    remainder, the texts of the events sent for a stream that ends with
    the end-of-stream error, joined in order and the end marker included,
    are the contents of the messages received, joined in order. *)
Theorem text_is_conserved {Seg : Controller.Segmenter} (ctx : Go.Ctx)
  items closing_message :
  (forall n, ctx n = false) ->
  ControllerSpec.conserving Seg ->
  Forall (fun r => Controller.is_item r = true) items ->
  ControllerSpec.texts
    (fst (Controller.worker ctx
            (items ++ [(closing_message, Some Go.io_EOF)])))
  = ControllerSpec.contents items.
Proof.
  intros Hnever Hcons Hitems. rewrite (never_worker ctx Hnever).
  exact (run_events_items items closing_message "" true Hitems Hcons).
Qed.

Lemma split_at_stops_conserves s :
  forall minLen candidate,
    (String.concat "" (fst (Controller.split_at_stops minLen candidate s))
     ++ snd (Controller.split_at_stops minLen candidate s))%string
    = (candidate ++ s)%string.
Proof.
  induction s as [|c r IH]; intros minLen candidate.
  - cbn. now rewrite string_app_empty_r.
  - cbn [Controller.split_at_stops].
    assert (Hstep : ((candidate ++ String c "") ++ r
                     = candidate ++ String c r)%string).
    { now rewrite string_app_assoc. }
    destruct (_ && _).
    + specialize (IH minLen ""%string).
      destruct (Controller.split_at_stops minLen "" r) as [ss remaining].
      cbn [fst snd] in *. rewrite concat_empty_cons, string_app_assoc, IH.
      cbn. exact Hstep.
    + rewrite IH. exact Hstep.
Qed.

Lemma strict_segmenter_conserving :
  ControllerSpec.conserving Controller.strict_segmenter.
Proof.
  intros buf minLen maxLen first. cbn.
  apply (split_at_stops_conserves buf (Z.to_nat minLen) "").
Qed.

Lemma text_is_conserved_witness :
  ControllerSpec.texts
    (fst (@Controller.worker Controller.strict_segmenter Go.Background
            ([Controller.delta "Good"; Controller.delta " morning. Bye"]
             ++ [(None, Some Go.io_EOF)])))
  = "Good morning. Bye".
Proof.
  apply (@text_is_conserved Controller.strict_segmenter Go.Background
           [Controller.delta "Good"; Controller.delta " morning. Bye"] None).
  - reflexivity.
  - exact strict_segmenter_conserving.
  - repeat constructor.
Defined.

(** X10. Tool calls pass through in order: when no send is given up, the
    tool-call lists carried by the events of a stream that ends with the
    end-of-stream error are the non-empty tool-call lists of the messages
    received, one event for each such message, in the order received and
    with the lists unchanged. *)
Theorem tool_calls_pass_through {Seg : Controller.Segmenter} (ctx : Go.Ctx)
  items closing_message :
  (forall n, ctx n = false) ->
  Forall (fun r => Controller.is_item r = true) items ->
  ControllerSpec.tool_call_lists
    (fst (Controller.worker ctx
            (items ++ [(closing_message, Some Go.io_EOF)])))
  = ControllerSpec.delivered_tool_calls items.
Proof.
  intros Hnever Hitems. rewrite (never_worker ctx Hnever).
  exact (run_events_calls items closing_message "" true Hitems).
Qed.

Lemma tool_calls_pass_through_witness :
  ControllerSpec.tool_call_lists
    (fst (@Controller.worker Controller.strict_segmenter Go.Background
            ([Controller.delta "Hi."; Accumulator.fragment Schema.Assistant ""
                "call_1" "function" "get_weather" "{}"]
             ++ [(None, Some Go.io_EOF)])))
  = [[ {| Schema.ID := "call_1"; Schema.Type_ := "function";
          Schema.Function := {| Schema.Name := "get_weather";
                                Schema.Arguments := "{}" |} |} ]].
Proof.
  apply (@tool_calls_pass_through Controller.strict_segmenter Go.Background
           [Controller.delta "Hi."; Accumulator.fragment Schema.Assistant ""
              "call_1" "function" "get_weather" "{}"] None).
  - reflexivity.
  - repeat constructor.
Defined.

(** ** The sentence handler of package stream_sentence *)

Section StreamSentenceFacts.
Import Schema ControllerSpec.
Context {Seg : Controller.Segmenter}.
Variable ctx : Go.Ctx.
Hypothesis Hnever : forall n, ctx n = false.

Lemma ss_send_sentence s w :
  exists w',
    StreamSentence.send_sentence s w = Go.Next tt w'
    /\ StreamSentence.output w'
       = (StreamSentence.output w
          ++ map as_sent
               (fst (sentence_events [s] (StreamSentence.isFirst w))))%list
    /\ StreamSentence.isFirst w'
       = snd (sentence_events [s] (StreamSentence.isFirst w))
    /\ StreamSentence.buffer w' = StreamSentence.buffer w.
Proof.
  unfold StreamSentence.send_sentence. cbn [sentence_events].
  destruct (nonempty s); cbn [Go.when fst snd map].
  - destruct w as [ft buf first ff out n].
    unfold Go.when, Go.bind, Go.gets, Go.modify, Go.ret, StreamSentence.Send.
    destruct ff, first; cbn; eexists; repeat split; reflexivity.
  - exists w. cbn. now rewrite app_nil_r.
Qed.

Lemma ss_send_sentences ss :
  forall w,
    exists w',
      StreamSentence.send_sentences ss w = Go.Next tt w'
      /\ StreamSentence.output w'
         = (StreamSentence.output w
            ++ map as_sent
                 (fst (sentence_events ss (StreamSentence.isFirst w))))%list
      /\ StreamSentence.isFirst w'
         = snd (sentence_events ss (StreamSentence.isFirst w))
      /\ StreamSentence.buffer w' = StreamSentence.buffer w.
Proof.
  induction ss as [|s rest IH]; intros w.
  - exists w. cbn. now rewrite app_nil_r.
  - cbn [StreamSentence.send_sentences]. unfold Go.bind.
    destruct (ss_send_sentence s w) as (w1 & -> & Hc1 & Hf1 & Hb1).
    destruct (IH w1) as (w2 & -> & Hc2 & Hf2 & Hb2).
    exists w2. split; [reflexivity|].
    rewrite sentence_events_cons. cbn [fst snd].
    rewrite Hc2, Hf2, Hc1, Hf1, Hb2, Hb1, map_app, app_assoc. auto.
Qed.

Lemma ss_on_content content w :
  nonempty content = true ->
  exists w',
    StreamSentence.on_content content w = Go.Next tt w'
    /\ (StreamSentence.output w',
        (StreamSentence.buffer w', StreamSentence.isFirst w'))
       = (let '(evs, st) :=
            if Controller.ContainsSentenceSeparator content
                 (StreamSentence.isFirst w) then
              let (ss, remaining) :=
                Controller.ExtractSmartSentences
                  (StreamSentence.buffer w ++ content) 2 100
                  (StreamSentence.isFirst w) in
              (fst (sentence_events ss (StreamSentence.isFirst w)),
               (remaining, false))
            else ([], ((StreamSentence.buffer w ++ content)%string,
                       StreamSentence.isFirst w)) in
          ((StreamSentence.output w ++ map as_sent evs)%list, st)).
Proof.
  intros _. unfold StreamSentence.on_content, Go.bind, Go.modify, Go.gets.
  cbn [StreamSentence.isFirst StreamSentence.buffer
       StreamSentence.set_buffer StreamSentence.set_fullText].
  destruct (Controller.ContainsSentenceSeparator content
              (StreamSentence.isFirst w)); cbn [Go.when].
  2:{ eexists. split; [reflexivity|]. cbn. now rewrite app_nil_r. }
  destruct (Controller.ExtractSmartSentences _ _ _ _) as [ss remaining].
  assert (Hwhen : forall v,
    Go.when (Nat.ltb 0 (List.length ss)) (StreamSentence.send_sentences ss) v
    = StreamSentence.send_sentences ss v).
  { intros v. destruct ss; reflexivity. }
  rewrite Hwhen.
  match goal with
  | |- context [StreamSentence.send_sentences ss ?v] =>
      destruct (ss_send_sentences ss v) as (w2 & -> & Hc2 & _ & _)
  end.
  cbn in Hc2. unfold Go.when, Go.ret.
  cbn [StreamSentence.isFirst StreamSentence.set_buffer].
  destruct (StreamSentence.isFirst w2) eqn:E; eexists;
    (split; [reflexivity|]); cbn; rewrite Hc2, ?E; reflexivity.
Qed.

(** A turn on a message received without error is the turn of the
    controller without cancellation, sent as messages. *)
Lemma ss_body m w :
  exists w',
    StreamSentence.body (Some m, None) w = Go.Next tt w'
    /\ StreamSentence.output w'
       = (StreamSentence.output w
          ++ map as_sent
               (fst (turn_events m (StreamSentence.buffer w)
                       (StreamSentence.isFirst w))))%list
    /\ (StreamSentence.buffer w', StreamSentence.isFirst w')
       = snd (turn_events m (StreamSentence.buffer w)
                (StreamSentence.isFirst w)).
Proof.
  unfold StreamSentence.body, turn_events. unfold Go.bind at 1 2.
  cbn [Go.ret].
  assert (Hcontent :
    exists w1,
      Go.when (nonempty (Content m)) (StreamSentence.on_content (Content m)) w
      = Go.Next tt w1
      /\ (StreamSentence.output w1,
          (StreamSentence.buffer w1, StreamSentence.isFirst w1))
         = (let '(evs, st) :=
              if nonempty (Content m) then
                if Controller.ContainsSentenceSeparator (Content m)
                     (StreamSentence.isFirst w) then
                  let (ss, remaining) :=
                    Controller.ExtractSmartSentences
                      (StreamSentence.buffer w ++ Content m) 2 100
                      (StreamSentence.isFirst w) in
                  (fst (sentence_events ss (StreamSentence.isFirst w)),
                   (remaining, false))
                else ([], ((StreamSentence.buffer w ++ Content m)%string,
                           StreamSentence.isFirst w))
              else ([], (StreamSentence.buffer w, StreamSentence.isFirst w)) in
            ((StreamSentence.output w ++ map as_sent evs)%list, st))).
  { destruct (nonempty (Content m)) eqn:Hc; cbn [Go.when].
    - exact (ss_on_content (Content m) w Hc).
    - exists w. cbn. now rewrite app_nil_r. }
  destruct Hcontent as (w1 & -> & H1).
  destruct (if nonempty (Content m) then _ else _) as [evs [buf1 first1]].
  injection H1 as Hc1 Hb1 Hf1.
  destruct (Nat.ltb 0 (List.length (ToolCalls m))); cbn [Go.when].
  - unfold StreamSentence.Send, Go.modify.
    eexists. split; [reflexivity|]. cbn.
    rewrite Hc1, Hb1, Hf1, map_app, app_assoc. auto.
  - exists w1. split; [reflexivity|]. cbn.
    rewrite Hc1, Hb1, Hf1, !app_nil_r. auto.
Qed.

(** A run without failure sends what the controller sends, as messages,
    and ends as the controller ends. *)
Lemma ss_loop stream :
  forall w,
    no_failure stream ->
    StreamSentence.output (fst (StreamSentence.loop ctx stream w))
    = (StreamSentence.output w
       ++ map as_sent
            (fst (run_events stream (StreamSentence.buffer w)
                    (StreamSentence.isFirst w))))%list
    /\ snd (StreamSentence.loop ctx stream w)
       = snd (run_events stream (StreamSentence.buffer w)
                (StreamSentence.isFirst w)).
Proof.
  induction stream as [|[message err] rest IH]; intros w Hok;
    cbn [StreamSentence.loop run_events];
    unfold StreamSentence.select_default; rewrite Hnever.
  - cbn. now rewrite app_nil_r.
  - inversion Hok as [|r rest' Herr Hrest]; subst. cbn [snd] in Herr.
    destruct Herr as [-> | ->]; cbn [Go.is_EOF].
    + destruct message as [m|].
      2:{ cbn. now rewrite app_nil_r. }
      match goal with
      | |- context [StreamSentence.body (Some m, None) ?v] =>
          destruct (ss_body m v) as (w' & -> & Hc & Hst)
      end.
      cbn [StreamSentence.buffer StreamSentence.isFirst StreamSentence.output]
        in Hc, Hst.
      destruct (turn_events m (StreamSentence.buffer w)
                  (StreamSentence.isFirst w)) as [evs [buf1 first1]].
      cbn [fst snd] in Hc, Hst. injection Hst as Hb Hf.
      destruct (IH w' Hrest) as [IHc IHs]. rewrite Hb, Hf in IHc, IHs.
      destruct (run_events rest buf1 first1) as [evs' st].
      cbn [fst snd] in *. rewrite IHc, Hc, map_app, app_assoc. auto.
    + unfold StreamSentence.body, Go.bind, StreamSentence.on_error.
      cbn [Go.is_EOF]. unfold Go.bind, Go.gets, Go.modify, Go.stop,
        StreamSentence.Send.
      cbn [StreamSentence.buffer].
      destruct (nonempty (StreamSentence.buffer w)) eqn:Hb; cbn.
      * auto.
      * rewrite (nonempty_false _ Hb). auto.
Qed.

(** X11. The two sentence handlers agree.  On a stream that carries no
    error other than the end-of-stream error, and with a context never
    seen cancelled, the handler of package stream_sentence sends, for each
    event the controller of package llm sends, one assistant message with
    that event's text and tool calls and a nil error, in the same order,
    and its stream is closed exactly when the controller's channel is.  The
    first-sentence flag and the end flag have no counterpart. *)
Theorem handlers_agree stream :
  no_failure stream ->
  StreamSentence.HandleLLMWithContextAndTools ctx stream
  = (map as_sent (fst (Controller.worker ctx stream)),
     snd (Controller.worker ctx stream)).
Proof.
  intros Hok. rewrite (never_worker ctx Hnever).
  unfold StreamSentence.HandleLLMWithContextAndTools.
  destruct (ss_loop stream StreamSentence.init Hok) as [Hc Hs].
  cbn [StreamSentence.init StreamSentence.buffer StreamSentence.isFirst
       StreamSentence.output app] in Hc, Hs.
  destruct (StreamSentence.loop ctx stream StreamSentence.init) as [w st].
  cbn [fst snd] in *. now rewrite Hc, Hs.
Qed.

(** Messages received without error are handled one after the other. *)
Lemma ss_loop_items items :
  forall rest w,
    Forall (fun r => exists m, r = (Some m, None)) items ->
    exists wk,
      StreamSentence.loop ctx (items ++ rest) w = StreamSentence.loop ctx rest wk
      /\ StreamSentence.loop ctx items w = StreamSentence.loop ctx [] wk.
Proof.
  induction items as [|r items IH]; intros rest w Hitems.
  - exists w. auto.
  - inversion Hitems as [|r' items' [m ->] Hrest]; subst.
    cbn [app StreamSentence.loop]. unfold StreamSentence.select_default.
    rewrite Hnever.
    match goal with
    | |- context [StreamSentence.body (Some m, None) ?v] =>
        destruct (ss_body m v) as (w' & -> & _)
    end.
    apply IH. exact Hrest.
Qed.

(** X12. On an error other than the end-of-stream error the handler of
    package stream_sentence stops at once, whether or not a message came
    with the error: after what it sent for the earlier messages it sends
    exactly one more item, an assistant message with empty content
    together with the error, and closes its stream.  The text still in the
    buffer is not sent. *)
Theorem stream_sentence_reports_failure items failed_message text :
  Forall (fun r => exists m, r = (Some m, None)) items ->
  StreamSentence.HandleLLMWithContextAndTools ctx
    (items ++ [(failed_message, Some (Go.errors_New text))])
  = ((fst (StreamSentence.HandleLLMWithContextAndTools ctx items)
      ++ [({| Role := Assistant; Content := ""; ToolCalls := [] |},
           Some (Go.errors_New text))])%list,
     Go.Closed).
Proof.
  intros Hitems. unfold StreamSentence.HandleLLMWithContextAndTools.
  destruct (ss_loop_items items
              [(failed_message, Some (Go.errors_New text))]
              StreamSentence.init Hitems) as (wk & -> & ->).
  cbn [StreamSentence.loop]. unfold StreamSentence.select_default.
  rewrite Hnever. reflexivity.
Qed.

End StreamSentenceFacts.

Lemma handlers_agree_witness :
  @StreamSentence.HandleLLMWithContextAndTools Controller.strict_segmenter
    Go.Background
    [Controller.delta "Good"; Controller.delta " morning. Bye";
     Controller.EOF]
  = ([ ({| Schema.Role := Schema.Assistant; Schema.Content := "Good morning.";
           Schema.ToolCalls := [] |}, None);
       ({| Schema.Role := Schema.Assistant; Schema.Content := " Bye";
           Schema.ToolCalls := [] |}, None) ],
     Go.Closed).
Proof.
  apply (@handlers_agree Controller.strict_segmenter Go.Background
           (fun _ => eq_refl)
           [Controller.delta "Good"; Controller.delta " morning. Bye";
            Controller.EOF]).
  unfold ControllerSpec.no_failure.
  constructor; [left; reflexivity|].
  constructor; [left; reflexivity|].
  constructor; [right; reflexivity|]. constructor.
Defined.

Lemma stream_sentence_reports_failure_witness :
  @StreamSentence.HandleLLMWithContextAndTools Controller.strict_segmenter
    Go.Background
    ([Controller.delta "Hi"]
     ++ [(None, Some (Go.errors_New "connection reset"))])
  = ([ ({| Schema.Role := Schema.Assistant; Schema.Content := "";
           Schema.ToolCalls := [] |},
        Some (Go.errors_New "connection reset")) ],
     Go.Closed).
Proof.
  apply (@stream_sentence_reports_failure Controller.strict_segmenter
           Go.Background (fun _ => eq_refl) [Controller.delta "Hi"] None
           "connection reset").
  repeat constructor. eexists. reflexivity.
Defined.

(** ** Cancellation of the controller *)

Section GoLogicFacts.
Import GoLogic.
Context {S : Type}.
Variables I J : S -> Prop.

Lemma keeps_ret {A} (a : A) : keeps I J (Go.ret a).
Proof. intros s Hs. exact Hs. Qed.

Lemma keeps_gets {A} (f : S -> A) : keeps I J (Go.gets f).
Proof. intros s Hs. exact Hs. Qed.

Lemma keeps_modify (f : S -> S) :
  (forall s, I s -> I (f s)) -> keeps I J (Go.modify f).
Proof. intros Hf s Hs. exact (Hf s Hs). Qed.

Lemma keeps_stop {A} sig :
  (forall s, I s -> J s) -> keeps I J (@Go.stop S A sig).
Proof. intros HIJ s Hs. exact (HIJ s Hs). Qed.

Lemma keeps_bind {A B} (m : Go.M S A) (k : A -> Go.M S B) :
  keeps I J m -> (forall a, keeps I J (k a)) -> keeps I J (Go.bind m k).
Proof.
  intros Hm Hk s Hs. unfold Go.bind. specialize (Hm s Hs).
  destruct (m s) as [a s'|sig s']; [exact (Hk a s' Hm) | exact Hm].
Qed.

Lemma keeps_when c (m : Go.M S unit) :
  keeps I J m -> keeps I J (Go.when c m).
Proof. intros Hm. destruct c; [exact Hm | apply keeps_ret]. Qed.

End GoLogicFacts.

Section ControllerCancelled.
Import Schema Controller ControllerSpec GoLogic.
Context {Seg : Segmenter}.
Variable ctx : Go.Ctx.
Variable k : nat.
Hypothesis Hcancelled : forall n, k <= n -> ctx n = true.


Lemma keeps_select_send ev :
  keeps (within_budget k) (within_budget k) (select_send ctx ev).
Proof.
  intros w [Hlooks Hk]. unfold select_send.
  destruct (ctx (selects w)) eqn:Hctx; unfold within_budget; cbn.
  - split; lia.
  - assert (selects w < k).
    { destruct (Nat.lt_ge_cases (selects w) k) as [Hlt|Hge]; [exact Hlt|].
      rewrite (Hcancelled _ Hge) in Hctx. discriminate. }
    rewrite length_app. cbn. split; lia.
Qed.

Lemma budget_fields (f : Worker -> Worker) :
  (forall w, sentenceChannel (f w) = sentenceChannel w) ->
  (forall w, selects (f w) = selects w) ->
  keeps (within_budget k) (within_budget k) (Go.modify f).
Proof.
  intros Hc Hn. apply keeps_modify. intros w [Hlooks Hk].
  unfold within_budget. rewrite Hc, Hn. auto.
Qed.

Lemma keeps_on_EOF :
  keeps (within_budget k) (within_budget k) (on_EOF ctx).
Proof.
  unfold on_EOF. apply keeps_bind; [apply keeps_gets|]. intros remaining.
  apply keeps_bind; [|intros _; apply keeps_stop; auto].
  destruct (nonempty remaining).
  - apply keeps_bind; [now apply budget_fields|].
    intros _. apply keeps_select_send.
  - apply keeps_select_send.
Qed.

Lemma keeps_send_sentence s :
  keeps (within_budget k) (within_budget k) (send_sentence ctx s).
Proof.
  unfold send_sentence. apply keeps_when.
  apply keeps_bind; [apply keeps_gets|]. intros ff.
  apply keeps_bind; [apply keeps_when; now apply budget_fields|]. intros _.
  apply keeps_bind; [apply keeps_gets|]. intros first.
  apply keeps_bind; [apply keeps_select_send|]. intros _.
  apply keeps_bind; [apply keeps_gets|]. intros first'.
  apply keeps_when. now apply budget_fields.
Qed.

Lemma keeps_send_sentences ss :
  keeps (within_budget k) (within_budget k) (send_sentences ctx ss).
Proof.
  induction ss as [|s rest IH]; cbn [send_sentences].
  - apply keeps_ret.
  - apply keeps_bind; [apply keeps_send_sentence | intros _; exact IH].
Qed.

Lemma keeps_on_content content :
  keeps (within_budget k) (within_budget k) (on_content ctx content).
Proof.
  unfold on_content.
  apply keeps_bind; [now apply budget_fields|]. intros _.
  apply keeps_bind; [now apply budget_fields|]. intros _.
  apply keeps_bind; [apply keeps_gets|]. intros first.
  apply keeps_when.
  apply keeps_bind; [apply keeps_gets|]. intros buf.
  apply keeps_bind; [apply keeps_gets|]. intros first1.
  destruct (ExtractSmartSentences buf 2 100 first1) as [ss remaining].
  apply keeps_bind; [apply keeps_when, keeps_send_sentences|]. intros _.
  apply keeps_bind; [now apply budget_fields|]. intros _.
  apply keeps_bind; [now apply budget_fields|]. intros _.
  apply keeps_bind; [apply keeps_gets|]. intros first2.
  apply keeps_when. now apply budget_fields.
Qed.

Lemma keeps_body r :
  keeps (within_budget k) (within_budget k) (body ctx r).
Proof.
  destruct r as [message err]. unfold body.
  apply keeps_bind; [apply keeps_when, keeps_on_EOF|]. intros _.
  destruct message as [m|]; [|apply keeps_stop; auto].
  apply keeps_bind; [apply keeps_when, keeps_on_content|]. intros _.
  apply keeps_when. unfold on_tool_calls.
  apply keeps_bind; [apply keeps_gets|]. intros first.
  apply keeps_select_send.
Qed.

Lemma keeps_loop stream :
  forall w, within_budget k w -> within_budget k (fst (loop ctx stream w)).
Proof.
  assert (Hselect : forall w, within_budget k w ->
            match select_default ctx w with
            | Go.Next _ w' | Go.Stop _ w' => within_budget k w'
            end).
  { intros w [Hlooks Hk]. unfold select_default, within_budget.
    destruct (ctx (selects w)); cbn; split; lia. }
  induction stream as [|r rest IH]; intros w Hw; cbn [loop];
    specialize (Hselect w Hw);
    destruct (select_default ctx w) as [[] w1|sig w1]; cbn [fst]; auto.
  pose proof (keeps_body r w1 Hselect) as Hbody.
  destruct (body ctx r w1) as [[] w2|sig w2]; cbn [fst]; auto.
Qed.

(** X13. Cancellation bounds what the controller sends.  When the context
    is cancelled from the goroutine's k-th look at it on, the goroutine
    sends at most k events, whatever the stream still delivers; when it is
    cancelled from the start, nothing is sent and the channel is closed. *)
Theorem cancellation_bounds_events stream :
  List.length (fst (worker ctx stream)) <= k
  /\ (k = 0 -> worker ctx stream = ([], Go.Closed)).
Proof.
  split.
  - unfold worker.
    assert (Hinit : within_budget k init) by (unfold within_budget; cbn; lia).
    pose proof (keeps_loop stream init Hinit) as [_ Hk].
    destruct (loop ctx stream init) as [w st]. exact Hk.
  - intros ->. unfold worker.
    destruct stream; cbn [loop]; unfold select_default;
      cbn [init selects]; rewrite (Hcancelled 0 (le_n 0)); reflexivity.
Qed.

End ControllerCancelled.

Lemma cancellation_bounds_events_witness :
  List.length
    (fst (@Controller.worker Controller.strict_segmenter
            (fun n => Nat.leb 1 n)
            [Controller.delta "One. Two. Three. "; Controller.EOF])) <= 1.
Proof.
  apply (@cancellation_bounds_events Controller.strict_segmenter
           (fun n => Nat.leb 1 n) 1).
  intros n Hn. apply Nat.leb_le. exact Hn.
Defined.

Section ControllerCut.
Import Schema Controller ControllerSpec.
Context {Seg : Segmenter}.
Variable ctx : Go.Ctx.

Lemma cut_send_sentences ss :
  forall w,
    match send_sentences ctx ss w with
    | Go.Next _ w' =>
        sentenceChannel w'
        = (sentenceChannel w ++ fst (sentence_events ss (isFirst w)))%list
        /\ isFirst w' = snd (sentence_events ss (isFirst w))
    | Go.Stop _ w' =>
        exists pre post,
          fst (sentence_events ss (isFirst w)) = (pre ++ post)%list
          /\ sentenceChannel w' = (sentenceChannel w ++ pre)%list
    end.
Proof.
  induction ss as [|s rest IH]; intros w.
  - cbn. now rewrite app_nil_r.
  - cbn [send_sentences]. unfold Go.bind.
    rewrite sentence_events_cons.
    destruct (send_sentence_cases ctx s w)
      as [(w1 & -> & Hc & _) | [(Hs & ->) | (w1 & Hs & -> & Hf & Hc)]].
    + exists [], (fst (sentence_events [s] (isFirst w))
                  ++ fst (sentence_events rest
                            (snd (sentence_events [s] (isFirst w)))))%list.
      cbn [fst]. rewrite Hc, app_nil_r. auto.
    + cbn [sentence_events]. rewrite Hs. cbn [fst snd app]. apply IH.
    + specialize (IH w1). cbn [sentence_events]. rewrite Hs. cbn [fst snd].
      rewrite Hf, Hc in IH.
      destruct (send_sentences ctx rest w1) as [[] w2|sig w2].
      * destruct IH as [-> ->]. now rewrite <- app_assoc.
      * destruct IH as (pre & post & -> & ->).
        eexists (_ :: pre), post. now rewrite <- !app_assoc.
Qed.

Lemma cut_body m err w :
  Go.is_EOF err = false ->
  match body ctx (Some m, err) w with
  | Go.Next _ w' =>
      sentenceChannel w'
      = (sentenceChannel w
         ++ fst (turn_events m (buffer w) (isFirst w)))%list
      /\ (buffer w', isFirst w') = snd (turn_events m (buffer w) (isFirst w))
  | Go.Stop _ w' =>
      exists pre post,
        fst (turn_events m (buffer w) (isFirst w)) = (pre ++ post)%list
        /\ sentenceChannel w' = (sentenceChannel w ++ pre)%list
  end.
Proof.
  intros Herr. rewrite body_unfold, Herr. unfold turn_events.
  assert (Hcontent :
    let '(evs, st) :=
      if nonempty (Content m) then
        if ContainsSentenceSeparator (Content m) (isFirst w) then
          let (ss, remaining) :=
            ExtractSmartSentences (buffer w ++ Content m) 2 100 (isFirst w) in
          (fst (sentence_events ss (isFirst w)), (remaining, false))
        else ([], ((buffer w ++ Content m)%string, isFirst w))
      else ([], (buffer w, isFirst w)) in
    match Go.when (nonempty (Content m)) (on_content ctx (Content m)) w with
    | Go.Next _ w' =>
        sentenceChannel w' = (sentenceChannel w ++ evs)%list
        /\ (buffer w', isFirst w') = st
    | Go.Stop _ w' =>
        exists pre post,
          evs = (pre ++ post)%list
          /\ sentenceChannel w' = (sentenceChannel w ++ pre)%list
    end).
  { destruct (nonempty (Content m)); cbn [Go.when Go.ret].
    2:{ now rewrite app_nil_r. }
    rewrite on_content_unfold. cbn zeta.
    destruct (ContainsSentenceSeparator (Content m) (isFirst w)).
    2:{ cbn. now rewrite app_nil_r. }
    cbn [set_buffer set_fullText buffer].
    destruct (ExtractSmartSentences _ _ _ _) as [ss remaining].
    match goal with
    | |- context [send_sentences ctx ss ?v] =>
        pose proof (cut_send_sentences ss v) as Hss;
        destruct (send_sentences ctx ss v) as [[] w2|sig w2]
    end; cbn [isFirst sentenceChannel] in Hss.
    - destruct Hss as [Hc Hf].
      destruct (isFirst w2) eqn:E; cbn; rewrite ?E; auto.
    - exact Hss. }
  destruct (if nonempty (Content m) then _ else _) as [evs [buf1 first1]].
  destruct (Go.when (nonempty (Content m)) (on_content ctx (Content m)) w)
    as [[] w1|sig w1].
  - destruct Hcontent as [Hc Hst]. injection Hst as Hb Hf.
    cbn [fst snd].
    destruct (Nat.ltb 0 (List.length (Schema.ToolCalls m)));
      cbn [Go.when Go.ret].
    + unfold on_tool_calls, Go.bind, Go.gets, select_send.
      destruct (ctx (selects w1)); cbn.
      * eexists evs, _. rewrite Hc. auto.
      * rewrite Hc, Hb, Hf, <- app_assoc. auto.
    + rewrite Hc, Hb, Hf, app_nil_r. auto.
  - destruct Hcontent as (pre & post & -> & ->). cbn [fst].
    eexists pre, _. rewrite <- app_assoc. auto.
Qed.

Lemma cut_loop stream :
  forall w,
    exists rest,
      (sentenceChannel w
       ++ fst (run_events stream (buffer w) (isFirst w)))%list
      = (sentenceChannel (fst (loop ctx stream w)) ++ rest)%list.
Proof.
  induction stream as [|[message err] tail IH]; intros w;
    cbn [loop run_events]; unfold select_default.
  - exists []. destruct (ctx (selects w)); reflexivity.
  - destruct (ctx (selects w)); cbn [fst].
    { eexists. reflexivity. }
    destruct (Go.is_EOF err) eqn:Herr.
    + rewrite body_unfold, Herr.
      destruct (on_EOF_cases ctx (looked w))
        as (w' & -> & _ & [[_ Hc] | [_ Hc]]); cbn [fst];
        cbn [looked sentenceChannel buffer] in Hc; rewrite Hc.
      * eexists. reflexivity.
      * exists []. now rewrite app_nil_r.
    + destruct message as [m|].
      { pose proof (cut_body m err (looked w) Herr) as Hbody.
        cbn [looked buffer isFirst sentenceChannel] in Hbody.
        destruct (turn_events m (buffer w) (isFirst w))
          as [evs [buf1 first1]].
        cbn [fst snd] in Hbody.
        destruct (body ctx (Some m, err) (looked w)) as [[] w2|sig w2].
        - destruct Hbody as [Hc Hst]. injection Hst as Hb Hf.
          destruct (IH w2) as (rest & Hrest). rewrite Hb, Hf, Hc in Hrest.
          destruct (run_events tail buf1 first1) as [evs' st].
          cbn [fst] in *. exists rest.
          now rewrite <- Hrest, <- app_assoc.
        - destruct Hbody as (pre & post & -> & Hc). cbn [fst]. rewrite Hc.
          destruct (run_events tail buf1 first1) as [evs' st].
          cbn [fst]. eexists. now rewrite <- !app_assoc. }
      rewrite body_unfold, Herr. cbn [fst].
      exists []. reflexivity.
Qed.

(** X14. Cancellation only cuts a run short.  For every context, the
    events the controller sends are an initial part of the events it sends
    on the same stream when the context is never cancelled: giving up a
    send never changes, reorders or adds an event. *)
Theorem cancellation_only_truncates stream :
  exists rest,
    fst (worker Go.Background stream)
    = (fst (worker ctx stream) ++ rest)%list.
Proof.
  rewrite (never_worker Go.Background (fun _ => eq_refl)).
  destruct (cut_loop stream init) as (rest & Hrest).
  cbn [init sentenceChannel buffer isFirst app] in Hrest.
  exists rest. unfold worker.
  destruct (loop ctx stream init) as [w st]. exact Hrest.
Qed.

End ControllerCut.

(** ** The accumulator feeding the controller *)

Section PipelineFacts.
Import Schema Accumulator Controller ControllerSpec.
Context {D : Json.Decoder} {Seg : Segmenter}.

Lemma body_error_breaks message e w :
  AccumulatorSpec.between_turns w ->
  exists w', Accumulator.body (message, Some e) w = Go.Stop Go.SigBreak w'.
Proof.
  intros Hw.
  destruct (body_between_turns (message, Some e) w Hw)
    as (sent & w' & [[Hnext _] | Hstop] & _); [|eauto].
  exfalso. revert Hnext. unfold Accumulator.body, Go.bind.
  destruct e; cbn [Go.is_EOF Go.when Go.ret Go.stop].
  - unfold Go.bind, Go.gets. destruct (currentToolCall w); cbn; discriminate.
  - discriminate.
Qed.

Lemma loop_model_ended stream :
  forall w,
    AccumulatorSpec.between_turns w ->
    Exists (fun r => snd r <> None) stream ->
    snd (Accumulator.loop stream w) = Go.Closed.
Proof.
  induction stream as [|r stream IH]; intros w Hw Hex.
  - inversion Hex.
  - cbn [Accumulator.loop].
    destruct (body_between_turns r w Hw)
      as (sent & w' & [[Hnext Hw'] | Hstop] & _).
    + rewrite Hnext. apply IH; [exact Hw'|].
      inversion Hex as [r' l Hr | r' l Hl]; subst; [|exact Hl].
      exfalso. destruct r as [message [e|]]; [|now apply Hr].
      destruct (body_error_breaks message e w Hw) as (w2 & Hbreak).
      rewrite Hbreak in Hnext. discriminate.
    + rewrite Hstop. reflexivity.
Qed.

Lemma turn_events_not_end m buf first :
  Forall (fun ev => IsEnd ev = false) (fst (turn_events m buf first)).
Proof.
  assert (Hss : forall ss b,
            Forall (fun ev => IsEnd ev = false) (fst (sentence_events ss b))).
  { induction ss as [|s ss IH]; intros b; cbn [sentence_events].
    - constructor.
    - destruct (nonempty s); [|apply IH].
      specialize (IH false). destruct (sentence_events ss false).
      cbn [fst] in *. constructor; [reflexivity|exact IH]. }
  unfold turn_events.
  destruct (nonempty (Content m)).
  - destruct (ContainsSentenceSeparator (Content m) first).
    + destruct (ExtractSmartSentences _ _ _ _) as [ss remaining].
      cbn [fst]. apply Forall_app. split; [apply Hss|].
      destruct (Nat.ltb _ _); repeat constructor.
    + cbn [fst app]. destruct (Nat.ltb _ _); repeat constructor.
  - cbn [fst app]. destruct (Nat.ltb _ _); repeat constructor.
Qed.

Lemma run_events_messages_then_EOF msgs :
  forall buf first,
    exists evs remaining,
      run_events (map (fun m => (Some m, None)) msgs
                  ++ [(None, Some Go.io_EOF)]) buf first
      = ((evs ++ [end_marker remaining])%list, Go.Closed)
      /\ Forall (fun ev => IsEnd ev = false) evs.
Proof.
  induction msgs as [|m msgs IH]; intros buf first.
  - exists [], buf. cbn. auto.
  - cbn [map app run_events Go.is_EOF].
    pose proof (turn_events_not_end m buf first) as Hturn.
    destruct (turn_events m buf first) as [evs [buf1 first1]].
    destruct (IH buf1 first1) as (evs' & remaining & -> & Hevs').
    exists (evs ++ evs')%list, remaining. rewrite <- app_assoc.
    split; [reflexivity|]. apply Forall_app. auto.
Qed.

(** X15. A failure of the model is delivered as a normal end of the
    response.  When the call to the chat model fails, gives no reader, or
    its stream yields any error ([io.EOF] or another), the accumulator
    closes its stream without passing the error on; the controller that
    reads this stream, its context never seen cancelled, then ends with
    exactly one end marker, as its last event, and closes its channel. *)
Theorem model_failure_ends_response_normally
  (ctx : Go.Ctx) streamReader err :
  (forall n, ctx n = false) ->
  Pipeline.model_ended streamReader err ->
  exists evs remaining,
    worker ctx
      (Pipeline.recv_history (EinoResponseWithTools streamReader err))
    = ((evs ++ [end_marker remaining])%list, Go.Closed)
    /\ Forall (fun ev => IsEnd ev = false) evs.
Proof.
  intros Hnever Hended. rewrite (never_worker ctx Hnever).
  assert (Hclosed : snd (EinoResponseWithTools streamReader err) = Go.Closed).
  { unfold EinoResponseWithTools, Pipeline.model_ended in *.
    destruct err; [reflexivity|]. destruct streamReader as [stream|];
      [|reflexivity].
    pose proof (loop_model_ended stream Accumulator.init
                  init_between_turns Hended) as Hloop.
    destruct (Accumulator.loop stream Accumulator.init). exact Hloop. }
  unfold Pipeline.recv_history. rewrite Hclosed.
  apply run_events_messages_then_EOF.
Qed.

End PipelineFacts.

Lemma model_failure_ends_response_normally_witness :
  exists evs remaining,
    @Controller.worker Controller.strict_segmenter Go.Background
      (Pipeline.recv_history
         (@Accumulator.EinoResponseWithTools Json.rfc8259
            (Some [ (Some {| Schema.Role := Schema.Assistant;
                             Schema.Content := "Hello. Wor";
                             Schema.ToolCalls := [] |}, None);
                    (None, Some (Go.errors_New "connection reset")) ])
            None))
    = ((evs ++ [Controller.end_marker remaining])%list, Go.Closed)
    /\ Forall (fun ev => Controller.IsEnd ev = false) evs.
Proof.
  apply (@model_failure_ends_response_normally Json.rfc8259
           Controller.strict_segmenter Go.Background).
  - intros n. reflexivity.
  - cbn. apply Exists_cons_tl, Exists_cons_hd. discriminate.
Defined.

(** ** The fan-out adapter: sub-streams *)

Section TripleFacts.
Import GoLogic.
Context {S : Type}.
Variable J : Go.Signal -> S -> Prop.

Lemma triple_ret {A} (P : S -> Prop) (Q : A -> S -> Prop) (a : A) :
  (forall s, P s -> Q a s) -> triple P (Go.ret a) Q J.
Proof. intros H s Hs. exact (H s Hs). Qed.

Lemma triple_stop {A} (P : S -> Prop) (Q : A -> S -> Prop) sig :
  (forall s, P s -> J sig s) -> triple P (Go.stop sig) Q J.
Proof. intros H s Hs. exact (H s Hs). Qed.

Lemma triple_modify (P : S -> Prop) (Q : unit -> S -> Prop) (f : S -> S) :
  (forall s, P s -> Q tt (f s)) -> triple P (Go.modify f) Q J.
Proof. intros H s Hs. exact (H s Hs). Qed.

Lemma triple_bind {A B} (P : S -> Prop) (Q : A -> S -> Prop)
  (R : B -> S -> Prop) (m : Go.M S A) (k : A -> Go.M S B) :
  triple P m Q J -> (forall a, triple (Q a) (k a) R J) ->
  triple P (Go.bind m k) R J.
Proof.
  intros Hm Hk s Hs. unfold Go.bind. specialize (Hm s Hs).
  destruct (m s) as [a s'|sig s']; [exact (Hk a s' Hm) | exact Hm].
Qed.

Lemma triple_when (P : S -> Prop) c (m : Go.M S unit) :
  triple P m (fun _ => P) J -> triple P (Go.when c m) (fun _ => P) J.
Proof. intros Hm. destruct c; [exact Hm | now apply triple_ret]. Qed.

End TripleFacts.

Section FanOutStreams.
Import Schema FanOut FanOutSpec GoLogic.
Context {World : Type} {Provider : BaseTTSProvider}.
Variable options : Types.Options World.
Variable ctx : Go.Ctx.
Variable gone : nat -> bool.

Lemma serving_same id (w w' : Worker World) :
  pipes w' = pipes w -> sentenceStream w' = sentenceStream w ->
  serving id w -> serving id w'.
Proof.
  intros Hp Hs (ps & p & Hw & Hid & Hc & Hids).
  exists ps, p. rewrite Hp, Hs. auto.
Qed.

Lemma settled_same (w w' : Worker World) :
  pipes w' = pipes w -> sentenceStream w' = sentenceStream w ->
  settled w -> settled w'.
Proof. intros Hp Hs [Hc Hids]. split; rewrite Hp, ?Hs; auto. Qed.

Lemma triple_call cb :
  triple settled (call World cb) (fun _ => settled) returned.
Proof.
  intros w Hw. rewrite call_eq. revert Hw. now apply settled_same.
Qed.

Lemma triple_new_pipe :
  triple settled (new_pipe World) (fun id => serving id) returned.
Proof.
  intros w [Hc Hids]. unfold new_pipe. cbn.
  exists (pipes w), {| chunks := []; closed := false |}.
  repeat split; auto.
  eapply Forall_impl; [|exact Hids]. cbn. intros i Hi.
  rewrite length_app. cbn. lia.
Qed.

Lemma triple_send_closed id :
  triple (serving id) (send_closed World gone) (fun _ => serving id) returned.
Proof. intros w Hw. unfold send_closed. revert Hw. now apply serving_same. Qed.

Lemma triple_send_outer id :
  triple (serving id) (send_outer World gone id) (fun _ => serving id)
    returned.
Proof.
  unfold send_outer.
  eapply triple_bind; [apply triple_send_closed|]. intros c.
  eapply triple_bind with (Q := fun _ => serving id);
    [|intros ?; now apply triple_ret].
  apply triple_when, triple_modify.
  intros w (ps & p & Hw & Hid & Hc & Hids). exists ps, p. cbn.
  repeat split; auto. apply Forall_app. split; [exact Hids|].
  constructor; [|constructor]. rewrite Hw, length_app. cbn. lia.
Qed.

Lemma serving_update id f (w : Worker World) :
  serving id w ->
  exists ps p,
    update_nth id f (pipes w) = (ps ++ [f p])%list
    /\ List.length ps = id
    /\ Forall (fun p => closed p = true) ps
    /\ Forall (fun i => i < List.length (ps ++ [f p])%list)
         (sentenceStream w).
Proof.
  intros (ps & p & Hw & Hid & Hc & Hids). exists ps, p.
  rewrite Hw in *. subst id. rewrite update_nth_last.
  repeat split; auto.
  eapply Forall_impl; [|exact Hids]. cbn. intros i.
  rewrite !length_app. cbn. auto.
Qed.

Lemma triple_send_chunk id chunk :
  triple (serving id) (send_chunk World gone id chunk) (fun _ => serving id)
    returned.
Proof.
  unfold send_chunk.
  eapply triple_bind; [apply triple_send_closed|]. intros c.
  eapply triple_bind with (Q := fun _ => serving id);
    [|intros ?; now apply triple_ret].
  apply triple_when, triple_modify. intros w Hw.
  destruct (serving_update id
              (fun p => {| chunks := chunks p ++ [chunk];
                           closed := closed p |}) w Hw)
    as (ps & p & Hup & Hid & Hc & Hids).
  eexists ps, _. cbn. rewrite Hup. repeat split; auto.
Qed.

Lemma triple_close id :
  triple (serving id) (close World id) (fun _ => settled) returned.
Proof.
  apply triple_modify. intros w Hw.
  destruct (serving_update id
              (fun p => {| chunks := chunks p; closed := true |}) w Hw)
    as (ps & p & Hup & Hid & Hc & Hids).
  split; cbn; rewrite Hup; [|exact Hids].
  apply Forall_app. split; [exact Hc|]. repeat constructor.
Qed.

(** [audioStreamWriter.Close(); return] *)
Lemma triple_close_return id (Q : unit -> Worker World -> Prop) :
  triple (serving id) (Go.bind (close World id)
                         (fun _ => Go.stop Go.SigReturn)) Q returned.
Proof.
  eapply triple_bind; [apply triple_close|]. intros ?.
  apply triple_stop. intros w Hw _. exact Hw.
Qed.

Lemma triple_cancelled id :
  triple (serving id) (cancelled World ctx) (fun _ => serving id) returned.
Proof. intros w Hw. unfold cancelled. revert Hw. now apply serving_same. Qed.

Lemma triple_relay id frames :
  triple (serving id) (relay World ctx gone id frames) (fun _ => serving id)
    returned.
Proof.
  induction frames as [|frame rest IH]; cbn [relay].
  - now apply triple_ret.
  - eapply triple_bind; [apply triple_cancelled|]. intros done.
    eapply triple_bind; [apply triple_when, triple_close_return|]. intros ?.
    eapply triple_bind; [apply triple_send_chunk|]. intros c.
    eapply triple_bind; [apply triple_when, triple_close_return|]. intros ?.
    exact IH.
Qed.

Lemma triple_body r :
  triple settled (body World options ctx gone r) (fun _ => settled) returned.
Proof.
  destruct r as [message err]. unfold body.
  eapply triple_bind with (Q := fun _ => settled).
  { destruct err; [apply triple_stop; intros w Hw _; exact Hw
                  | now apply triple_ret]. }
  intros ?. eapply triple_bind; [apply triple_call|]. intros ?.
  eapply triple_bind; [apply triple_new_pipe|]. intros id.
  eapply triple_bind; [apply triple_send_outer|]. intros c.
  eapply triple_bind; [apply triple_when, triple_close_return|]. intros ?.
  destruct message as [m|]; [|apply triple_stop; intros w _; discriminate].
  eapply triple_bind; [apply triple_send_chunk|]. intros c1.
  eapply triple_bind; [apply triple_when, triple_close_return|]. intros ?.
  destruct (TextToSpeechStream _ _ _ _) as [[frames|] [e|]].
  - apply triple_close_return.
  - eapply triple_bind; [apply triple_relay|]. intros ?.
    eapply triple_bind; [apply triple_close|]. intros ?.
    apply triple_call.
  - apply triple_close_return.
  - apply triple_stop. intros w _. discriminate.
Qed.

Lemma loop_settled input :
  forall w,
    settled w ->
    snd (loop World options ctx gone input w) = Go.Closed ->
    settled (fst (loop World options ctx gone input w)).
Proof.
  induction input as [|r rest IH]; intros w Hw; cbn [loop];
    unfold cancelled; destruct (ctx (selects World w)); cbn [fst snd];
    try discriminate;
    try (intros _; revert Hw; now apply settled_same).
  match goal with
  | |- context [body World options ctx gone r ?w1] =>
      assert (Hw1 : settled w1) by (revert Hw; now apply settled_same);
      pose proof (triple_body r w1 Hw1) as Hbody;
      destruct (body World options ctx gone r w1) as [[] w2|sig w2]
  end.
  - apply IH. exact Hbody.
  - cbn [fst snd]. exact Hbody.
Qed.

End FanOutStreams.

(** X17. No sub-stream is left open.  For every cancellation of the
    context, every reader (whichever [Send] finds its stream closed),
    every backend and every input: when the goroutine of [Transform] has
    returned, so that the outer stream is closed, the writer of every
    audio stream it made has been closed; in particular every sub-stream
    the consumer received on the outer stream ends. *)
Theorem sub_streams_closed_on_return
  {World : Type} {Provider : FanOut.BaseTTSProvider}
  (ctx : Go.Ctx) (gone : nat -> bool) input
  (opts : list (Types.Option_ World)) (w0 : World) :
  let run := FanOut.Transform ctx gone input opts w0 in
  snd run = Go.Closed ->
  Forall (fun p => FanOut.closed p = true) (FanOut.pipes (fst run))
  /\ Forall (fun p => FanOut.closed p = true) (FanOut.sub_streams (fst run)).
Proof.
  intros run Hclosed. unfold run, FanOut.Transform in *.
  assert (Hinit : FanOutSpec.settled (FanOut.init World w0)).
  { split; constructor. }
  destruct (loop_settled _ ctx gone input _ Hinit Hclosed) as [Hc Hids].
  split; [exact Hc|].
  unfold FanOut.sub_streams. apply Forall_forall. intros p Hp.
  apply in_map_iff in Hp. destruct Hp as (id & <- & Hid).
  rewrite Forall_forall in Hc, Hids. apply Hc, nth_In, Hids, Hid.
Qed.

Lemma sub_streams_closed_on_return_witness :
  let run :=
    @FanOut.Transform FanOut.Meter FanOut.fails_on_two
      (fun n => Nat.leb 3 n) FanOut.attentive
      [FanOut.sentence "one"; FanOut.sentence "three"]
      FanOut.metered {| FanOut.started := 0; FanOut.ended := 0 |} in
  snd run = Go.Closed
  /\ Forall (fun p => FanOut.closed p = true) (FanOut.sub_streams (fst run)).
Proof.
  intros run. split; [reflexivity|].
  apply (@sub_streams_closed_on_return FanOut.Meter FanOut.fails_on_two
           (fun n => Nat.leb 3 n) FanOut.attentive
           [FanOut.sentence "one"; FanOut.sentence "three"]
           FanOut.metered {| FanOut.started := 0; FanOut.ended := 0 |}).
  reflexivity.
Defined.

(** X16. Every sentence gets its whole sub-stream.  When the context is
    never seen cancelled, the reader keeps its streams open and every
    message is synthesised, a run on the messages followed by an error
    from [Recv] ([io.EOF] or another) delivers one sub-stream per message,
    in order, an empty message included: the label chunk with the
    message's text, one chunk per frame, then closed.  The two callbacks
    have run once per message, in turn, and the outer stream is closed. *)
Theorem every_sentence_gets_whole_sub_stream
  {World : Type} {Provider : FanOut.BaseTTSProvider}
  (ctx : Go.Ctx) (gone : nat -> bool) msgs closing_message e
  (opts : list (Types.Option_ World)) (w0 : World) :
  (forall n, ctx n = false) ->
  (forall n, gone n = false) ->
  let options := Types.GetImplSpecificOptions Types.baseOptions opts in
  Forall (FanOut.synthesised options) msgs ->
  let run :=
    FanOut.Transform ctx gone
      (map FanOut.received msgs ++ [(closing_message, Some e)]) opts w0 in
  snd run = Go.Closed
  /\ FanOut.sub_streams (fst run)
     = map (fun m => FanOut.whole (Schema.Content m)
                       (FanOut.frames_of options m)) msgs
  /\ FanOut.world (fst run)
     = FanOut.after_sentences options (List.length msgs) w0.
Proof.
  intros Hnever Hattentive options Hok run.
  destruct (loop_synthesised options ctx gone Hnever Hattentive msgs
              [(closing_message, Some e)] (FanOut.init World w0) Hok)
    as (w' & Hrun & Hp & Hs & Hw).
  subst run. unfold FanOut.Transform. fold options. rewrite Hrun.
  cbn [FanOut.loop]. unfold FanOut.cancelled. rewrite Hnever.
  unfold FanOut.body, Go.bind, Go.stop. cbn [fst snd Go.status_of].
  split; [reflexivity|]. split; [|exact Hw].
  unfold FanOut.sub_streams. cbn [FanOut.pipes FanOut.sentenceStream].
  rewrite Hs, Hp. cbn [app FanOut.init FanOut.pipes FanOut.sentenceStream
    List.length].
  match goal with
  | |- map _ (seq 0 ?n) = ?L =>
      replace n with (List.length L) by (now rewrite length_map);
      apply map_nth_seq
  end.
Qed.

Lemma every_sentence_gets_whole_sub_stream_witness :
  let run :=
    @FanOut.Transform FanOut.Meter FanOut.fails_on_two Go.Background
      FanOut.attentive
      (map FanOut.received
         [ {| Schema.Role := Schema.Assistant; Schema.Content := "one";
              Schema.ToolCalls := [] |};
           {| Schema.Role := Schema.Assistant; Schema.Content := "";
              Schema.ToolCalls := [] |} ]
       ++ [(None, Some Go.io_EOF)])
      FanOut.metered {| FanOut.started := 0; FanOut.ended := 0 |} in
  snd run = Go.Closed
  /\ FanOut.sub_streams (fst run)
     = [ FanOut.whole "one" [[Byte.x01]; [Byte.x02]];
         FanOut.whole "" [[Byte.x01]; [Byte.x02]] ]
  /\ FanOut.world (fst run) = {| FanOut.started := 2; FanOut.ended := 2 |}.
Proof.
  apply (@every_sentence_gets_whole_sub_stream FanOut.Meter
           FanOut.fails_on_two Go.Background FanOut.attentive
           [ {| Schema.Role := Schema.Assistant; Schema.Content := "one";
                Schema.ToolCalls := [] |};
             {| Schema.Role := Schema.Assistant; Schema.Content := "";
                Schema.ToolCalls := [] |} ]
           None Go.io_EOF FanOut.metered
           {| FanOut.started := 0; FanOut.ended := 0 |}).
  - intros n. reflexivity.
  - intros n. reflexivity.
  - repeat constructor; eexists; reflexivity.
Defined.

(** X18. [Invoke] runs both callbacks on every path.  Whatever options
    are given and whether or not the backend fails, the start callback
    and then the end callback have each run once when [Invoke] returns;
    on a backend error it returns no frames and an error, otherwise the
    backend's frames and no error. *)
Theorem Invoke_runs_both_callbacks
  {World : Type} {Provider : FanOut.BaseTTSProvider}
  (text : string) (opts : list (Types.Option_ World)) (w0 : World) :
  let options := Types.GetImplSpecificOptions Types.baseOptions opts in
  let backend :=
    FanOut.TextToSpeech text (Types.SampleRate options)
      (Types.Channel options) (Types.FrameDuration options) in
  snd (FanOut.Invoke text opts w0)
  = FanOut.fire (Types.ChunkEndCallback options)
      (FanOut.fire (Types.ChunkStartCallback options) w0)
  /\ (snd backend = None -> fst (FanOut.Invoke text opts w0) = backend)
  /\ (snd backend <> None ->
      fst (fst (FanOut.Invoke text opts w0)) = []
      /\ snd (fst (FanOut.Invoke text opts w0)) <> None).
Proof.
  intros options backend. unfold FanOut.Invoke. fold options.
  subst backend.
  destruct (FanOut.TextToSpeech text _ _ _) as [frames [e|]];
    cbn [fst snd]; repeat split; intros; try reflexivity;
    try discriminate; congruence.
Qed.

(** ** [TextToSpeechStreamWithContext] *)

Section ForwarderFacts.
Import FanOut Forwarder.
Variable ctx : Go.Ctx.

Lemma forward_never frames :
  forall w,
    (forall n, n < 2 * List.length frames + 1 -> ctx (selects w + n) = false) ->
    exists w',
      forward ctx None frames w = Go.Stop Go.SigReturn w'
      /\ outputChan w' = (outputChan w ++ frames)%list.
Proof.
  induction frames as [|frame rest IH]; intros w Hopen; cbn [forward];
    unfold Go.bind, cancelled.
  - pose proof (Hopen 0 ltac:(cbn; lia)) as H0. rewrite Nat.add_0_r in H0.
    rewrite H0. cbn. eexists. split; [reflexivity|]. cbn.
    now rewrite app_nil_r.
  - pose proof (Hopen 0 ltac:(cbn; lia)) as H0. rewrite Nat.add_0_r in H0.
    pose proof (Hopen 1 ltac:(cbn; lia)) as H1. rewrite Nat.add_1_r in H1.
    rewrite H0. cbn. rewrite H1. cbn.
    edestruct IH as (w' & -> & Hout).
    2:{ exists w'. split; [reflexivity|]. rewrite Hout. cbn.
        now rewrite <- app_assoc. }
    cbn [selects]. intros n Hn.
    replace (S (S (selects w)) + n) with (selects w + (2 + n)) by lia.
    apply Hopen. cbn [List.length]. lia.
Qed.

Lemma forward_cancelled frames :
  forall w n,
    n < 2 * List.length frames + 1 ->
    ctx (selects w + n) = true ->
    exists w' sent rest,
      forward ctx None frames w = Go.Stop Go.SigPanic w'
      /\ outputChan w' = (outputChan w ++ sent)%list
      /\ frames = (sent ++ rest)%list.
Proof.
  induction frames as [|frame rest IH]; intros w n Hn Hctx; cbn [forward];
    unfold Go.bind, cancelled.
  - assert (n = 0) by (cbn in Hn; lia). subst n.
    rewrite Nat.add_0_r in Hctx. rewrite Hctx. cbn.
    eexists _, [], []. cbn. rewrite app_nil_r. auto.
  - destruct (ctx (selects w)) eqn:H0; cbn.
    { eexists _, [], _. cbn. rewrite app_nil_r. auto. }
    destruct (ctx (S (selects w))) eqn:H1; cbn.
    { eexists _, [], _. cbn. rewrite app_nil_r. auto. }
    destruct n as [|[|n]].
    + rewrite Nat.add_0_r, H0 in Hctx. discriminate.
    + rewrite Nat.add_1_r, H1 in Hctx. discriminate.
    + edestruct (IH {| outputChan := outputChan w ++ [frame];
                       selects := S (S (selects w)) |} n)
        as (w' & sent & rest' & -> & Hout & ->).
      * cbn [List.length] in Hn. lia.
      * cbn [selects].
        replace (S (S (selects w)) + n) with (selects w + S (S n)) by lia.
        exact Hctx.
      * exists w', (frame :: sent), rest'. cbn in Hout.
        rewrite Hout, <- app_assoc. auto.
Qed.

End ForwarderFacts.

(** X19. Without cancellation the wrapper forwards every frame.  For a
    provider without a context method of its own whose
    [TextToSpeechStream] gives a channel that yields [frames] and is
    closed, and a context not seen cancelled while the frames are
    forwarded, the channel returned carries exactly [frames], in order,
    and is closed; a provider error is returned as it is, with a nil
    channel.  In both cases the cancel function returned is nil. *)
Theorem wrapper_forwards_every_frame {Provider : FanOut.BaseTTSProvider}
  (ctx : Go.Ctx) text sampleRate channels frameDuration :
  let result :=
    Forwarder.TextToSpeechStreamWithContext None ctx text sampleRate
      channels frameDuration in
  Forwarder.cancelFunc_ result = None
  /\ (forall chan e,
        FanOut.TextToSpeechStream text sampleRate channels frameDuration
        = (chan, Some e) ->
        Forwarder.outputChan_ result = None
        /\ Forwarder.err_ result = Some e)
  /\ (forall frames,
        FanOut.TextToSpeechStream text sampleRate channels frameDuration
        = (Some frames, None) ->
        (forall n, n < 2 * List.length frames + 1 -> ctx n = false) ->
        Forwarder.outputChan_ result = Some (frames, Go.Closed)
        /\ Forwarder.err_ result = None).
Proof.
  intros result. subst result. unfold Forwarder.TextToSpeechStreamWithContext.
  split; [|split].
  - destruct (FanOut.TextToSpeechStream _ _ _ _) as [chan [e|]]; reflexivity.
  - intros chan e ->. auto.
  - intros frames -> Hopen. cbn [Forwarder.goroutine].
    destruct (forward_never ctx frames Forwarder.init Hopen)
      as (w' & -> & Hout).
    cbn in *. rewrite Hout. auto.
Qed.

(** X20. Cancellation makes the forwarding goroutine panic.  For a
    provider without a context method of its own, the named result
    [cancelFunc] is never assigned, and the goroutine calls it when it
    sees the context cancelled: if the context is seen cancelled at any of
    the looks the goroutine makes while it forwards [frames], the
    goroutine panics on the call of a nil func, having forwarded only an
    initial part of the frames. *)
Theorem wrapper_panics_when_cancelled {Provider : FanOut.BaseTTSProvider}
  (ctx : Go.Ctx) text sampleRate channels frameDuration frames n :
  FanOut.TextToSpeechStream text sampleRate channels frameDuration
  = (Some frames, None) ->
  n < 2 * List.length frames + 1 ->
  ctx n = true ->
  exists sent rest,
    Forwarder.outputChan_
      (Forwarder.TextToSpeechStreamWithContext None ctx text sampleRate
         channels frameDuration)
    = Some (sent, Go.Panicked)
    /\ frames = (sent ++ rest)%list.
Proof.
  intros Hstream Hn Hctx. unfold Forwarder.TextToSpeechStreamWithContext.
  rewrite Hstream. cbn [Forwarder.goroutine Forwarder.outputChan_].
  destruct (forward_cancelled ctx frames Forwarder.init n Hn Hctx)
    as (w' & sent & rest & -> & Hout & Hframes).
  exists sent, rest. cbn in *. rewrite Hout. auto.
Qed.

Lemma wrapper_panics_when_cancelled_witness :
  exists sent rest,
    Forwarder.outputChan_
      (@Forwarder.TextToSpeechStreamWithContext FanOut.fails_on_two None
         (fun n => Nat.leb 2 n) "one" 16000 1 60)
    = Some (sent, Go.Panicked)
    /\ [[Byte.x01]; [Byte.x02]] = (sent ++ rest)%list.
Proof.
  apply (@wrapper_panics_when_cancelled FanOut.fails_on_two
           (fun n => Nat.leb 2 n) "one" 16000 1 60
           [[Byte.x01]; [Byte.x02]] 2).
  - reflexivity.
  - cbn. lia.
  - reflexivity.
Defined.

(** ** The options of package types *)

(** X21. Options are applied in order, field by field.  Of two options
    given one after the other, wherever they stand among the others:
    when they set the same field the earlier one has no effect, and when
    they set different fields their order does not matter. *)
Theorem later_option_overrides_earlier {World : Type}
  (base : Types.Options World) opts rest (s t : TypesOptions.Setting World) :
  (TypesOptions.same_field s t = true ->
   Types.GetImplSpecificOptions base
     (opts ++ TypesOptions.option_of s :: TypesOptions.option_of t :: rest)
   = Types.GetImplSpecificOptions base
       (opts ++ TypesOptions.option_of t :: rest))
  /\ (TypesOptions.same_field s t = false ->
      Types.GetImplSpecificOptions base
        (opts ++ TypesOptions.option_of s :: TypesOptions.option_of t :: rest)
      = Types.GetImplSpecificOptions base
          (opts ++ TypesOptions.option_of t :: TypesOptions.option_of s
                :: rest)).
Proof.
  unfold Types.GetImplSpecificOptions. rewrite !fold_left_app.
  cbn [fold_left].
  split; intros Hfield; destruct s, t; try discriminate Hfield;
    reflexivity.
Qed.

(** ** Creating the provider *)

Section EinoLLMFacts.
Import EinoLLM.
Context {Env : Environment}.

Lemma nonempty_true s : nonempty s = true -> s <> "".
Proof.
  unfold nonempty. intros H ->. discriminate.
Qed.

(** X22. [NewEinoLLMProvider] returns either a provider and no error or
    no provider and an error.  A provider it returns has the type and the
    model name of the configuration, the type being openai or ollama and
    the model name not empty; max_tokens and streamable are the
    configuration's when they are an int and a bool, and 500 and true
    otherwise; for ollama the base_url is not empty; for openai the chat
    model was made for the configuration's model name, so the default
    model name of [createOpenAIChatModel] is never used on this path. *)
Theorem NewEinoLLMProvider_validates (config : Config) :
  match NewEinoLLMProvider config with
  | (Some p, None) =>
      providerType p = string_at config "type"
      /\ (providerType p = "openai" \/ providerType p = "ollama")
      /\ modelName p = string_at config "model_name"
      /\ modelName p <> ""
      /\ maxTokens p
         = match config "max_tokens" with Some (VInt mt) => mt | _ => 500%Z end
      /\ streamable p
         = match config "streamable" with Some (VBool s) => s | _ => true end
      /\ (providerType p = "ollama" -> string_at config "base_url" <> "")
      /\ (providerType p = "openai" ->
          exists apiKey baseURL,
            openai_NewChatModel
              {| openai_Model := modelName p; openai_APIKey := apiKey;
                 openai_BaseURL := baseURL |}
            = (chatModel p, None))
  | (None, Some _) => True
  | (Some _, Some _) | (None, None) => False
  end.
Proof.
  unfold NewEinoLLMProvider.
  destruct (nonempty (string_at config "type")) eqn:Htype; cbn [negb];
    [|exact I].
  destruct (nonempty (string_at config "model_name")) eqn:Hname; cbn [negb];
    [|exact I].
  destruct (String.eqb (string_at config "type") "openai") eqn:Hopenai.
  - apply String.eqb_eq in Hopenai.
    unfold createOpenAIChatModel. rewrite Hname.
    destruct (openai_NewChatModel _) as [cm [e|]] eqn:Hnew; [exact I|].
    cbn [providerType modelName maxTokens streamable chatModel].
    repeat split; auto using nonempty_true.
    + rewrite Hopenai. discriminate.
    + intros _. eauto.
  - destruct (String.eqb (string_at config "type") "ollama") eqn:Hollama;
      [|exact I].
    apply String.eqb_eq in Hollama.
    unfold createOllamaChatModel. rewrite Hname. cbn [negb orb].
    destruct (nonempty (string_at config "base_url")) eqn:Hurl; cbn [negb];
      [|exact I].
    destruct (ollama_NewChatModel _) as [cm [e|]]; [exact I|].
    cbn [providerType modelName maxTokens streamable chatModel].
    repeat split; auto using nonempty_true.
    rewrite Hollama. discriminate.
Qed.

End EinoLLMFacts.

(** ** [ConvertMCPToolsToEinoTools] *)

Section McpToolsFacts.
Import McpTools.
Context {ToolInfo : Type}.

Lemma convert_flat_map (entries : list (string * Tool ToolInfo)) :
  forall einoTools,
    convert ToolInfo entries einoTools
    = (einoTools
       ++ flat_map (fun entry =>
                      match snd entry with
                      | Some (toolInfo, None) => [toolInfo]
                      | _ => []
                      end) entries)%list.
Proof.
  induction entries as [|[name [[toolInfo [e|]]|]] rest IH]; intros acc;
    cbn [convert flat_map snd app]; rewrite ?IH, <- ?app_assoc;
    try reflexivity.
  now rewrite app_nil_r.
Qed.

(** X23. [ConvertMCPToolsToEinoTools] never fails, and the order in which
    the map is visited decides only the order of its result: it returns a
    nil error; it returns one tool info for each tool whose [Info]
    succeeds, skipping the tools without the method and those whose
    [Info] fails; and two visiting orders of the same map give the same
    tool infos up to order. *)
Theorem conversion_skips_failures_in_any_order
  (entries entries' : list (string * Tool ToolInfo)) :
  snd (ConvertMCPToolsToEinoTools ToolInfo entries) = None
  /\ List.length (fst (ConvertMCPToolsToEinoTools ToolInfo entries))
     = List.length (filter (informative ToolInfo) entries)
  /\ (Permutation entries entries' ->
      Permutation (fst (ConvertMCPToolsToEinoTools ToolInfo entries))
        (fst (ConvertMCPToolsToEinoTools ToolInfo entries'))).
Proof.
  unfold ConvertMCPToolsToEinoTools. cbn [fst snd].
  rewrite !convert_flat_map. cbn [app].
  split; [reflexivity|]. split.
  - induction entries as [|[name [[toolInfo [e|]]|]] rest IH];
      cbn [flat_map filter informative snd app List.length]; auto.
  - intros Hperm. induction Hperm as [|x l l' _ IH|x y l|l l' l'' _ IH1 _ IH2].
    + constructor.
    + cbn [flat_map]. now apply Permutation_app_head.
    + cbn [flat_map]. rewrite !app_assoc.
      apply Permutation_app_tail, Permutation_app_comm.
    + now transitivity (flat_map
                          (fun entry : string * Tool ToolInfo =>
                             match snd entry with
                             | Some (toolInfo, None) => [toolInfo]
                             | _ => []
                             end) l').
Qed.

End McpToolsFacts.

Lemma NewEinoLLMProvider_validates_witness :
  exists p,
    @EinoLLM.NewEinoLLMProvider EinoLLM.only_openai EinoLLM.openai_config
    = (Some p, None)
    /\ EinoLLM.modelName p = "gpt-4o"
    /\ EinoLLM.maxTokens p = 500%Z.
Proof.
  pose proof (@NewEinoLLMProvider_validates EinoLLM.only_openai
                EinoLLM.openai_config) as H.
  remember (@EinoLLM.NewEinoLLMProvider EinoLLM.only_openai
              EinoLLM.openai_config) as r eqn:E.
  vm_compute in E. subst r.
  destruct H as (_ & _ & Hname & _ & Hmax & _).
  eexists. split; [reflexivity|].
  split; [rewrite Hname | rewrite Hmax]; reflexivity.
Defined.

(** ** The first-sentence flag, with the Segmenter of the specification *)

Section FlagFacts.
Import Schema Controller ControllerSpec Sentence.
Context {Seg : Segmenter}.

Lemma sentences_sentence_events ss :
  forall first,
    sentences (fst (sentence_events ss first))
    = fst (sentence_events ss first).
Proof.
  induction ss as [|s ss IH]; intros first; cbn [sentence_events].
  - reflexivity.
  - destruct (nonempty s) eqn:Hs; [|apply IH].
    specialize (IH false). destruct (sentence_events ss false) as [evs f].
    cbn [fst] in *. unfold sentences in *. cbn [filter].
    unfold is_sentence at 1. cbn [Text IsEnd]. rewrite Hs. cbn [andb negb].
    now rewrite IH.
Qed.

Lemma sentence_events_false ss :
  unflagged (fst (sentence_events ss false)).
Proof.
  induction ss as [|s ss IH]; cbn [sentence_events].
  - constructor.
  - destruct (nonempty s); [|exact IH].
    destruct (sentence_events ss false) as [evs f]. cbn [fst] in *.
    constructor; [reflexivity|exact IH].
Qed.

Lemma sentence_events_true ss :
  Exists (fun s => nonempty s = true) ss ->
  exists ev evs,
    fst (sentence_events ss true) = ev :: evs
    /\ IsStart ev = true /\ unflagged evs.
Proof.
  induction ss as [|s ss IH]; intros Hex; [inversion Hex|].
  cbn [sentence_events]. destruct (nonempty s) eqn:Hs.
  - pose proof (sentence_events_false ss) as Hu.
    destruct (sentence_events ss false) as [evs f]. cbn [fst] in *.
    eexists _, evs. repeat split. exact Hu.
  - apply IH. inversion Hex as [x l Hx|x l Hl]; subst; [congruence|exact Hl].
Qed.

(** The sentence events of one turn are those of the Segmenter call, if
    the turn makes one, which also clears the flag. *)
Lemma turn_sentences m buf first :
  let called :=
    nonempty (Content m) && ContainsSentenceSeparator (Content m) first in
  sentences (fst (turn_events m buf first))
  = (if called then
       fst (sentence_events
              (fst (ExtractSmartSentences (buf ++ Content m) 2 100 first))
              first)
     else [])
  /\ snd (snd (turn_events m buf first)) = (if called then false else first).
Proof.
  assert (Htool : forall evs first1,
    sentences
      (evs ++ (if Nat.ltb 0 (List.length (Schema.ToolCalls m))
               then [ {| Text := ""; IsStart := first1; IsEnd := false;
                         ToolCalls := Schema.ToolCalls m |} ]
               else []))
    = sentences evs).
  { intros evs first1. rewrite sentences_app.
    destruct (Nat.ltb _ _); cbn; now rewrite app_nil_r. }
  cbn zeta. unfold turn_events.
  destruct (nonempty (Content m)); cbn [andb].
  - destruct (ContainsSentenceSeparator (Content m) first).
    + destruct (ExtractSmartSentences _ _ _ _) as [ss remaining].
      cbn [fst snd]. rewrite Htool, sentences_sentence_events. auto.
    + cbn [fst snd]. rewrite Htool. auto.
  - cbn [fst snd]. rewrite Htool. auto.
Qed.

(** Once the flag is cleared no sentence event carries it. *)
Lemma run_events_unflagged stream :
  forall buf, unflagged (sentences (fst (run_events stream buf false))).
Proof.
  induction stream as [|[message err] rest IH]; intros buf;
    cbn [run_events].
  - constructor.
  - destruct (Go.is_EOF err).
    { cbn [fst]. rewrite end_marker_no_sentence. constructor. }
    destruct message as [m|]; [|constructor].
    destruct (turn_sentences m buf false) as [Hs Hf].
    destruct (turn_events m buf false) as [evs [buf1 first1]].
    cbn [fst snd] in Hs, Hf.
    assert (first1 = false) as -> by (rewrite Hf; now destruct (_ && _)).
    specialize (IH buf1). destruct (run_events rest buf1 false) as [evs' st].
    cbn [fst] in *. rewrite sentences_app, Hs.
    apply Forall_app. split; [|exact IH].
    destruct (_ && _); [apply sentence_events_false|constructor].
Qed.

Lemma first_flagged_only_app evs1 evs2 :
  first_flagged_only (evs1 ++ evs2) -> first_flagged_only evs1.
Proof.
  destruct evs1 as [|ev evs1]; cbn; [auto|].
  intros [Hev Hu]. split; [exact Hev|].
  apply Forall_app in Hu. apply Hu.
Qed.

Hypothesis Hfirst : first_call_extracts Seg.

(** With the flag set, the first sentence event of a run whose sends are
    never given up carries it, and no other does. *)
Lemma run_events_first_flagged stream :
  forall buf,
    first_flagged_only (sentences (fst (run_events stream buf true))).
Proof.
  induction stream as [|[message err] rest IH]; intros buf;
    cbn [run_events].
  - exact I.
  - destruct (Go.is_EOF err).
    { cbn [fst]. rewrite end_marker_no_sentence. exact I. }
    destruct message as [m|]; [|exact I].
    destruct (turn_sentences m buf true) as [Hs Hf].
    destruct (turn_events m buf true) as [evs [buf1 first1]].
    cbn [fst snd] in Hs, Hf.
    destruct (nonempty (Content m)
              && ContainsSentenceSeparator (Content m) true) eqn:Hcalled.
    + subst first1. apply andb_true_iff in Hcalled.
      destruct Hcalled as [_ Hsep].
      destruct (sentence_events_true _ (Hfirst buf (Content m) Hsep))
        as (ev & later & Hevs & Hev & Hlater).
      pose proof (run_events_unflagged rest buf1) as Hrest.
      destruct (run_events rest buf1 false) as [evs' st].
      cbn [fst] in *. rewrite sentences_app, Hs, Hevs. cbn [app].
      split; [exact Hev|]. apply Forall_app. auto.
    + subst first1. specialize (IH buf1).
      destruct (run_events rest buf1 true) as [evs' st].
      cbn [fst] in *. now rewrite sentences_app, Hs.
Qed.


End FlagFacts.

(** The Segmenter of the specification extracts a sentence on a first
    call. *)
Lemma segmenter_first_call_extracts :
  Sentence.first_call_extracts Sentence.segmenter.
Proof.
  assert (Hne : forall candidate c,
            nonempty (candidate ++ String c "") = true).
  { intros candidate c. destruct candidate; reflexivity. }
  assert (Hscan : forall s minLen candidate,
    Sentence.ContainsBoundary s = true ->
    exists sentence sentences remainder,
      Sentence.scan minLen true candidate s
      = (sentence :: sentences, remainder)
      /\ nonempty sentence = true).
  { induction s as [|c r IH]; intros minLen candidate Hb; [discriminate|].
    cbn [Sentence.ContainsBoundary] in Hb. cbn [Sentence.scan].
    destruct (Sentence.is_boundary c); cbn [orb] in *.
    - destruct (Sentence.scan minLen false "" r) as [ss rem].
      eexists _, ss, rem. split; [reflexivity|apply Hne].
    - destruct (Json.is_space c && negb (nonempty candidate));
        apply IH; exact Hb. }
  assert (Happ : forall buf content,
    Sentence.ContainsBoundary content = true ->
    Sentence.ContainsBoundary (buf ++ content) = true).
  { induction buf as [|c buf IH]; intros content Hb; [exact Hb|].
    cbn. rewrite (IH content Hb). apply orb_true_r. }
  intros buf content Hb. cbn in Hb.
  cbn [Controller.ExtractSmartSentences Sentence.segmenter].
  unfold Sentence.ExtractSentences.
  destruct (Hscan (buf ++ content)%string (Z.to_nat 2) ""
              (Happ buf content Hb)) as (x & ss & rem & -> & Hx).
  destruct (_ && _); cbn [fst app]; apply Exists_cons_hd; exact Hx.
Qed.


(** ** An error from the upstream stream *)

Section ErrorFacts.
Import Schema Controller ControllerSpec GoLogic.
Context {Seg : Segmenter}.
Variable ctx : Go.Ctx.

(** Whenever the body of the loop stops, the goroutine ends and its
    channel is closed. *)
Lemma body_stops_closed r :
  triple (fun _ => True) (body ctx r) (fun _ _ => True)
    (fun sig _ => Go.status_of sig = Go.Closed).
Proof.
  set (J := fun (sig : Go.Signal) (_ : Worker) =>
              Go.status_of sig = Go.Closed).
  assert (Hany : forall (A : Type) (m : Go.M Worker A),
            (forall w, is_next (m w) = true) ->
            triple (fun _ => True) m (fun _ _ => True) J).
  { intros A m Hm w _. specialize (Hm w). destruct (m w); [exact I|].
    discriminate. }
  assert (Hsend : forall ev,
            triple (fun _ => True) (select_send ctx ev) (fun _ _ => True) J).
  { intros ev w _. unfold select_send.
    destruct (ctx (selects w)); [reflexivity|exact I]. }
  assert (Hsentence : forall s,
            triple (fun _ => True) (send_sentence ctx s) (fun _ _ => True) J).
  { intros s. unfold send_sentence. apply triple_when.
    eapply triple_bind; [apply Hany; reflexivity|]. intros ff.
    eapply triple_bind with (Q := fun _ _ => True).
    { apply triple_when, Hany. reflexivity. }
    intros ?. eapply triple_bind; [apply Hany; reflexivity|]. intros first.
    eapply triple_bind; [apply Hsend|]. intros ?.
    eapply triple_bind; [apply Hany; reflexivity|]. intros first'.
    apply triple_when, Hany. reflexivity. }
  assert (Hsentences : forall ss,
            triple (fun _ => True) (send_sentences ctx ss)
              (fun _ _ => True) J).
  { induction ss as [|s ss IH]; cbn [send_sentences].
    - apply Hany. reflexivity.
    - eapply triple_bind; [apply Hsentence|]. intros ?. exact IH. }
  destruct r as [message err]. unfold body.
  eapply triple_bind with (Q := fun _ _ => True).
  { apply triple_when. unfold on_EOF.
    eapply triple_bind; [apply Hany; reflexivity|]. intros remaining.
    eapply triple_bind with (Q := fun _ _ => True).
    - destruct (nonempty remaining); [|apply Hsend].
      eapply triple_bind; [apply Hany; reflexivity|]. intros ?. apply Hsend.
    - intros ?. apply triple_stop. reflexivity. }
  intros ?. destruct message as [m|]; [|apply triple_stop; reflexivity].
  eapply triple_bind with (Q := fun _ _ => True).
  { apply triple_when. unfold on_content.
    eapply triple_bind; [apply Hany; reflexivity|]. intros ?.
    eapply triple_bind; [apply Hany; reflexivity|]. intros ?.
    eapply triple_bind; [apply Hany; reflexivity|]. intros first.
    apply triple_when.
    eapply triple_bind; [apply Hany; reflexivity|]. intros buf.
    eapply triple_bind; [apply Hany; reflexivity|]. intros first1.
    destruct (ExtractSmartSentences buf 2 100 first1) as [ss remaining].
    eapply triple_bind with (Q := fun _ _ => True).
    { apply triple_when, Hsentences. }
    intros ?. eapply triple_bind; [apply Hany; reflexivity|]. intros ?.
    eapply triple_bind; [apply Hany; reflexivity|]. intros ?.
    eapply triple_bind; [apply Hany; reflexivity|]. intros first2.
    apply triple_when, Hany. reflexivity. }
  intros ?. apply triple_when. unfold on_tool_calls.
  eapply triple_bind; [apply Hany; reflexivity|]. intros first.
  apply Hsend.
Qed.

(** A run that comes to an error with a nil message ends there, its
    channel as the messages before the error left it. *)
Lemma loop_error items text after :
  forall w,
    sentenceChannel
      (fst (loop ctx (items ++ (None, Some (Go.errors_New text)) :: after) w))
    = sentenceChannel (fst (loop ctx items w))
    /\ snd (loop ctx (items ++ (None, Some (Go.errors_New text)) :: after) w)
       = Go.Closed.
Proof.
  induction items as [|r items IH]; intros w; cbn [app loop];
    unfold select_default; destruct (ctx (selects w)); cbn [fst snd];
    try (split; reflexivity).
  pose proof (body_stops_closed r (looked w) I) as Hstop.
  destruct (body ctx r (looked w)) as [[] w2|sig w2]; cbn [fst snd].
  - apply IH.
  - split; [reflexivity|exact Hstop].
Qed.

Lemma run_events_not_end stream :
  forall buf first,
    Forall (fun r => Go.is_EOF (snd r) = false) stream ->
    Forall (fun ev => IsEnd ev = false) (fst (run_events stream buf first)).
Proof.
  induction stream as [|[message err] rest IH]; intros buf first Hstream;
    cbn [run_events].
  - constructor.
  - inversion Hstream as [|r l Herr Hrest]; subst. cbn [snd] in Herr.
    rewrite Herr. destruct message as [m|]; [|constructor].
    pose proof (turn_events_not_end m buf first) as Hturn.
    destruct (turn_events m buf first) as [evs [buf1 first1]].
    specialize (IH buf1 first1 Hrest).
    destruct (run_events rest buf1 first1) as [evs' st].
    cbn [fst] in *. apply Forall_app. auto.
Qed.

(** C9.  When [Recv] returns an error that is not the end of the stream,
    and with it a nil message, as the reader of the provider's stream
    does, the controller stops there: for every Segmenter, every
    cancellation of the context, whatever was received before and whatever
    would be received after, the events sent are exactly those sent for
    what was received before the error, and the channel is closed.
    Nothing is sent for the buffered remainder; if the end of the stream
    was not received before the error, no event sent is an end marker. *)
Theorem error_stops_without_flush items text after :
  let stream :=
    (items ++ (None, Some (Go.errors_New text)) :: after)%list in
  fst (worker ctx stream) = fst (worker ctx items)
  /\ snd (worker ctx stream) = Go.Closed
  /\ (Forall (fun r => Go.is_EOF (snd r) = false) items ->
      Forall (fun ev => IsEnd ev = false) (fst (worker ctx stream))).
Proof.
  intros stream. subst stream.
  destruct (loop_error items text after init) as [Hc Hs].
  rewrite !worker_fst, worker_snd.
  split; [exact Hc|]. split; [exact Hs|].
  intros Hitems. rewrite Hc.
  destruct (cut_loop ctx items init) as (rest & Hrest).
  cbn [init sentenceChannel buffer isFirst app] in Hrest.
  pose proof (run_events_not_end items "" true Hitems) as Hrun.
  rewrite Hrest in Hrun. apply Forall_app in Hrun. apply Hrun.
Qed.

End ErrorFacts.
